(** * Brambl-JS key manager: a shallow embedding of [src/modules/KeyManager.js]

    The module creates, encrypts, imports and exports curve25519 keys and
    guards signing behind a lock flag.  JavaScript values are embedded as
    the type [value]; every function of the module is a computation in a
    state-and-exception monad over the [World] it runs in (file system,
    clock, entropy and the log of calls made to the crypto provider), and
    the methods of the class additionally thread the instance ([this]).

    The npm and Node.js dependencies ([base-58], [crypto], [keccak],
    [blake2], [curve25519-js], [JSON], [path]) are not part of the
    module; they are collected in the record [Runtime] and every result
    below is stated for an arbitrary runtime, with the facts it needs
    about the runtime spelled out as hypotheses. *)

From Stdlib Require Import Strings.Ascii Strings.Byte NArith Lia.
From stdpp Require Import base strings gmap list pretty.

#[local] Set Warnings "-register-all".

(** ** JavaScript values and exceptions *)

Abbreviation bytes := (list byte).

#[global] Instance byte_eq_dec : EqDecision byte.
Proof. intros x y. destruct (Byte.eqb x y) eqn:E.
  - left. now apply Byte.byte_dec_bl.
  - right. intros ->. rewrite (Byte.byte_dec_lb eq_refl) in E. discriminate.
Defined.

(** The values the module handles: [undefined], [null], strings, Buffers
    and plain objects (property lists in insertion order). A string stands
    for its UTF-8 bytes. *)
Inductive value : Type :=
  | VUndef
  | VNull
  | VStr (s : string)
  | VBuf (b : bytes)
  | VObj (props : list (string * value)).

(** What a [throw] carries: an [Error], a [TypeError], a [SyntaxError], or
    any other thrown value (the [base-58] package throws bare strings). *)
Inductive exn : Type :=
  | JsError (message : string)
  | JsTypeError (message : string)
  | JsSyntaxError (message : string)
  | JsThrown (v : string).

(** [String(err)], as computed by ["..." + err]. *)
Definition exn_toString (e : exn) : string :=
  match e with
  | JsError m => "Error: " +:+ m
  | JsTypeError m => "TypeError: " +:+ m
  | JsSyntaxError m => "SyntaxError: " +:+ m
  | JsThrown v => v
  end.

Inductive result (A : Type) : Type :=
  | Ok (a : A)
  | Throw (e : exn).
Arguments Ok {A} a.
Arguments Throw {A} e.

Definition is_Ok {A} (r : result A) : Prop :=
  match r with Ok _ => True | Throw _ => False end.

(** JavaScript truthiness ([!v] is its negation). *)
Definition truthy (v : value) : bool :=
  match v with
  | VUndef | VNull => false
  | VStr s => negb (String.eqb s "")
  | VBuf _ | VObj _ => true
  end.

(** [typeof v === "string"] and [v.constructor === String] agree on the
    values above, except that reading [.constructor] of [undefined] or
    [null] throws. *)
Definition is_string (v : value) : bool :=
  match v with VStr _ => true | _ => false end.

(** String coercion, as in [v + " is not available"]. *)
Definition js_toString (v : value) : string :=
  match v with
  | VUndef => "undefined"
  | VNull => "null"
  | VStr s => s
  | VBuf b => String.string_of_list_byte b
  | VObj _ => "[object Object]"
  end.

Fixpoint assoc (k : string) (props : list (string * value)) : option value :=
  match props with
  | [] => None
  | (k', v) :: rest => if String.eqb k k' then Some v else assoc k rest
  end.

(** Property read [o.k]: throws on [undefined] and [null], yields
    [undefined] for an absent property (strings and Buffers have none of
    the property names the module reads). *)
Definition get_prop (o : value) (k : string) : result value :=
  match o with
  | VUndef => Throw (JsTypeError ("Cannot read properties of undefined (reading '" +:+ k +:+ "')"))
  | VNull => Throw (JsTypeError ("Cannot read properties of null (reading '" +:+ k +:+ "')"))
  | VObj props => Ok (default VUndef (assoc k props))
  | VStr _ | VBuf _ => Ok VUndef
  end.

(** Property write [o.k = v] on a property list: overwrite in place, or
    append. *)
Fixpoint set_prop (k : string) (v : value) (props : list (string * value))
  : list (string * value) :=
  match props with
  | [] => [(k, v)]
  | (k', v') :: rest =>
      if String.eqb k k' then (k, v) :: rest else (k', v') :: set_prop k v rest
  end.

(** [Buffer.from(str, "utf8")]. *)
Definition Buffer_from_utf8 (s : string) : bytes := String.list_byte_of_string s.

(** [buf.slice(start, end)] for non-negative indices. *)
Definition Buffer_slice (start stop : nat) (b : bytes) : bytes :=
  take (stop - start) (drop start b).

(** [v.slice(start, end)] on a Buffer or a string. *)
Definition js_slice (v : value) (start stop : nat) : result value :=
  match v with
  | VBuf b => Ok (VBuf (Buffer_slice start stop b))
  | VStr s => Ok (VStr (String.substring start (stop - start) s))
  | VUndef | VNull => Throw (JsTypeError "Cannot read properties of undefined (reading 'slice')")
  | VObj _ => Throw (JsTypeError "slice is not a function")
  end.

(** [Buffer.concat(list)]: every element must be a Buffer. *)
Fixpoint Buffer_concat (l : list value) : result bytes :=
  match l with
  | [] => Ok []
  | VBuf b :: rest =>
      match Buffer_concat rest with
      | Ok r => Ok (b ++ r)
      | Throw e => Throw e
      end
  | _ :: _ => Throw (JsTypeError "The list argument must be an instance of Buffer or Uint8Array")
  end.

(** [a.equals(b)]: the receiver must be a Buffer (a method call on
    anything else fails) and so must the argument. *)
Definition Buffer_equals (a b : value) : result bool :=
  match a with
  | VBuf x =>
      match b with
      | VBuf y => Ok (bool_decide (x = y))
      | _ => Throw (JsTypeError
                      "The otherBuffer argument must be an instance of Buffer or Uint8Array")
      end
  | _ => Throw (JsTypeError "equals is not a function")
  end.

(** How Node's [crypto] functions read a key, IV, salt, password or data
    argument: a Buffer as it is, a string as its UTF-8 bytes. *)
Definition crypto_arg (v : value) : result bytes :=
  match v with
  | VBuf b => Ok b
  | VStr s => Ok (Buffer_from_utf8 s)
  | _ => Throw (JsTypeError "The argument must be of type string or an instance of Buffer")
  end.

(** ** The world and the monad *)

(** Calls that leave the module. *)
Inductive event : Type :=
  | EvRandomBytes (n : nat)
  | EvScrypt
  | EvKeccak
  | EvCipher (algo : string)
  | EvDecipher (algo : string)
  | EvReadFile (path : string)
  | EvWriteFile (path : string).

#[global] Instance event_eq_dec : EqDecision event.
Proof. solve_decision. Defined.

Record World : Type := mkWorld {
  fs : gmap string string;        (* files: path to contents *)
  unwritable : gset string;       (* paths the OS refuses to write *)
  now : string;                   (* new Date().toISOString() *)
  seed : nat;                     (* state of the entropy source *)
  calls : list event              (* log of outside calls, oldest first *)
}.

Definition log (e : event) (w : World) : World :=
  mkWorld (fs w) (unwritable w) (now w) (seed w) (calls w ++ [e]).

(** State-and-exception computations; effects made before a [throw]
    persist. *)
Definition SE (S A : Type) : Type := S → result A * S.

#[global] Instance SE_ret {S} : MRet (SE S) := λ A a s, (Ok a, s).
#[global] Instance SE_bind {S} : MBind (SE S) :=
  λ A B k m s, match m s with
               | (Ok a, s') => k a s'
               | (Throw e, s') => (Throw e, s')
               end.

Definition throw {S A} (e : exn) : SE S A := λ s, (Throw e, s).
Definition try_catch {S A} (m : SE S A) (h : exn → SE S A) : SE S A :=
  λ s, match m s with
       | (Ok a, s') => (Ok a, s')
       | (Throw e, s') => h e s'
       end.
Definition of_result {S A} (r : result A) : SE S A := λ s, (r, s).

Abbreviation M := (SE World).

Definition emit {A} (e : event) (r : result A) : M A := λ w, (r, log e w).

(** ** The runtime: npm packages and Node.js built-ins *)

Record KdfParams : Type := mkKdfParams { dkLen : N; n : N; r : N; p : N }.

Record ScryptOptions : Type :=
  mkScryptOptions { opt_N : N; opt_r : N; opt_p : N; opt_maxmem : N }.

Record Runtime : Type := mkRuntime {
  (* base-58 *)
  Base58_encode : bytes → string;
  Base58_decode : string → result bytes;
  (* crypto *)
  getCiphers : list string;
  (* createCipheriv(algo, key, iv); the cipher maps the data to
     update(data) followed by final() *)
  createCipheriv : string → bytes → bytes → result (bytes → result bytes);
  createDecipheriv : string → bytes → bytes → result (bytes → result bytes);
  scryptSync : bytes → bytes → N → ScryptOptions → result bytes;
  randomBytes : nat → nat → bytes;   (* entropy state, size *)
  (* keccak("keccak256").update(m).digest() *)
  keccak256 : bytes → bytes;
  (* blake.createHash("blake2b", {digestLength: 32}).update(m).digest() *)
  blake2b : bytes → bytes;
  (* curve25519-js: (public, private) *)
  generateKeyPair : bytes → bytes * bytes;
  curve25519_sign : value → value → bytes → result bytes;
  (* built-ins *)
  JSON_stringify : value → string;
  JSON_parse : string → result value;
  path_join : string → string → string
}.

(** ** Default options (lines 22-40) *)

Record Options : Type := mkOptions {
  cipher : string;
  ivBytes : nat;
  keyBytes : nat;
  scrypt : KdfParams;
  kdfParams : option KdfParams   (* read by [dump] only *)
}.

Definition defaultOptions : Options :=
  {| cipher := "aes-256-ctr";
     ivBytes := 16;
     keyBytes := 32;
     scrypt := {| dkLen := 32; n := N.pow 2 18; r := 8; p := 1 |};
     kdfParams := None |}.

(** The object returned by [create]: four Buffers. *)
Record KeyObject : Type := mkKeyObject {
  publicKey : bytes;
  privateKey : bytes;
  iv : bytes;
  salt : bytes
}.

(** ** [str.split(sep).join(glue)] for a one-character separator *)

Fixpoint split (sep : Ascii.ascii) (s : string) : list string :=
  match s with
  | EmptyString => [""]
  | String c rest =>
      if Ascii.eqb c sep then "" :: split sep rest
      else match split sep rest with
           | h :: t => String c h :: t
           | [] => [String c ""]
           end
  end.

Fixpoint join (glue : string) (l : list string) : string :=
  match l with
  | [] => ""
  | [x] => x
  | x :: rest => x +:+ glue +:+ join glue rest
  end.

(** ** Generic key methods (lines 42-313), synchronous paths *)

Section GenericKeyMethods.
Context (R : Runtime).

(** Lines 61-64. [enc] is only ever absent or ["utf8"]. *)
Definition str2buf (str : value) (enc : option string) : result value :=
  match str with
  | VStr s =>
      if String.eqb s "" then Ok str                         (* !str *)
      else match enc with
           | Some _ => Ok (VBuf (Buffer_from_utf8 s))
           | None =>
               match Base58_decode R s with
               | Ok b => Ok (VBuf b)
               | Throw e => Throw e
               end
           end
  | _ => Ok str                  (* !str || str.constructor !== String *)
  end.

(** Lines 71-75: [name === cipher] holds for a string only. *)
Definition isCipherAvailable (cipher : value) : bool :=
  existsb (λ name, match cipher with
                   | VStr c => String.eqb name c
                   | _ => false
                   end) (getCiphers R).

(** [crypto.createCipheriv(algo, key, iv)] and [crypto.createDecipheriv],
    logged and with their arguments read as [crypto] reads them. *)
Definition crypto_createCipheriv (algo : string) (key iv : value)
  : M (bytes → result bytes) :=
  emit (EvCipher algo) (Ok ());;
  k ← of_result (crypto_arg key);
  i ← of_result (crypto_arg iv);
  of_result (createCipheriv R algo k i).

Definition crypto_createDecipheriv (algo : string) (key iv : value)
  : M (bytes → result bytes) :=
  emit (EvDecipher algo) (Ok ());;
  k ← of_result (crypto_arg key);
  i ← of_result (crypto_arg iv);
  of_result (createDecipheriv R algo k i).

(** [c.update(data)] followed by [c.final()], concatenated. *)
Definition update_final (c : bytes → result bytes) (data : value) : M bytes :=
  d ← of_result (crypto_arg data);
  of_result (c d).

(** Lines 85-90. *)
Definition encrypt (plaintext key iv algo : value) : M bytes :=
  if negb (isCipherAvailable algo)
  then throw (JsError (js_toString algo +:+ " is not available"))
  else
    k ← of_result (str2buf key None);
    i ← of_result (str2buf iv None);
    cipher ← crypto_createCipheriv (js_toString algo) k i;
    pt ← of_result (str2buf plaintext None);
    update_final cipher pt.

(** Lines 100-105. *)
Definition decrypt (ciphertext key iv algo : value) : M bytes :=
  if negb (isCipherAvailable algo)
  then throw (JsError (js_toString algo +:+ " is not available"))
  else
    k ← of_result (str2buf key None);
    i ← of_result (str2buf iv None);
    decipher ← crypto_createDecipheriv (js_toString algo) k i;
    ct ← of_result (str2buf ciphertext None);
    update_final decipher ct.

(** [v !== undefined && v !== null]. *)
Definition defined (v : value) : bool :=
  match v with VUndef | VNull => false | _ => true end.

(** Lines 116-124; without both arguments the function falls through and
    returns [undefined]. *)
Definition getMAC (derivedKey ciphertext : value) : M value :=
  if defined derivedKey && defined ciphertext then
    dk ← of_result (str2buf derivedKey None);
    half ← of_result (js_slice dk 16 32);
    ct ← of_result (str2buf ciphertext None);
    msg ← of_result (Buffer_concat [half; ct]);
    emit EvKeccak (Ok (VBuf (keccak256 R msg)))
  else mret VUndef.

(** [crypto.randomBytes(size)]: draws from the entropy source and
    advances it. *)
Definition crypto_randomBytes (size : nat) : M bytes :=
  λ w, (Ok (randomBytes R (seed w) size),
        mkWorld (fs w) (unwritable w) (now w) (S (seed w))
                (calls w ++ [EvRandomBytes size])).

(** Lines 153-161. *)
Definition curve25519KeyGen (keyBytes ivBytes : nat) (rnd : bytes) : M KeyObject :=
  let '(pk, sk) := generateKeyPair R (blake2b R rnd) in
  r_iv ← crypto_randomBytes (keyBytes + ivBytes + keyBytes);
  r_salt ← crypto_randomBytes (keyBytes + ivBytes);
  mret {| publicKey := pk;
          privateKey := sk;
          iv := Buffer_slice 0 ivBytes (blake2b R r_iv);
          salt := blake2b R r_salt |}.

(** Lines 135-166. *)
Definition create (params : Options) : M KeyObject :=
  rnd ← crypto_randomBytes (keyBytes params + ivBytes params + keyBytes params);
  curve25519KeyGen (keyBytes params) (ivBytes params) rnd.

(** [crypto.scryptSync(password, salt, keylen, options)]. *)
Definition crypto_scryptSync (password salt : value) (keylen : N)
    (options : ScryptOptions) : M bytes :=
  emit EvScrypt (Ok ());;
  pw ← of_result (crypto_arg password);
  s ← of_result (crypto_arg salt);
  of_result (scryptSync R pw s keylen options).

(** Lines 182-201. *)
Definition deriveKey (password salt : value) (kdfParams : KdfParams) : M bytes :=
  if negb (defined password) || negb (truthy salt)
  then throw (JsError "Must provide password and salt to derive a key")
  else
    password ← of_result (str2buf password (Some "utf8"));
    salt ← of_result (str2buf salt None);
    let maxmem := (2 * 128 * n kdfParams * r kdfParams)%N in
    crypto_scryptSync password salt (dkLen kdfParams)
      {| opt_N := n kdfParams; opt_r := r kdfParams;
         opt_p := p kdfParams; opt_maxmem := maxmem |}.

(** [Base58.encode] applied to the result of [getMAC]. *)
Definition Base58_encode_value (v : value) : M string :=
  match v with
  | VBuf b => mret (Base58_encode R b)
  | _ => throw (JsTypeError "Cannot read properties of undefined (reading 'length')")
  end.

(** Lines 216-234. The Buffer parameters are typed as documented; of
    [keyObject] only the two keys are read. *)
Definition marshal (derivedKey : bytes) (keyObject : KeyObject)
    (salt iv : bytes) (algo : string) : M value :=
  ciphertext ← encrypt (VBuf (privateKey keyObject)) (VBuf derivedKey)
                       (VBuf iv) (VStr algo);
  mac ← getMAC (VBuf derivedKey) (VBuf ciphertext);
  mac58 ← Base58_encode_value mac;
  let crypto :=
    [ ("cipher", VStr algo);
      ("cipherText", VStr (Base58_encode R ciphertext));
      ("cipherParams", VObj [("iv", VStr (Base58_encode R iv))]);
      ("mac", VStr mac58) ] in
  let crypto := set_prop "kdf" (VStr "scrypt") crypto in
  let crypto := set_prop "kdfSalt" (VStr (Base58_encode R salt)) crypto in
  mret (VObj [ ("publicKeyId", VStr (Base58_encode R (publicKey keyObject)));
               ("crypto", VObj crypto) ]).

(** Lines 244-254. [keyObject] comes from [create], so the four
    [str2buf] calls see Buffers and return them unchanged. *)
Definition dump (password : value) (keyObject : KeyObject) (options : Options)
  : M value :=
  let kdfParams := default (scrypt options) (kdfParams options) in
  derivedKey ← deriveKey password (VBuf (salt keyObject)) kdfParams;
  marshal derivedKey keyObject (salt keyObject) (iv keyObject) (cipher options).

(** Lines 280-285. *)
Definition verifyAndDecrypt (derivedKey : bytes) (iv ciphertext mac algo : value)
  : M bytes :=
  m ← getMAC (VBuf derivedKey) ciphertext;
  same ← of_result (Buffer_equals m mac);
  if negb same then throw (JsError "message authentication code mismatch")
  else decrypt ciphertext (VBuf derivedKey) iv algo.

(** Lines 270-296 ([keyStorage.crypto] is read once here; the source
    re-reads it on each of the five lines, to the same effect). *)
Definition recover (password keyStorage : value) (kdfParams : KdfParams) : M bytes :=
  crypto ← of_result (get_prop keyStorage "crypto");
  cipherParams ← of_result (get_prop crypto "cipherParams");
  iv58 ← of_result (get_prop cipherParams "iv");
  iv ← of_result (str2buf iv58 None);
  salt58 ← of_result (get_prop crypto "kdfSalt");
  salt ← of_result (str2buf salt58 None);
  ct58 ← of_result (get_prop crypto "cipherText");
  ciphertext ← of_result (str2buf ct58 None);
  mac58 ← of_result (get_prop crypto "mac");
  mac ← of_result (str2buf mac58 None);
  algo ← of_result (get_prop crypto "cipher");
  derivedKey ← deriveKey password salt kdfParams;
  verifyAndDecrypt derivedKey iv ciphertext mac algo.

(** Lines 308-313. *)
Definition generateKeystoreFilename (publicKey : value) : M string :=
  if negb (is_string publicKey)
  then throw (JsError "PublicKey must be given as a string for the filename")
  else
    λ w, let filename := now w +:+ "-" +:+ js_toString publicKey +:+ ".json" in
         (Ok (join "-" (split ":"%char filename)), w).

End GenericKeyMethods.

(** ** The [KeyManager] class (lines 322-466) *)

(** An instance: the public field [pk], the four private fields and
    [constants]. *)
Record KeyManager : Type := mkKeyManager {
  pk : value;
  sk : value;               (* #sk: a Buffer, or undefined *)
  isLocked : bool;          (* #isLocked *)
  password : value;         (* #password *)
  keyStorage : value;       (* #keyStorage *)
  constants : Options
}.

(** The constructor argument: a bare string, or an object with the
    properties [password], [keyPath] and [constants]. *)
Inductive Params : Type :=
  | PString (s : string)
  | PObject (password : value) (keyPath : option string)
            (constants : option Options).

Definition params_is_String (params : Params) : bool :=
  match params with PString _ => true | PObject _ _ _ => false end.

(** Property reads on the argument; a string has none of the three. *)
Definition params_password (params : Params) : value :=
  match params with PString _ => VUndef | PObject pw _ _ => pw end.
Definition params_keyPath (params : Params) : option string :=
  match params with PString _ => None | PObject _ kp _ => kp end.
Definition params_constants (params : Params) : option Options :=
  match params with PString _ => None | PObject _ _ c => c end.

(** Truthiness of an optional string property. *)
Definition truthy_path (o : option string) : bool :=
  match o with Some s => negb (String.eqb s "") | None => false end.

(** Methods run over the instance and the world. *)
Abbreviation Meth := (SE (KeyManager * World)).

(** Reading [this], assigning to its fields, and running a function of
    the module from inside a method. *)
Definition this : Meth KeyManager := λ s, (Ok (fst s), s).
Definition update_this (f : KeyManager → KeyManager) : Meth () :=
  λ s, (Ok (), (f (fst s), snd s)).
Definition world {A} (m : M A) : Meth A :=
  λ s, let '(res, w) := m (snd s) in (res, (fst s, w)).

Definition set_pk (v : value) (km : KeyManager) : KeyManager :=
  mkKeyManager v (sk km) (isLocked km) (password km) (keyStorage km) (constants km).
Definition set_sk (v : value) (km : KeyManager) : KeyManager :=
  mkKeyManager (pk km) v (isLocked km) (password km) (keyStorage km) (constants km).
Definition set_isLocked (b : bool) (km : KeyManager) : KeyManager :=
  mkKeyManager (pk km) (sk km) b (password km) (keyStorage km) (constants km).
Definition set_password (v : value) (km : KeyManager) : KeyManager :=
  mkKeyManager (pk km) (sk km) (isLocked km) v (keyStorage km) (constants km).
Definition set_keyStorage (v : value) (km : KeyManager) : KeyManager :=
  mkKeyManager (pk km) (sk km) (isLocked km) (password km) v (constants km).
Definition set_constants (c : Options) (km : KeyManager) : KeyManager :=
  mkKeyManager (pk km) (sk km) (isLocked km) (password km) (keyStorage km) c.

(** The instance before the constructor body runs: every field unset
    (an unset [#isLocked] is falsy). *)
Definition blank : KeyManager :=
  mkKeyManager VUndef VUndef false VUndef VUndef defaultOptions.

(** [fs.readFileSync(path)]: throws when there is no such file. *)
Definition fs_readFileSync (path : string) : M string :=
  λ w, match fs w !! path with
       | Some data => (Ok data, log (EvReadFile path) w)
       | None => (Throw (JsError ("ENOENT: no such file or directory, open '"
                                  +:+ path +:+ "'")),
                  log (EvReadFile path) w)
       end.

(** [fs.writeFileSync(path, data)]: throws where the OS refuses (a
    missing directory, say), otherwise creates or replaces the file. *)
Definition fs_writeFileSync (path data : string) : M () :=
  λ w, if decide (path ∈ unwritable w)
       then (Throw (JsError ("ENOENT: no such file or directory, open '"
                             +:+ path +:+ "'")),
             log (EvWriteFile path) w)
       else (Ok (),
             mkWorld (<[path := data]> (fs w)) (unwritable w) (now w) (seed w)
                     (calls w ++ [EvWriteFile path])).

(** [password !== stored] for a string [password]. *)
Definition differs_from (password : string) (stored : value) : bool :=
  match stored with
  | VStr s => negb (String.eqb password s)
  | _ => true
  end.

Section KeyManagerClass.
Context (R : Runtime).

(** Lines 341-348. *)
Definition initKeyStorage (keyStorage password : value) : Meth () :=
  publicKeyId ← world (of_result (get_prop keyStorage "publicKeyId"));
  update_this (set_pk publicKeyId);;
  update_this (set_isLocked false);;
  update_this (set_password password);;
  update_this (set_keyStorage keyStorage);;
  km ← this;
  if truthy (pk km) then
    key ← world (recover R password keyStorage (scrypt (constants km)));
    update_this (set_sk (VBuf key))
  else mret ().

(** Lines 350-353. *)
Definition generateKey (password : value) : Meth () :=
  km ← this;
  keyObject ← world (create R (constants km));
  keyStorage ← world (dump R password keyObject (constants km));
  initKeyStorage keyStorage password.

(** Lines 356-360. *)
Definition importFromFile (filepath : string) (password : value) : Meth () :=
  data ← world (fs_readFileSync filepath);
  keyStorage ← world (of_result (JSON_parse R data));
  initKeyStorage keyStorage password.

(** Lines 336-378, the constructor body. *)
Definition constructor (params : Params) : Meth () :=
  if negb (params_is_String params) && negb (truthy (params_password params))
  then throw (JsError "A password must be provided at initialization")
  else
    update_this (set_constants (default defaultOptions (params_constants params)));;
    initKeyStorage (VObj [("publicKeyId", VStr ""); ("crypto", VObj [])]) (VStr "");;
    if truthy_path (params_keyPath params) then
      try_catch
        (importFromFile (default "" (params_keyPath params)) (params_password params))
        (λ err, throw (JsError ("Error importing keyfile - " +:+ exn_toString err)))
    else
      match params with
      | PString s => generateKey (VStr s)
      | PObject pw _ _ => generateKey pw
      end.

(** [new KeyManager(params)]: the instance exists only if the body
    completes. *)
Definition new_KeyManager (params : Params) : M KeyManager :=
  λ w, match constructor params (blank, w) with
       | (Ok _, (km, w')) => (Ok km, w')
       | (Throw e, (_, w')) => (Throw e, w')
       end.

(** Lines 411-415. *)
Definition getKeyStorage : Meth value :=
  km ← this;
  if isLocked km
  then throw (JsError "Key manager is currently locked. Please unlock and try again.")
  else if negb (truthy (pk km))
  then throw (JsError "A key must be initialized before using this key manager")
  else mret (keyStorage km).

(** Lines 422-424. *)
Definition lockKey : Meth () :=
  update_this (set_isLocked true).

(** Lines 432-436. *)
Definition unlockKey (password' : string) : Meth () :=
  km ← this;
  if negb (isLocked km) then throw (JsError "The key is already unlocked")
  else if differs_from password' (password km) then throw (JsError "Invalid password")
  else update_this (set_isLocked false).

(** Lines 444-448. *)
Definition sign (message : string) : Meth bytes :=
  km ← this;
  if isLocked km
  then throw (JsError "The key is currently locked. Please unlock and try again.")
  else
    key ← world (of_result (str2buf R (sk km) None));
    msg ← world (of_result (str2buf R (VStr message) (Some "utf8")));
    nonce ← world (crypto_randomBytes R 64);
    world (of_result (curve25519_sign R key msg nonce)).

(** Lines 456-465. *)
Definition exportToFile (_keyPath : option string) : Meth string :=
  let keyPath := if truthy_path _keyPath then default "" _keyPath else "keyfiles" in
  km ← this;
  outfile ← world (generateKeystoreFilename (pk km));
  ks ← getKeyStorage;
  let json := JSON_stringify R ks in
  let outpath := path_join R keyPath outfile in
  world (fs_writeFileSync outpath json);;
  mret outpath.

End KeyManagerClass.

(** ** The callback forms (lines 202-204 and 298-300) *)

Section CallbackForms.
Context (R : Runtime).

(** Lines 182-204 with a callback: the key is derived on the spot and
    handed to [cb]; the function itself returns [undefined]. *)
Definition deriveKey_cb (password salt : value) (kdfParams : KdfParams)
    (cb : bytes → M value) : M value :=
  if negb (defined password) || negb (truthy salt)
  then throw (JsError "Must provide password and salt to derive a key")
  else
    password ← of_result (str2buf R password (Some "utf8"));
    salt ← of_result (str2buf R salt None);
    let maxmem := (2 * 128 * n kdfParams * r kdfParams)%N in
    derivedKey ← crypto_scryptSync R password salt (dkLen kdfParams)
      {| opt_N := n kdfParams; opt_r := r kdfParams;
         opt_p := p kdfParams; opt_maxmem := maxmem |};
    cb derivedKey;;
    mret VUndef.

(** Lines 270-300 with a callback. *)
Definition recover_cb (password keyStorage : value) (kdfParams : KdfParams)
    (cb : bytes → M value) : M value :=
  crypto ← of_result (get_prop keyStorage "crypto");
  cipherParams ← of_result (get_prop crypto "cipherParams");
  iv58 ← of_result (get_prop cipherParams "iv");
  iv ← of_result (str2buf R iv58 None);
  salt58 ← of_result (get_prop crypto "kdfSalt");
  salt ← of_result (str2buf R salt58 None);
  ct58 ← of_result (get_prop crypto "cipherText");
  ciphertext ← of_result (str2buf R ct58 None);
  mac58 ← of_result (get_prop crypto "mac");
  mac ← of_result (str2buf R mac58 None);
  algo ← of_result (get_prop crypto "cipher");
  deriveKey_cb password salt kdfParams (λ derivedKey,
    key ← verifyAndDecrypt R derivedKey iv ciphertext mac algo;
    cb key;;
    mret VUndef).

End CallbackForms.

(** ** The static method [verify] (lines 391-403) *)

Section StaticVerify.
Context (R : Runtime).
(** [curve25519.verify(publicKey, message, signature)] of [curve25519-js]. *)
Context (curve25519_verify : value → value → value → result bool).

(** Lines 391-399, without a callback. *)
Definition verify (publicKey : value) (message : string) (signature : value)
  : M bool :=
  pk ← of_result (str2buf R publicKey None);
  msg ← of_result (str2buf R (VStr message) (Some "utf8"));
  sig ← of_result (str2buf R signature None);
  of_result (curve25519_verify pk msg sig).

(** Lines 391-402, with a callback: the last line reads [sug], a name
    declared nowhere, and that throws before [curve25519.verify] or [cb]
    is called. *)
Definition verify_cb (publicKey : value) (message : string) (signature : value)
    (cb : bool → M value) : M value :=
  pk ← of_result (str2buf R publicKey None);
  msg ← of_result (str2buf R (VStr message) (Some "utf8"));
  sig ← of_result (str2buf R signature None);
  throw (JsThrown "ReferenceError: sug is not defined").

End StaticVerify.

(** ** Calling the public methods one after another *)

Inductive call : Type :=
  | GetKeyStorage
  | LockKey
  | UnlockKey (password : string)
  | Sign (message : string)
  | ExportToFile (_keyPath : option string).

#[global] Instance call_eq_dec : EqDecision call.
Proof. solve_decision. Defined.

(** One method call on the instance, with what it returns as a value. *)
Definition invoke (R : Runtime) (c : call) : Meth value :=
  match c with
  | GetKeyStorage => getKeyStorage
  | LockKey => lockKey;; mret VUndef
  | UnlockKey password => unlockKey password;; mret VUndef
  | Sign message => signature ← sign R message; mret (VBuf signature)
  | ExportToFile _keyPath => outpath ← exportToFile R _keyPath; mret (VStr outpath)
  end.

(** A caller that makes the calls in order and catches what each one
    throws: the outcomes, and the instance and world left at the end. *)
Fixpoint run_calls (R : Runtime) (cs : list call) (s : KeyManager * World)
  : list (result value) * (KeyManager * World) :=
  match cs with
  | [] => ([], s)
  | c :: rest =>
      let '(res, s1) := invoke R c s in
      let '(outcomes, s2) := run_calls R rest s1 in
      (res :: outcomes, s2)
  end.

(** ** [Requests] and [Brambl] ([src/modules/Requests.js] lines 76-98,
    [src/Brambl.js])

    Of [Requests] only the constructor is embedded; its arguments and
    the network prefix are strings, as documented.  The package
    [utils/address-utils.js] is not part of the sources: its three
    functions are parameters, free to throw and to act on the world.
    What the constructor prints to the console is not part of the
    world. *)

(** [a || b] for an optional string argument. *)
Definition or_default (a : option string) (b : string) : string :=
  if truthy_path a then default "" a else b.

(** A [Requests] instance: the three properties the constructor
    computes ([headers] repeats [apiKey]). *)
Record Requests : Type := mkRequests {
  req_networkPrefix : string;
  req_url : string;
  req_apiKey : string
}.

(** The argument of [new Brambl]: a bare string, or an object whose
    [KeyManager] and [Requests] properties, when present, are instances or
    configuration objects.  A [KeyManager] instance comes with the value
    of its [networkPrefix] property: the class sets none, so it is
    [undefined] unless the caller has assigned one. *)
Inductive KeyManagerArg : Type :=
  | KMInstance (km : KeyManager) (networkPrefix : value)
  | KMConfig (password : value) (keyPath : option string)
             (constants : option Options).

Inductive RequestsArg : Type :=
  | RInstance (r : Requests)
  | RConfig (url apiKey : option string).

Inductive BramblParams : Type :=
  | BString (s : string)
  | BObject (networkPrefix : option string) (password : value)
            (KeyManager : option KeyManagerArg) (Requests : option RequestsArg).

(** A [Brambl] instance. *)
Record Brambl : Type := mkBrambl {
  networkPrefix : string;        (* #networkPrefix *)
  requests : Requests;
  keyManager : KeyManager
}.

(** A prototype transaction, as [addSigToTx] reads it. *)
Record PrototypeTx : Type := mkPrototypeTx {
  rawTx : list (string * value);
  messageToSign : string
}.

(** [keyManagerVar.password = v]: on a configuration object it sets the
    property; on an instance it adds a property the class never reads. *)
Definition assign_password (v : value) (k : KeyManagerArg) : KeyManagerArg :=
  match k with
  | KMInstance km networkPrefix => KMInstance km networkPrefix
  | KMConfig _ keyPath constants => KMConfig v keyPath constants
  end.

(** The key manager instance [new Brambl] is given, if any, with its
    [networkPrefix]. *)
Definition given_instance (params : BramblParams) : option (KeyManager * value) :=
  match params with
  | BObject _ _ (Some (KMInstance km networkPrefix)) _ => Some (km, networkPrefix)
  | _ => None
  end.

(** [Object.fromEntries]: a later entry replaces an earlier one of the
    same name. *)
Definition Object_fromEntries (entries : list (string * value))
  : list (string * value) :=
  fold_left (λ o kv, set_prop (fst kv) (snd kv) o) entries [].

(** A method called on an instance other than [this]; it is used for
    [sign], which assigns to no field. *)
Definition on_instance {A} (m : Meth A) (km : KeyManager) : M A :=
  λ w, let '(res, s) := m (km, w) in (res, snd s).

Section BramblClass.
Context (R : Runtime).
Context (isValidNetwork : string → M bool).
Context (getValidNetworksList : M string).
Context (getUrlByNetwork : string → M string).

Definition invalid_prefix {A} : M A :=
  networks ← getValidNetworksList;
  throw (JsError ("Invalid Network Prefix. Must be one of: " +:+ networks)).

(** [src/modules/Requests.js], lines 76-98. *)
Definition new_Requests (networkPrefix url apiKey : option string) : M Requests :=
  let prefix := or_default networkPrefix "local" in
  valid ← (if negb (String.eqb prefix "local") then isValidNetwork prefix
           else mret true);
  if negb valid then invalid_prefix
  else
    url ← (if truthy_path url then mret (default "" url)
           else getUrlByNetwork prefix);
    mret (mkRequests prefix url (or_default apiKey "topl_the_world!")).

(** [src/Brambl.js], lines 64-115. *)
Definition new_Brambl (params : BramblParams) : M Brambl :=
  let keyManagerVar :=
    match params with
    | BObject _ _ (Some k) _ => k
    | _ => KMConfig VUndef None None
    end in
  let requestsVar :=
    match params with
    | BObject _ _ _ (Some r) => r
    | _ => RConfig None None
    end in
  let prefix :=
    match params with
    | BObject networkPrefix _ _ _ => or_default networkPrefix "local"
    | BString _ => "local"
    end in
  let keyManagerVar :=
    match params with
    | BString s => assign_password (VStr s) keyManagerVar
    | BObject _ _ _ _ => keyManagerVar
    end in
  let keyManagerVar :=
    match params with
    | BObject _ (VStr pw) _ _ =>
        if truthy (VStr pw) then assign_password (VStr pw) keyManagerVar
        else keyManagerVar
    | _ => keyManagerVar
    end in
  valid ← isValidNetwork prefix;
  if negb valid then invalid_prefix
  else
    requests ← match requestsVar with
               | RInstance r => mret r
               | RConfig url apiKey => new_Requests (Some prefix) url apiKey
               end;
    (* the key manager, and what [this.keyManager.networkPrefix] reads: the
       constructor of [KeyManager] ignores the [networkPrefix] it is passed,
       so a new instance has none *)
    keyManager ← match keyManagerVar with
                 | KMInstance km networkPrefix => mret (km, networkPrefix)
                 | KMConfig password keyPath constants =>
                     if negb (truthy password)
                     then throw (JsError
                            "An encryption password is required to open a keyfile")
                     else
                       km ← new_KeyManager R (PObject password keyPath constants);
                       mret (km, VUndef)
                 end;
    if negb (String.eqb prefix (req_networkPrefix requests))
       || differs_from prefix (snd keyManager)
    then throw (JsError
           "Incompatible network prefixes set for Requests and KeyManager Instances.")
    else mret (mkBrambl prefix requests (fst keyManager)).

(** Lines 190-192: one signature per key manager, in order. *)
Fixpoint sign_each (keys : list KeyManager) (txMsgToSign : string)
  : M (list (string * value)) :=
  match keys with
  | [] => mret []
  | key :: rest =>
      signature ← on_instance (sign R txMsgToSign) key;
      entries ← sign_each rest txMsgToSign;
      mret ((js_toString (pk key), VStr (Base58_encode R signature)) :: entries)
  end.

Definition genSig (keys : list KeyManager) (txMsgToSign : string) : M value :=
  entries ← sign_each keys txMsgToSign;
  mret (VObj (Object_fromEntries entries)).

(** Lines 188-201; a rejected promise is a throw.  [userKeys] is one key
    manager or an array of them. *)
Definition addSigToTx (prototypeTx : PrototypeTx)
    (userKeys : KeyManager + list KeyManager) : M value :=
  let keys := match userKeys with inl key => [key] | inr keys => keys end in
  signatures ← genSig keys (messageToSign prototypeTx);
  mret (VObj (set_prop "signatures" signatures (rawTx prototypeTx))).

End BramblClass.

(** ** Vocabulary of the statements *)

(** Every occurrence of one character replaced by another. *)
Fixpoint replace_char (from to : Ascii.ascii) (s : string) : string :=
  match s with
  | EmptyString => EmptyString
  | String c rest =>
      String (if Ascii.eqb c from then to else c) (replace_char from to rest)
  end.

(** The password a constructor argument carries. *)
Definition given_password (params : Params) : value :=
  match params with PString s => VStr s | PObject pw _ _ => pw end.

(** What [str2buf(message, "utf8")] hands to the signature function. *)
Definition message_arg (message : string) : value :=
  if String.eqb message "" then VStr "" else VBuf (Buffer_from_utf8 message).

(** The world after one call of [crypto.randomBytes(size)]. *)
Definition after_randomBytes (size : nat) (w : World) : World :=
  mkWorld (fs w) (unwritable w) (now w) (S (seed w))
          (calls w ++ [EvRandomBytes size]).


(** The names of an object's own properties. *)
Definition object_keys (v : value) : list string :=
  match v with VObj props => map fst props | _ => [] end.

(** Every property name occurring in a value, at any depth. *)
Fixpoint all_keys (v : value) : list string :=
  match v with
  | VObj props =>
      (fix go (l : list (string * value)) : list string :=
         match l with
         | [] => []
         | (k, x) :: rest => k :: all_keys x ++ go rest
         end) props
  | _ => []
  end.

(** The field list of the data model, as the specification gives it. *)
Definition KeystoreRecord_fields : list string :=
  ["publicKeyId"; "cipher"; "cipherText"; "cipherIv"; "mac"; "kdf"; "kdfSalt"].

(** The layout [marshal] builds: two top-level properties, the
    cryptographic material nested under [crypto], the IV one level
    further down. *)
Definition keystore (publicKeyId cipher cipherText iv mac kdf kdfSalt : value)
  : value :=
  VObj [ ("publicKeyId", publicKeyId);
         ("crypto", VObj [ ("cipher", cipher);
                           ("cipherText", cipherText);
                           ("cipherParams", VObj [("iv", iv)]);
                           ("mac", mac);
                           ("kdf", kdf);
                           ("kdfSalt", kdfSalt) ]) ].

(** [Base58.decode] undoes [Base58.encode] on [b], and only the empty
    Buffer is encoded as the empty string. *)
Definition b58_ok (R : Runtime) (b : bytes) : Prop :=
  Base58_decode R (Base58_encode R b) = Ok b
  ∧ (b ≠ [] → Base58_encode R b ≠ "").

(** Under [algo], [key] and [iv], deciphering [ct] gives back [pt]. *)
Definition deciphers (R : Runtime) (algo : string) (key iv pt ct : bytes) : Prop :=
  ∃ d, createDecipheriv R algo key iv = Ok d ∧ d ct = Ok pt.

(** No decipher was created among the logged calls. *)
Definition no_decipher (evs : list event) : Prop :=
  ∀ algo, EvDecipher algo ∉ evs.

(** A big-endian digit sequence in a base, without a leading zero. *)
Definition normal_digits (base : N) (ds : list N) : Prop :=
  Forall (λ d, (d < base)%N) ds ∧ head ds ≠ Some 0%N.

(** The key [crypto.scryptSync] derives for a password (read as the
    crypto functions read their arguments) and a salt. *)
Definition scrypt_of (R : Runtime) (password : value) (salt : bytes)
    (kdfParams : KdfParams) : result bytes :=
  match crypto_arg password with
  | Ok pw =>
      scryptSync R pw salt (dkLen kdfParams)
        {| opt_N := n kdfParams; opt_r := r kdfParams; opt_p := p kdfParams;
           opt_maxmem := (2 * 128 * n kdfParams * r kdfParams)%N |}
  | Throw e => Throw e
  end.

(** The message whose digest is the MAC. *)
Definition mac_input (derivedKey ciphertext : bytes) : bytes :=
  Buffer_slice 16 32 derivedKey ++ ciphertext.

(** A property of the record's [crypto] object. *)
Definition crypto_field (keyStorage : value) (name : string) : result value :=
  match get_prop keyStorage "crypto" with
  | Ok crypto => get_prop crypto name
  | Throw e => Throw e
  end.

(** A property of [crypto], read through [str2buf] as [recover] does. *)
Definition decoded_field (R : Runtime) (keyStorage : value) (name : string)
  : result value :=
  match crypto_field keyStorage name with
  | Ok v => str2buf R v None
  | Throw e => Throw e
  end.

(** The placeholder record the constructor installs first. *)
Definition empty_keyStorage : value :=
  VObj [("publicKeyId", VStr ""); ("crypto", VObj [])].

(** The instance once the constructor has set [constants] and installed
    the placeholder. *)
Definition initialised (c : Options) : KeyManager :=
  mkKeyManager (VStr "") VUndef false (VStr "") empty_keyStorage c.

(** What [#sk] can hold. *)
Definition key_or_undefined (v : value) : Prop :=
  v = VUndef ∨ ∃ key, v = VBuf key.

(** The guard of the constructor. *)
Definition password_missing (params : Params) : bool :=
  negb (params_is_String params) && negb (truthy (params_password params)).

(** The world after further outside calls, everything else as it was. *)
Definition extend (evs : list event) (w : World) : World :=
  mkWorld (fs w) (unwritable w) (now w) (seed w) (calls w ++ evs).

(** Calls to the crypto provider. *)
Definition is_crypto (e : event) : bool :=
  match e with
  | EvScrypt | EvKeccak | EvCipher _ | EvDecipher _ => true
  | EvRandomBytes _ | EvReadFile _ | EvWriteFile _ => false
  end.

(** A computation whose result and outside calls are the same in every
    world, which calls nothing but the crypto provider (no entropy, no
    file access) and leaves the rest of the world as it was. *)
Definition crypto_only {A} (m : M A) : Prop :=
  ∃ (res : result A) (evs : list event),
    forallb is_crypto evs = true ∧ ∀ w, m w = (res, extend evs w).

(** A value that stands for the bytes [b]: the Buffer itself, or its
    Base58 text where the codec reads it back. *)
Definition carries (R : Runtime) (v : value) (b : bytes) : Prop :=
  v = VBuf b ∨ (v = VStr (Base58_encode R b) ∧ b58_ok R b).

(** The characters of a string. *)
Definition chars (s : string) : list Ascii.ascii := String.list_ascii_of_string s.

(** The sizes [crypto.randomBytes] accepts: Node refuses to draw more
    than 2^31 - 1 bytes. *)
Definition drawable (size : nat) : Prop := (N.of_nat size ≤ 2 ^ 31 - 1)%N.

(** The integers a JavaScript number holds exactly. *)
Definition safe_integer (x : N) : Prop := (x ≤ 2 ^ 53)%N.

(** Key-derivation parameters for which the code's [2 * 128 * N * r],
    computed in floating point, is the exact product. *)
Definition maxmem_exact (kdfParams : KdfParams) : Prop :=
  safe_integer (n kdfParams) ∧ safe_integer (r kdfParams)
  ∧ safe_integer (2 * 128 * n kdfParams * r kdfParams).

(** ** A sample runtime

    An executable stand-in for the dependencies, used to run the module on
    concrete inputs.  Base58 is the real codec; JSON covers objects,
    strings and [null]; the hash, key-derivation, cipher and signature
    functions are small deterministic stand-ins with the interface (sizes,
    argument checks) of the real ones. *)

Module Sample.

Definition byte_of_N (x : N) : byte :=
  default x00%byte (Byte.of_N (x mod 256)).

Definition ascii_of_digit (alphabet : string) (d : N) : Ascii.ascii :=
  default "?"%char (String.get (N.to_nat d) alphabet).

Definition alphabet : string :=
  "123456789ABCDEFGHJKLMNPQRSTUVWXYZabcdefghijkmnopqrstuvwxyz".

(** Big-endian number of a digit sequence, and back. *)
Definition number (base : N) (digits : list N) : N :=
  fold_left (λ acc d, (acc * base + d)%N) digits 0%N.

Fixpoint digits_of (base : N) (fuel : nat) (x : N) (acc : list N) : list N :=
  match fuel with
  | O => acc
  | S fuel' =>
      if N.eqb x 0 then acc
      else digits_of base fuel' (x / base)%N ((x mod base)%N :: acc)
  end.

Fixpoint leading {A} (test : A → bool) (l : list A) : nat :=
  match l with
  | x :: rest => if test x then S (leading test rest) else 0
  | [] => 0
  end.

Definition is_zero (b : byte) : bool := N.eqb (Byte.to_N b) 0.

Definition Base58_encode (b : bytes) : string :=
  let zeros := leading is_zero b in
  let ds := digits_of 58 (2 * length b) (number 256 (map Byte.to_N b)) [] in
  String.string_of_list_ascii
    (replicate zeros "1"%char ++ map (ascii_of_digit alphabet) ds).

Definition digit_of_ascii (c : Ascii.ascii) : option N :=
  N.of_nat <$> String.index 0 (String c EmptyString) alphabet.

Fixpoint digits_of_string (s : list Ascii.ascii) : result (list N) :=
  match s with
  | [] => Ok []
  | c :: rest =>
      match digit_of_ascii c with
      | None => Throw (JsThrown ("Base58.decode received unacceptable input. Character '"
                                 +:+ String c EmptyString
                                 +:+ "' is not in the Base58 alphabet."))
      | Some d =>
          match digits_of_string rest with
          | Ok ds => Ok (d :: ds)
          | Throw e => Throw e
          end
      end
  end.

Definition Base58_decode (s : string) : result bytes :=
  let cs := String.list_ascii_of_string s in
  match digits_of_string cs with
  | Throw e => Throw e
  | Ok ds =>
      let ones := leading (Ascii.eqb "1"%char) cs in
      Ok (replicate ones x00%byte
          ++ map byte_of_N (digits_of 256 (length cs) (number 58 ds) []))
  end.

(** A position-dependent checksum producing [len] bytes: byte [i] is
    the sum over the input of [b_j * (j + i + 1)], plus [tag + 31 * i],
    modulo 256. *)
Definition mix (tag : N) (len : nat) (b : bytes) : bytes :=
  let total := fold_left (λ acc x, (acc + Byte.to_N x)%N) b 0%N in
  let moment :=
    fold_left (λ acc jx, (acc + N.of_nat (fst jx) * Byte.to_N (snd jx))%N)
              (imap (λ j x, (j, x)) b) 0%N in
  map (λ i, byte_of_N (tag + (moment + (N.of_nat i + 1) * total) + 31 * N.of_nat i))
      (seq 0 len).

Definition xor_byte (a b : byte) : byte :=
  byte_of_N (N.lxor (Byte.to_N a) (Byte.to_N b)).

(** A counter-mode stream cipher: the key stream depends on key, IV and
    position; encryption and decryption are the same XOR. *)
Definition stream (keylen : nat) (algo : string) (key iv : bytes)
  : result (bytes → result bytes) :=
  if negb (Nat.eqb (length key) keylen) then Throw (JsError "Invalid key length")
  else if negb (Nat.eqb (length iv) 16) then Throw (JsError "Invalid initialization vector")
  else Ok (λ data,
         Ok (imap (λ i x,
               xor_byte x (byte_of_N
                 (Byte.to_N (nth (i mod keylen) key x00%byte)
                  + Byte.to_N (nth (i mod 16) iv x00%byte)
                  + N.of_nat i))) data)).

Definition createCipheriv (algo : string) (key iv : bytes)
  : result (bytes → result bytes) :=
  if String.eqb algo "aes-256-ctr" then stream 32 algo key iv
  else if String.eqb algo "aes-128-ctr" then stream 16 algo key iv
  else Throw (JsError "Unknown cipher").

Definition scryptSync (pw salt : bytes) (keylen : N) (o : ScryptOptions)
  : result bytes :=
  if N.ltb (opt_maxmem o) (128 * opt_N o * opt_r o)
  then Throw (JsError "Invalid scrypt parameter")
  else Ok (mix (opt_N o + opt_r o + opt_p o) (N.to_nat keylen)
               (pw ++ x00%byte :: salt)).

Definition randomBytes (seed size : nat) : bytes :=
  map (λ i, byte_of_N (N.of_nat (seed * 97 + i * 13 + 5))) (seq 0 size).

Definition generateKeyPair (seed : bytes) : bytes * bytes :=
  let private := mix 3 32 seed in (mix 4 32 private, private).

Definition curve25519_sign (secretKey msg : value) (rnd : bytes) : result bytes :=
  match secretKey, msg with
  | VBuf k, VBuf m =>
      if negb (Nat.eqb (length k) 32) then Throw (JsError "wrong secret key length")
      else if negb (Nat.eqb (length rnd) 64) then Throw (JsError "wrong random data length")
      else Ok (mix 5 64 (k ++ m ++ rnd))
  | _, _ => Throw (JsTypeError "unexpected type, use Uint8Array")
  end.

(** The double quote. *)
Definition dq : Ascii.ascii := Ascii.ascii_of_nat 34.

Fixpoint escape (s : string) : string :=
  match s with
  | EmptyString => EmptyString
  | String c rest =>
      if Ascii.eqb c dq || Ascii.eqb c "\"%char
      then String "\"%char (String c (escape rest))
      else String c (escape rest)
  end.

Definition quote (s : string) : string :=
  String dq (escape s) +:+ String dq EmptyString.

Fixpoint JSON_stringify (v : value) : string :=
  match v with
  | VUndef => "undefined"
  | VNull => "null"
  | VStr s => quote s
  | VBuf b =>
      "{" +:+ quote "type" +:+ ":" +:+ quote "Buffer" +:+ ","
          +:+ quote "data" +:+ ":["
          +:+ join "," (map (λ x, pretty (Byte.to_N x)) b) +:+ "]}"
  | VObj props =>
      let members :=
        (fix members (l : list (string * value)) : list string :=
           match l with
           | [] => []
           | (k, VUndef) :: rest => members rest
           | (k, x) :: rest => (quote k +:+ ":" +:+ JSON_stringify x) :: members rest
           end) props in
      "{" +:+ join "," members +:+ "}"
  end.

Fixpoint skip_ws (s : string) : string :=
  match s with
  | String c rest =>
      if Ascii.eqb c " "%char || Ascii.eqb c (Ascii.ascii_of_nat 10)
      then skip_ws rest else s
  | EmptyString => s
  end.

(** The rest of a string literal, after its opening quote. *)
Fixpoint parse_string (s : string) : option (string * string) :=
  match s with
  | EmptyString => None
  | String c rest =>
      if Ascii.eqb c dq then Some (EmptyString, rest)
      else if Ascii.eqb c "\"%char then
        match rest with
        | String e rest' =>
            match parse_string rest' with
            | Some (body, tail) => Some (String e body, tail)
            | None => None
            end
        | EmptyString => None
        end
      else
        match parse_string rest with
        | Some (body, tail) => Some (String c body, tail)
        | None => None
        end
  end.

Fixpoint parse_value (fuel : nat) (s : string) : option (value * string) :=
  match fuel with
  | O => None
  | S fuel' =>
      match skip_ws s with
      | String c rest =>
          if Ascii.eqb c dq then
            match parse_string rest with
            | Some (body, tail) => Some (VStr body, tail)
            | None => None
            end
          else if Ascii.eqb c "{"%char then
            match skip_ws rest with
            | String "}"%char tail => Some (VObj [], tail)
            | _ => parse_members fuel' rest []
            end
          else if String.prefix "null" (String c rest)
          then Some (VNull, String.substring 4 (String.length rest) (String c rest))
          else None
      | EmptyString => None
      end
  end
with parse_members (fuel : nat) (s : string) (acc : list (string * value))
  : option (value * string) :=
  match fuel with
  | O => None
  | S fuel' =>
      match skip_ws s with
      | String c rest =>
          if Ascii.eqb c dq then
            match parse_string rest with
            | Some (k, after_key) =>
                match skip_ws after_key with
                | String ":"%char after_colon =>
                    match parse_value fuel' after_colon with
                    | Some (v, after_value) =>
                        match skip_ws after_value with
                        | String ","%char more =>
                            parse_members fuel' more (acc ++ [(k, v)])
                        | String "}"%char tail => Some (VObj (acc ++ [(k, v)]), tail)
                        | _ => None
                        end
                    | None => None
                    end
                | _ => None
                end
            | None => None
            end
          else None
      | EmptyString => None
      end
  end.

Definition JSON_parse (s : string) : result value :=
  match parse_value (S (String.length s)) s with
  | Some (v, rest) =>
      match skip_ws rest with
      | EmptyString => Ok v
      | _ => Throw (JsSyntaxError "Unexpected token in JSON")
      end
  | None => Throw (JsSyntaxError "Unexpected token in JSON")
  end.

Definition runtime : Runtime :=
  mkRuntime Base58_encode Base58_decode
            ["aes-128-ctr"; "aes-256-ctr"] createCipheriv createCipheriv
            scryptSync randomBytes
            (mix 1 32) (mix 2 32)
            generateKeyPair curve25519_sign
            JSON_stringify JSON_parse
            (λ dir file, dir +:+ "/" +:+ file).

(** A world with an empty file system whose clock reads 10:00 UTC on
    3 April 2020. *)
Definition world0 : World :=
  mkWorld ∅ ∅ "2020-04-03T10:00:00.000Z" 0 [].

(** The key object [create] returns first in [world0], the world
    after it, and the key derived from the password "correct-horse". *)
Definition keyObject0 : KeyObject :=
  Eval vm_compute in
  match fst (create runtime defaultOptions world0) return KeyObject with
  | Ok keyObject => keyObject
  | Throw _ => mkKeyObject [] [] [] []
  end.

Definition derivedKey0 : bytes :=
  Eval vm_compute in
  match fst (deriveKey runtime (VStr "correct-horse") (VBuf (salt keyObject0))
               (scrypt defaultOptions) world0) return bytes with
  | Ok derivedKey => derivedKey
  | Throw _ => []
  end.

Definition ciphertext0 : bytes :=
  Eval vm_compute in
  match fst (encrypt runtime (VBuf (privateKey keyObject0)) (VBuf derivedKey0)
               (VBuf (iv keyObject0)) (VStr "aes-256-ctr") world0)
        return bytes with
  | Ok ciphertext => ciphertext
  | Throw _ => []
  end.

(** The instance [new KeyManager("correct-horse")] returns in [world0],
    and the world it leaves. *)
Definition manager0 : KeyManager :=
  Eval vm_compute in
  match fst (new_KeyManager runtime (PString "correct-horse") world0)
        return KeyManager with
  | Ok km => km
  | Throw _ => blank
  end.

Definition world1 : World :=
  Eval vm_compute in
  snd (new_KeyManager runtime (PString "correct-horse") world0).

(** The world after [manager0] exported its record to the default
    directory. *)
Definition world2 : World :=
  Eval vm_compute in
  snd (snd (exportToFile runtime None (manager0, world1))).

Definition exported_path : string :=
  "keyfiles/2020-04-03T10-00-00.000Z-AyGujnudxezLvSzPdKWQbALtvpj3BS2Yv4bY2snvh3qE.json".

(** A world holding one keystore file: the sample record with its
    [publicKeyId] emptied and one byte of its MAC changed. *)
Definition unkeyed_record : value :=
  Eval vm_compute in
  keystore (VStr "")
           (VStr "aes-256-ctr")
           (VStr (Base58_encode ciphertext0))
           (VStr (Base58_encode (iv keyObject0)))
           (VStr (Base58_encode
                    (<[3 := "!"%byte]> (mix 1 32 (mac_input derivedKey0 ciphertext0)))))
           (VStr "scrypt")
           (VStr (Base58_encode (salt keyObject0))).

Definition world_unkeyed : World :=
  Eval vm_compute in
  mkWorld {[ "key.json" := JSON_stringify unkeyed_record ]} ∅
          "2020-04-03T10:00:00.000Z" 0 [].

(** The key derived from "correct-horse" and the empty salt, and the
    record [marshal] makes of the sample key object with them. *)
Definition derivedKey_unsalted : bytes :=
  Eval vm_compute in
  match fst (deriveKey runtime (VStr "correct-horse") (VBuf [])
               (scrypt defaultOptions) world0) return bytes with
  | Ok derivedKey => derivedKey
  | Throw _ => []
  end.

Definition record_unsalted : value :=
  Eval vm_compute in
  match fst (marshal runtime derivedKey_unsalted keyObject0 [] (iv keyObject0)
               "aes-256-ctr" world0) return value with
  | Ok keyStorage => keyStorage
  | Throw _ => VUndef
  end.

(** The sample key object with an empty private key. *)
Definition keyObject_empty : KeyObject :=
  Eval vm_compute in
  mkKeyObject (publicKey keyObject0) [] (iv keyObject0) (salt keyObject0).

Definition record_empty_key : value :=
  Eval vm_compute in
  match fst (marshal runtime derivedKey0 keyObject_empty (salt keyObject0)
               (iv keyObject0) "aes-256-ctr" world0) return value with
  | Ok keyStorage => keyStorage
  | Throw _ => VUndef
  end.

(** The sample record with its [mac] replaced by the empty string. *)
Definition record_without_mac : value :=
  Eval vm_compute in
  keystore (VStr (Base58_encode (publicKey keyObject0)))
           (VStr "aes-256-ctr")
           (VStr (Base58_encode ciphertext0))
           (VStr (Base58_encode (iv keyObject0)))
           (VStr "")
           (VStr "scrypt")
           (VStr (Base58_encode (salt keyObject0))).

(** An unlocked instance whose public key id is the empty string, as
    import from [world_unkeyed] returns it. *)
Definition unkeyed_manager : KeyManager :=
  mkKeyManager (VStr "") VUndef false (VStr "correct-horse") unkeyed_record
               defaultOptions.

End Sample.

(** ** More sample data *)

Module Cases.

(** The world after [create] ran once in [Sample.world0]. *)
Definition world_created : World :=
  Eval vm_compute in snd (create Sample.runtime defaultOptions Sample.world0).

(** Key-derivation parameters that ask for a 16-byte key, with the key
    derived under them from "correct-horse" and from "wrong-horse", the
    sample private key encrypted under the first with [aes-128-ctr], and
    what the decipher makes of that ciphertext under the second. *)
Definition kdf16 : KdfParams := {| dkLen := 16; n := 262144; r := 8; p := 1 |}.

Definition derivedKey16 : bytes :=
  Eval vm_compute in
  match scrypt_of Sample.runtime (VStr "correct-horse") (salt Sample.keyObject0) kdf16
        return bytes with
  | Ok derivedKey => derivedKey
  | Throw _ => []
  end.

Definition wrongKey16 : bytes :=
  Eval vm_compute in
  match scrypt_of Sample.runtime (VStr "wrong-horse") (salt Sample.keyObject0) kdf16
        return bytes with
  | Ok derivedKey => derivedKey
  | Throw _ => []
  end.

Definition ciphertext16 : bytes :=
  Eval vm_compute in
  match fst (encrypt Sample.runtime (VBuf (privateKey Sample.keyObject0))
               (VBuf derivedKey16) (VBuf (iv Sample.keyObject0))
               (VStr "aes-128-ctr") Sample.world0) return bytes with
  | Ok ciphertext => ciphertext
  | Throw _ => []
  end.

Definition record16 : value :=
  Eval vm_compute in
  match fst (marshal Sample.runtime derivedKey16 Sample.keyObject0
               (salt Sample.keyObject0) (iv Sample.keyObject0) "aes-128-ctr"
               Sample.world0) return value with
  | Ok keyStorage => keyStorage
  | Throw _ => VUndef
  end.

Definition wrongly_recovered16 : bytes :=
  Eval vm_compute in
  match fst (recover Sample.runtime (VStr "wrong-horse") record16 kdf16 Sample.world0)
        return bytes with
  | Ok key => key
  | Throw _ => []
  end.

(** Constants whose [kdfParams] differ from their [scrypt], with the key
    derived under [kdfParams] and the sample private key encrypted under
    it. *)
Definition kdf_light : KdfParams := {| dkLen := 32; n := 1024; r := 4; p := 1 |}.

Definition options_kdfParams : Options :=
  {| cipher := "aes-256-ctr";
     ivBytes := 16;
     keyBytes := 32;
     scrypt := {| dkLen := 32; n := 262144; r := 8; p := 1 |};
     kdfParams := Some kdf_light |}.

Definition derivedKey_light : bytes :=
  Eval vm_compute in
  match scrypt_of Sample.runtime (VStr "correct-horse") (salt Sample.keyObject0)
          kdf_light return bytes with
  | Ok derivedKey => derivedKey
  | Throw _ => []
  end.

Definition ciphertext_light : bytes :=
  Eval vm_compute in
  match fst (encrypt Sample.runtime (VBuf (privateKey Sample.keyObject0))
               (VBuf derivedKey_light) (VBuf (iv Sample.keyObject0))
               (VStr "aes-256-ctr") Sample.world0) return bytes with
  | Ok ciphertext => ciphertext
  | Throw _ => []
  end.

(** The signature of "hello" by the sample instance in [Sample.world1]. *)
Definition signature0 : bytes :=
  Eval vm_compute in
  match fst (sign Sample.runtime "hello" (Sample.manager0, Sample.world1))
        return bytes with
  | Ok signature => signature
  | Throw _ => []
  end.

(** A stand-in for [curve25519.verify] with the argument checks of the
    real one: it accepts 64-byte signatures under 32-byte public keys. *)
Definition curve25519_verify (publicKey message signature : value) : result bool :=
  match publicKey, signature with
  | VBuf k, VBuf s => Ok (Nat.eqb (length k) 32 && Nat.eqb (length s) 64)
  | _, _ => Throw (JsTypeError "unexpected type, use Uint8Array")
  end.

(** The sample instance, locked, and a run of calls on it. *)
Definition locked0 : KeyManager :=
  Eval vm_compute in set_isLocked true Sample.manager0.

Definition calls0 : list call :=
  [ Sign "hello"; UnlockKey "wrong-horse"; GetKeyStorage; ExportToFile None;
    LockKey; UnlockKey ""; Sign "hello" ].

(** Stand-ins for the address utilities, and a [Requests] instance for
    the prefix "local". *)
Definition isValidNetwork (networkPrefix : string) : M bool :=
  mret (bool_decide (networkPrefix ∈ ["local"; "private"; "toplnet"; "valhalla"])).

Definition getValidNetworksList : M string :=
  mret "local,private,toplnet,valhalla".

Definition getUrlByNetwork (networkPrefix : string) : M string :=
  mret ("http://" +:+ networkPrefix +:+ ".example:9085").

Definition requests0 : Requests :=
  {| req_networkPrefix := "local";
     req_url := "http://localhost:9085";
     req_apiKey := "topl_the_world!" |}.

(** A prototype transaction whose message is "hello". *)
Definition prototypeTx0 : PrototypeTx :=
  {| rawTx := [("txType", VStr "PolyTransfer"); ("fee", VStr "0")];
     messageToSign := "hello" |}.

End Cases.

(** ** Stepping through computations *)

Lemma bind_Ok {S A B} (m : SE S A) (k : A → SE S B) s a s' :
  m s = (Ok a, s') → (m ≫= k) s = k a s'.
Proof. intros H. unfold mbind, SE_bind. now rewrite H. Qed.

Lemma bind_Throw {S A B} (m : SE S A) (k : A → SE S B) s e s' :
  m s = (Throw e, s') → (m ≫= k) s = (Throw e, s').
Proof. intros H. unfold mbind, SE_bind. now rewrite H. Qed.

Lemma bind_inv {S A B} (m : SE S A) (k : A → SE S B) s res s2 :
  (m ≫= k) s = (res, s2) →
  (∃ a s1, m s = (Ok a, s1) ∧ k a s1 = (res, s2))
  ∨ (∃ e, m s = (Throw e, s2) ∧ res = Throw e).
Proof.
  unfold mbind, SE_bind. destruct (m s) as [[a|e] s1]; intros H.
  - left. eauto.
  - right. inversion H; subst. eauto.
Qed.

#[global] Arguments str2buf : simpl never.
#[global] Arguments encrypt : simpl never.
#[global] Arguments decrypt : simpl never.
#[global] Arguments getMAC : simpl never.
#[global] Arguments create : simpl never.
#[global] Arguments deriveKey : simpl never.
#[global] Arguments marshal : simpl never.
#[global] Arguments dump : simpl never.
#[global] Arguments verifyAndDecrypt : simpl never.
#[global] Arguments recover : simpl never.
#[global] Arguments generateKeystoreFilename : simpl never.
#[global] Arguments fs_readFileSync : simpl never.
#[global] Arguments fs_writeFileSync : simpl never.
#[global] Arguments initKeyStorage : simpl never.
#[global] Arguments generateKey : simpl never.
#[global] Arguments importFromFile : simpl never.
#[global] Arguments crypto_randomBytes : simpl never.

Ltac run :=
  unfold mbind, mret, SE_bind, SE_ret, of_result, throw, emit, try_catch,
         world, this, update_this; simpl.

(** ** Locking and unlocking *)

(** C9. [lockKey] completes on every instance, in every world: it leaves
    the instance locked, every other field (public key, private key,
    password, keystore record, constants) as it was, and the world
    untouched. *)
Theorem lockKey_total_frame (km : KeyManager) (w : World) :
  ∃ km', lockKey (km, w) = (Ok (), (km', w))
         ∧ isLocked km' = true
         ∧ pk km' = pk km
         ∧ sk km' = sk km
         ∧ password km' = password km
         ∧ keyStorage km' = keyStorage km
         ∧ constants km' = constants km.
Proof.
  exists (set_isLocked true km). unfold lockKey. run. repeat split; reflexivity.
Qed.

Lemma differs_from_false (attempt : string) (stored : value) :
  differs_from attempt stored = false ↔ stored = VStr attempt.
Proof.
  destruct stored as [| |s| |]; simpl; try (split; [discriminate|discriminate]).
  destruct (String.eqb_spec attempt s) as [->|Hne]; simpl.
  - split; reflexivity.
  - split; [discriminate|]. intros [=]. congruence.
Qed.

Lemma differs_from_true (attempt : string) (stored : value) :
  differs_from attempt stored = true ↔ stored ≠ VStr attempt.
Proof.
  rewrite <- differs_from_false. destruct (differs_from attempt stored).
  - split; [discriminate|reflexivity].
  - split; [discriminate|]. intros H. now contradiction H.
Qed.

Lemma unlockKey_eq (attempt : string) (km : KeyManager) (w : World) :
  unlockKey attempt (km, w)
  = if isLocked km then
      if differs_from attempt (password km)
      then (Throw (JsError "Invalid password"), (km, w))
      else (Ok (), (set_isLocked false km, w))
    else (Throw (JsError "The key is already unlocked"), (km, w)).
Proof.
  unfold unlockKey. run. destruct (isLocked km); simpl; [|reflexivity].
  now destruct (differs_from attempt (password km)).
Qed.

(** C4. On a locked instance [unlockKey] unlocks exactly when the attempt
    is the string held in [#password] (the one captured when the
    instance was built); any other attempt throws "Invalid password" and
    the instance stays locked.  On an unlocked instance it throws "The
    key is already unlocked" whatever the attempt.  A throw changes
    nothing. *)
Theorem unlockKey_semantics (km : KeyManager) (w : World) (attempt : string) :
  (isLocked km = true → password km = VStr attempt →
     unlockKey attempt (km, w) = (Ok (), (set_isLocked false km, w))
     ∧ isLocked (set_isLocked false km) = false)
  ∧ (isLocked km = true → password km ≠ VStr attempt →
       unlockKey attempt (km, w) = (Throw (JsError "Invalid password"), (km, w)))
  ∧ (isLocked km = false →
       unlockKey attempt (km, w)
       = (Throw (JsError "The key is already unlocked"), (km, w))).
Proof.
  rewrite unlockKey_eq. split; [|split].
  - intros Hl Hpw. apply differs_from_false in Hpw. now rewrite Hl, Hpw.
  - intros Hl Hpw. apply differs_from_true in Hpw. now rewrite Hl, Hpw.
  - intros Hl. now rewrite Hl.
Qed.

(** ** The message authentication code *)

Lemma Buffer_slice_length (start stop : nat) (b : bytes) :
  stop ≤ length b → length (Buffer_slice start stop b) = stop - start.
Proof.
  intros H. unfold Buffer_slice. rewrite length_take, length_drop. lia.
Qed.

Lemma Buffer_slice_lookup (start stop : nat) (b : bytes) (i : nat) :
  i < stop - start → Buffer_slice start stop b !! i = b !! (start + i).
Proof.
  intros H. unfold Buffer_slice. rewrite lookup_take_lt by exact H.
  apply lookup_drop.
Qed.

Lemma getMAC_Buffers (R : Runtime) (derivedKey ciphertext : bytes) (w : World) :
  getMAC R (VBuf derivedKey) (VBuf ciphertext) w
  = (Ok (VBuf (keccak256 R (mac_input derivedKey ciphertext))), log EvKeccak w).
Proof. unfold getMAC. run. now rewrite app_nil_r. Qed.

(** C6. For a derived key of at least 32 bytes and any ciphertext,
    [getMAC] returns the Keccak-256 digest of a message made of the 16
    bytes at positions 16 to 31 of the derived key followed by the
    ciphertext; computing it is the only outside call. *)
Theorem getMAC_definition (R : Runtime) (derivedKey ciphertext : bytes) (w : World) :
  32 ≤ length derivedKey →
  ∃ half : bytes,
    length half = 16
    ∧ (∀ i, i < 16 → half !! i = derivedKey !! (16 + i))
    ∧ getMAC R (VBuf derivedKey) (VBuf ciphertext) w
      = (Ok (VBuf (keccak256 R (half ++ ciphertext))), log EvKeccak w).
Proof.
  intros Hlen. exists (Buffer_slice 16 32 derivedKey). split; [|split].
  - now rewrite Buffer_slice_length.
  - intros i Hi. now apply Buffer_slice_lookup.
  - apply getMAC_Buffers.
Qed.

(** ** Keystore file names and export *)

Lemma split_nonempty (sep : Ascii.ascii) (s : string) : split sep s ≠ [].
Proof.
  destruct s as [|c rest]; simpl; [discriminate|].
  destruct (Ascii.eqb c sep); [discriminate|].
  destruct (split sep rest); discriminate.
Qed.

Lemma join_cons_char (glue : string) (c : Ascii.ascii) (h : string) (t : list string) :
  join glue (String c h :: t) = String c (join glue (h :: t)).
Proof. destruct t; reflexivity. Qed.

Lemma join_split (from to : Ascii.ascii) (s : string) :
  join (String to EmptyString) (split from s) = replace_char from to s.
Proof.
  induction s as [|c rest IH]; simpl; [reflexivity|].
  destruct (Ascii.eqb c from).
  - destruct (split from rest) as [|h t] eqn:E.
    + now destruct (split_nonempty from rest).
    + simpl in IH |- *. now rewrite <- IH.
  - destruct (split from rest) as [|h t] eqn:E.
    + now destruct (split_nonempty from rest).
    + rewrite join_cons_char. now rewrite IH.
Qed.

Lemma generateKeystoreFilename_string (publicKeyId : string) (w : World) :
  generateKeystoreFilename (VStr publicKeyId) w
  = (Ok (replace_char ":" "-" (now w +:+ "-" +:+ publicKeyId +:+ ".json")), w).
Proof.
  unfold generateKeystoreFilename. simpl.
  now rewrite (join_split ":" "-").
Qed.

Lemma exportToFile_frame (R : Runtime) (_keyPath : option string)
    (km : KeyManager) (w : World) :
  fst (snd (exportToFile R _keyPath (km, w))) = km.
Proof.
  unfold exportToFile, getKeyStorage. run.
  destruct (generateKeystoreFilename (pk km) w) as [[outfile|e] w1]; simpl; [|reflexivity].
  destruct (isLocked km); simpl; [reflexivity|].
  destruct (truthy (pk km)); simpl; [|reflexivity].
  destruct (fs_writeFileSync _ _ w1) as [[u|e] w2]; reflexivity.
Qed.

Lemma truthy_VStr (s : string) : s ≠ "" → truthy (VStr s) = true.
Proof.
  intros H. simpl. destruct (String.eqb_spec s ""); [contradiction|reflexivity].
Qed.



(** ** The keystore codec *)

Lemma str2buf_Buffer (R : Runtime) (b : bytes) (enc : option string) :
  str2buf R (VBuf b) enc = Ok (VBuf b).
Proof. reflexivity. Qed.

Lemma str2buf_encoded (R : Runtime) (b : bytes) :
  b58_ok R b → b ≠ [] → str2buf R (VStr (Base58_encode R b)) None = Ok (VBuf b).
Proof.
  intros [Hdec Hne] Hb. unfold str2buf.
  destruct (String.eqb_spec (Base58_encode R b) "") as [E|_].
  - now destruct (Hne Hb).
  - now rewrite Hdec.
Qed.

(** An encoded Buffer read back through [str2buf] reaches the crypto
    functions with its original bytes, also when it is empty. *)
Lemma str2buf_encoded_arg (R : Runtime) (b : bytes) :
  b58_ok R b →
  ∃ v, str2buf R (VStr (Base58_encode R b)) None = Ok v
       ∧ crypto_arg v = Ok b
       ∧ (∀ enc, str2buf R v enc = Ok v).
Proof.
  intros Hok. destruct b as [|x b].
  - unfold str2buf. destruct (String.eqb_spec (Base58_encode R []) "") as [E|_].
    + exists (VStr (Base58_encode R [])). rewrite E. repeat split.
    + destruct Hok as [Hdec _]. rewrite Hdec. exists (VBuf []). repeat split.
  - exists (VBuf (x :: b)). split; [now apply str2buf_encoded|]. repeat split.
Qed.

Lemma isCipherAvailable_string (R : Runtime) (algo : string) :
  isCipherAvailable R (VStr algo)
  = existsb (λ name, String.eqb name algo) (getCiphers R).
Proof. reflexivity. Qed.

Lemma encrypt_Buffers (R : Runtime) (pt key iv : bytes) (algo : string) (w : World) :
  encrypt R (VBuf pt) (VBuf key) (VBuf iv) (VStr algo) w
  = if isCipherAvailable R (VStr algo) then
      match createCipheriv R algo key iv with
      | Ok c => (c pt, log (EvCipher algo) w)
      | Throw e => (Throw e, log (EvCipher algo) w)
      end
    else (Throw (JsError (algo +:+ " is not available")), w).
Proof.
  unfold encrypt. destruct (isCipherAvailable R (VStr algo)); simpl; [|reflexivity].
  unfold crypto_createCipheriv, update_final. run.
  destruct (createCipheriv R algo key iv) as [c|e]; [|reflexivity].
  now destruct (c pt).
Qed.

Lemma decrypt_args (R : Runtime) (ct key iv : bytes) (ivv : value)
    (algo : string) (w : World) :
  crypto_arg ivv = Ok iv →
  (∀ enc, str2buf R ivv enc = Ok ivv) →
  decrypt R (VBuf ct) (VBuf key) ivv (VStr algo) w
  = if isCipherAvailable R (VStr algo) then
      match createDecipheriv R algo key iv with
      | Ok d => (d ct, log (EvDecipher algo) w)
      | Throw e => (Throw e, log (EvDecipher algo) w)
      end
    else (Throw (JsError (algo +:+ " is not available")), w).
Proof.
  intros Harg Hid.
  unfold decrypt. destruct (isCipherAvailable R (VStr algo)); simpl; [|reflexivity].
  unfold crypto_createDecipheriv, update_final. run. rewrite Hid, Harg. simpl.
  destruct (createDecipheriv R algo key iv) as [d|e]; [|reflexivity].
  now destruct (d ct).
Qed.

Lemma deriveKey_Buffer_salt (R : Runtime) (pw : value) (salt : bytes)
    (kdfParams : KdfParams) (w : World) :
  deriveKey R pw (VBuf salt) kdfParams w
  = if defined pw then (scrypt_of R pw salt kdfParams, log EvScrypt w)
    else (Throw (JsError "Must provide password and salt to derive a key"), w).
Proof.
  unfold deriveKey, scrypt_of.
  destruct pw as [| |s| |]; simpl; try reflexivity.
  unfold crypto_scryptSync, str2buf.
  destruct (String.eqb s ""); run; now destruct (scryptSync R _ _ _ _).
Qed.

Lemma marshal_eq (R : Runtime) (derivedKey : bytes) (keyObject : KeyObject)
    (salt iv : bytes) (algo : string) (w : World) :
  marshal R derivedKey keyObject salt iv algo w
  = match encrypt R (VBuf (privateKey keyObject)) (VBuf derivedKey) (VBuf iv)
                  (VStr algo) w with
    | (Ok ciphertext, w1) =>
        (Ok (keystore
               (VStr (Base58_encode R (publicKey keyObject)))
               (VStr algo)
               (VStr (Base58_encode R ciphertext))
               (VStr (Base58_encode R iv))
               (VStr (Base58_encode R (keccak256 R (mac_input derivedKey ciphertext))))
               (VStr "scrypt")
               (VStr (Base58_encode R salt))),
         log EvKeccak w1)
    | (Throw e, w1) => (Throw e, w1)
    end.
Proof.
  unfold marshal. unfold mbind at 1, SE_bind at 1.
  destruct (encrypt R _ _ _ _ w) as [[ct|e] w1]; [|reflexivity].
  unfold mbind at 1, SE_bind at 1. rewrite getMAC_Buffers. reflexivity.
Qed.

(** ** Construction *)

Lemma initKeyStorage_eq (R : Runtime) (keyStorage password : value)
    (km : KeyManager) (w : World) :
  initKeyStorage R keyStorage password (km, w)
  = match get_prop keyStorage "publicKeyId" with
    | Throw e => (Throw e, (km, w))
    | Ok publicKeyId =>
        let km1 := mkKeyManager publicKeyId (sk km) false password keyStorage
                                (constants km) in
        if truthy publicKeyId then
          match recover R password keyStorage (scrypt (constants km)) w with
          | (Ok key, w') => (Ok (), (set_sk (VBuf key) km1, w'))
          | (Throw e, w') => (Throw e, (km1, w'))
          end
        else (Ok (), (km1, w))
    end.
Proof.
  unfold initKeyStorage. run.
  destruct (get_prop keyStorage "publicKeyId") as [v|e]; simpl; [|reflexivity].
  destruct (truthy v); simpl; [|reflexivity].
  now destruct (recover R password keyStorage (scrypt (constants km)) w) as [[key|e] w'].
Qed.

(** What [initKeyStorage] leaves behind when it completes. *)
Lemma initKeyStorage_Ok (R : Runtime) (ks pw : value)
    (km km' : KeyManager) (w w' : World) (u : ()) :
  initKeyStorage R ks pw (km, w) = (Ok u, (km', w')) →
  isLocked km' = false
  ∧ password km' = pw
  ∧ keyStorage km' = ks
  ∧ constants km' = constants km
  ∧ get_prop ks "publicKeyId" = Ok (pk km')
  ∧ (if truthy (pk km')
     then ∃ key, sk km' = VBuf key
                 ∧ recover R pw ks (scrypt (constants km)) w = (Ok key, w')
     else sk km' = sk km ∧ w' = w).
Proof.
  rewrite initKeyStorage_eq.
  destruct (get_prop ks "publicKeyId") as [v|e]; [|discriminate].
  simpl. destruct (truthy v) eqn:Hv.
  - destruct (recover R pw ks (scrypt (constants km)) w) as [[key|e] w1]; [|discriminate].
    intros H. inversion H; subst; clear H. simpl. rewrite Hv.
    repeat split. exists key. split; reflexivity.
  - intros H. inversion H; subst; clear H. simpl. rewrite Hv. repeat split.
Qed.

Lemma constructor_prelude (R : Runtime) (c : Options) (w : World) :
  initKeyStorage R empty_keyStorage (VStr "") (set_constants c blank, w)
  = (Ok (), (initialised c, w)).
Proof. rewrite initKeyStorage_eq. reflexivity. Qed.

(** [new KeyManager(params)], branch by branch. *)
Lemma new_KeyManager_eq (R : Runtime) (params : Params) (w : World) :
  new_KeyManager R params w
  = if password_missing params
    then (Throw (JsError "A password must be provided at initialization"), w)
    else
      let c := default defaultOptions (params_constants params) in
      if truthy_path (params_keyPath params) then
        match importFromFile R (default "" (params_keyPath params))
                (params_password params) (initialised c, w) with
        | (Ok _, (km, w')) => (Ok km, w')
        | (Throw e, (_, w')) =>
            (Throw (JsError ("Error importing keyfile - " +:+ exn_toString e)), w')
        end
      else
        match generateKey R (given_password params) (initialised c, w) with
        | (Ok _, (km, w')) => (Ok km, w')
        | (Throw e, (_, w')) => (Throw e, w')
        end.
Proof.
  unfold new_KeyManager, constructor, password_missing.
  destruct (negb (params_is_String params) && negb (truthy (params_password params)));
    [reflexivity|].
  unfold mbind at 1, SE_bind at 1. unfold update_this at 1. simpl fst. simpl snd.
  unfold mbind at 1, SE_bind at 1.
  change (VObj [("publicKeyId", VStr ""); ("crypto", VObj [])]) with empty_keyStorage.
  rewrite constructor_prelude.
  destruct (truthy_path (params_keyPath params)).
  - unfold try_catch, throw.
    now destruct (importFromFile R _ _ _) as [[u|e] [km w']].
  - destruct params as [s|pw kp c]; simpl;
      now destruct (generateKey R _ _) as [[u|e] [km w']].
Qed.

Lemma create_eq (R : Runtime) (c : Options) (w : World) :
  ∃ keyObject,
    create R c w
    = (Ok keyObject,
       after_randomBytes (keyBytes c + ivBytes c)
         (after_randomBytes (keyBytes c + ivBytes c + keyBytes c)
            (after_randomBytes (keyBytes c + ivBytes c + keyBytes c) w))).
Proof.
  unfold create, curve25519KeyGen, crypto_randomBytes. run.
  destruct (generateKeyPair R _) as [pub priv]. simpl. eauto.
Qed.

Lemma generateKey_eq (R : Runtime) (pw : value) (km : KeyManager) (w : World) :
  generateKey R pw (km, w)
  = match create R (constants km) w with
    | (Ok keyObject, w1) =>
        match dump R pw keyObject (constants km) w1 with
        | (Ok ks, w2) => initKeyStorage R ks pw (km, w2)
        | (Throw e, w2) => (Throw e, (km, w2))
        end
    | (Throw e, w1) => (Throw e, (km, w1))
    end.
Proof.
  unfold generateKey. run.
  destruct (create R (constants km) w) as [[ko|e] w1]; simpl; [|reflexivity].
  now destruct (dump R pw ko (constants km) w1) as [[ks|e] w2].
Qed.

Lemma importFromFile_eq (R : Runtime) (path : string) (pw : value)
    (km : KeyManager) (w : World) :
  importFromFile R path pw (km, w)
  = match fs w !! path with
    | None =>
        (Throw (JsError ("ENOENT: no such file or directory, open '" +:+ path +:+ "'")),
         (km, log (EvReadFile path) w))
    | Some data =>
        match JSON_parse R data with
        | Ok ks => initKeyStorage R ks pw (km, log (EvReadFile path) w)
        | Throw e => (Throw e, (km, log (EvReadFile path) w))
        end
    end.
Proof.
  unfold importFromFile, fs_readFileSync. run.
  destruct (fs w !! path) as [data|]; simpl; [|reflexivity].
  now destruct (JSON_parse R data).
Qed.

Lemma truthy_path_Some (o : option string) :
  truthy_path o = true → ∃ path, o = Some path ∧ path ≠ "".
Proof.
  destruct o as [path|]; [|discriminate]. simpl.
  destruct (String.eqb_spec path ""); [discriminate|eauto].
Qed.

(** Every instance that [new KeyManager] returns is unlocked, holds the
    password it was given and the chosen constants, and has a Buffer or
    nothing in [#sk]. *)
Lemma new_KeyManager_Ok (R : Runtime) (params : Params) (km : KeyManager)
    (w w' : World) :
  new_KeyManager R params w = (Ok km, w') →
  isLocked km = false
  ∧ password km = given_password params
  ∧ constants km = default defaultOptions (params_constants params)
  ∧ key_or_undefined (sk km).
Proof.
  rewrite new_KeyManager_eq.
  destruct (password_missing params); [discriminate|]. simpl.
  assert (Hinit : ∀ ks pw c w0 u km0 w1,
    initKeyStorage R ks pw (initialised c, w0) = (Ok u, (km0, w1)) →
    isLocked km0 = false ∧ password km0 = pw ∧ constants km0 = c
    ∧ key_or_undefined (sk km0)).
  { intros ks pw c w0 u km0 w1 H.
    apply initKeyStorage_Ok in H as (Hl & Hp & _ & Hc & _ & Hsk).
    repeat split; try assumption.
    destruct (truthy (pk km0)).
    - destruct Hsk as (key & -> & _). right. eauto.
    - destruct Hsk as [-> _]. now left. }
  destruct (truthy_path (params_keyPath params)) eqn:Hkp.
  - rewrite importFromFile_eq.
    destruct (fs w !! _) as [data|]; [|discriminate].
    destruct (JSON_parse R data) as [ks|e]; [|discriminate].
    destruct (initKeyStorage R ks _ _) as [[u|e] [km0 w1]] eqn:E; [|discriminate].
    intros [= <- <-]. apply Hinit in E.
    destruct params as [s|pw kp c]; [discriminate|]. exact E.
  - rewrite generateKey_eq. simpl.
    destruct (create R _ w) as [[ko|e] w1]; [|discriminate].
    destruct (dump R _ ko _ w1) as [[ks|e] w2]; [|discriminate].
    destruct (initKeyStorage R ks _ _) as [[u|e] [km0 w3]] eqn:E; [|discriminate].
    intros [= <- <-]. now apply Hinit in E.
Qed.

(** ** Signing *)

Lemma sign_locked (R : Runtime) (message : string) (km : KeyManager) (w : World) :
  isLocked km = true →
  sign R message (km, w)
  = (Throw (JsError "The key is currently locked. Please unlock and try again."),
     (km, w)).
Proof. intros H. unfold sign. run. now rewrite H. Qed.

Lemma str2buf_message (R : Runtime) (message : string) :
  str2buf R (VStr message) (Some "utf8") = Ok (message_arg message).
Proof.
  unfold str2buf, message_arg.
  now destruct (String.eqb_spec message "") as [->|_].
Qed.

Lemma sign_unlocked (R : Runtime) (message : string) (km : KeyManager) (w : World) :
  isLocked km = false → key_or_undefined (sk km) →
  sign R message (km, w)
  = (curve25519_sign R (sk km) (message_arg message) (randomBytes R (seed w) 64),
     (km, after_randomBytes 64 w)).
Proof.
  intros Hl Hsk. unfold sign. run. rewrite Hl.
  assert (Hs : str2buf R (sk km) None = Ok (sk km))
    by (destruct Hsk as [->|[key ->]]; reflexivity).
  rewrite Hs, str2buf_message. unfold crypto_randomBytes. simpl.
  now destruct (curve25519_sign R _ _ _).
Qed.



(** ** Bare-string construction *)

(** C10, as the code has it.  For every non-empty string [s],
    [new KeyManager(s)] and [new KeyManager({password: s})] are the same
    computation: both run key generation with the password [s] from the
    instance initialised with the default options, and an instance they
    return is unlocked, holds [s] as its password and the default options
    as its constants. *)
Theorem bare_string_construction (R : Runtime) (s : string) (w : World) :
  s ≠ "" →
  new_KeyManager R (PString s) w = new_KeyManager R (PObject (VStr s) None None) w
  ∧ new_KeyManager R (PString s) w
    = match generateKey R (VStr s) (initialised defaultOptions, w) with
      | (Ok _, (km, w')) => (Ok km, w')
      | (Throw e, (_, w')) => (Throw e, w')
      end
  ∧ ∀ km w', new_KeyManager R (PString s) w = (Ok km, w') →
      isLocked km = false
      ∧ password km = VStr s
      ∧ constants km = defaultOptions.
Proof.
  intros Hs. split; [|split].
  - rewrite !new_KeyManager_eq. unfold password_missing. simpl.
    destruct (String.eqb_spec s ""); [contradiction|reflexivity].
  - now rewrite new_KeyManager_eq.
  - intros km w' Hnew.
    apply new_KeyManager_Ok in Hnew as (Hl & Hp & Hc & _). now repeat split.
Qed.

(** ** Import *)

(** C3, as the code has it.  Importing with a non-empty password from a
    path either returns an instance or throws an [Error] whose message
    starts with "Error importing keyfile - "; there is nothing in
    between.  The returned instance is unlocked, holds the parsed record
    and the password; when the record's [publicKeyId] is truthy it also
    holds the private key that [recover] produced from the record, and
    when [publicKeyId] is empty or absent [recover] is not run at all and
    no private key is held.  The throw happens exactly when the file is
    missing, its contents do not parse, or [recover] throws (a MAC
    mismatch included), and carries that error's text. *)
Theorem import_all_or_nothing (R : Runtime) (pw : value) (path : string)
    (c : option Options) (w : World) :
  truthy pw = true → path ≠ "" →
  let kdf := scrypt (default defaultOptions c) in
  let w0 := log (EvReadFile path) w in
  match new_KeyManager R (PObject pw (Some path) c) w with
  | (Ok km, w') =>
      ∃ data, fs w !! path = Some data
        ∧ JSON_parse R data = Ok (keyStorage km)
        ∧ get_prop (keyStorage km) "publicKeyId" = Ok (pk km)
        ∧ isLocked km = false
        ∧ password km = pw
        ∧ (if truthy (pk km)
           then ∃ key, sk km = VBuf key
                       ∧ recover R pw (keyStorage km) kdf w0 = (Ok key, w')
           else sk km = VUndef ∧ w' = w0)
  | (Throw e, w') =>
      ∃ err, e = JsError ("Error importing keyfile - " +:+ exn_toString err)
        ∧ (fs w !! path = None
           ∨ ∃ data, fs w !! path = Some data
               ∧ (JSON_parse R data = Throw err
                  ∨ ∃ ks, JSON_parse R data = Ok ks
                      ∧ (get_prop ks "publicKeyId" = Throw err
                         ∨ ∃ id, get_prop ks "publicKeyId" = Ok id
                             ∧ truthy id = true
                             ∧ recover R pw ks kdf w0 = (Throw err, w'))))
  end.
Proof.
  intros Hpw Hpath kdf w0. rewrite new_KeyManager_eq.
  unfold password_missing. simpl. rewrite Hpw. simpl.
  destruct (String.eqb_spec path ""); [contradiction|]. simpl.
  rewrite importFromFile_eq.
  destruct (fs w !! path) as [data|]; [|eexists; split; [reflexivity|now left]].
  destruct (JSON_parse R data) as [ks|e] eqn:Hparse;
    [|eexists; split; [reflexivity|right; eauto]].
  fold w0.
  destruct (initKeyStorage R ks pw (initialised (default defaultOptions c), w0))
    as [[u|e] [km w']] eqn:E.
  - apply initKeyStorage_Ok in E as (Hl & Hp & Hks & Hc & Hid & Hsk).
    exists data. rewrite Hks. repeat split; assumption.
  - rewrite initKeyStorage_eq in E.
    exists e. split; [reflexivity|]. right. exists data. split; [reflexivity|].
    right. exists ks. split; [exact Hparse|].
    destruct (get_prop ks "publicKeyId") as [id|e'] eqn:Hid.
    + right. exists id. split; [reflexivity|]. simpl in E.
      destruct (truthy id); [|discriminate]. split; [reflexivity|].
      destruct (recover R pw ks _ w0) as [[key|e'] w1]; [discriminate|].
      now inversion E; subst.
    + left. now inversion E; subst.
Qed.

(** ** Recovering the private key *)

Lemma recover_eq (R : Runtime) (pw ks : value) (kdf : KdfParams) (w : World) :
  recover R pw ks kdf w
  = match crypto_field ks "cipherParams" with
    | Throw e => (Throw e, w)
    | Ok cipherParams =>
    match get_prop cipherParams "iv" with
    | Throw e => (Throw e, w)
    | Ok iv58 =>
    match str2buf R iv58 None with
    | Throw e => (Throw e, w)
    | Ok ivv =>
    match decoded_field R ks "kdfSalt" with
    | Throw e => (Throw e, w)
    | Ok saltv =>
    match decoded_field R ks "cipherText" with
    | Throw e => (Throw e, w)
    | Ok ctv =>
    match decoded_field R ks "mac" with
    | Throw e => (Throw e, w)
    | Ok macv =>
    match crypto_field ks "cipher" with
    | Throw e => (Throw e, w)
    | Ok algo =>
    match deriveKey R pw saltv kdf w with
    | (Throw e, w1) => (Throw e, w1)
    | (Ok dk, w1) => verifyAndDecrypt R dk ivv ctv macv algo w1
    end end end end end end end end.
Proof.
  unfold recover, decoded_field, crypto_field. run.
  destruct (get_prop ks "crypto") as [crypto|e]; simpl; [|reflexivity].
  destruct (get_prop crypto "cipherParams") as [cp|e]; simpl; [|reflexivity].
  destruct (get_prop cp "iv") as [iv58|e]; simpl; [|reflexivity].
  destruct (str2buf R iv58 None) as [ivv|e]; simpl; [|reflexivity].
  destruct (get_prop crypto "kdfSalt") as [s58|e]; simpl; [|reflexivity].
  destruct (str2buf R s58 None) as [saltv|e]; simpl; [|reflexivity].
  destruct (get_prop crypto "cipherText") as [c58|e]; simpl; [|reflexivity].
  destruct (str2buf R c58 None) as [ctv|e]; simpl; [|reflexivity].
  destruct (get_prop crypto "mac") as [m58|e]; simpl; [|reflexivity].
  destruct (str2buf R m58 None) as [macv|e]; simpl; [|reflexivity].
  destruct (get_prop crypto "cipher") as [algo|e]; simpl; [|reflexivity].
  now destruct (deriveKey R pw saltv kdf w) as [[dk|e] w1].
Qed.

Lemma verifyAndDecrypt_eq (R : Runtime) (dk : bytes) (ivv ctv macv algo : value)
    (w : World) :
  verifyAndDecrypt R dk ivv ctv macv algo w
  = match getMAC R (VBuf dk) ctv w with
    | (Throw e, w1) => (Throw e, w1)
    | (Ok m, w1) =>
        match Buffer_equals m macv with
        | Throw e => (Throw e, w1)
        | Ok true => decrypt R ctv (VBuf dk) ivv algo w1
        | Ok false => (Throw (JsError "message authentication code mismatch"), w1)
        end
    end.
Proof.
  unfold verifyAndDecrypt. run.
  destruct (getMAC R (VBuf dk) ctv w) as [[m|e] w1]; simpl; [|reflexivity].
  destruct (Buffer_equals m macv) as [[|]|e]; reflexivity.
Qed.

(** [getMAC] with a derived key that is a Buffer: it either fails before
    hashing, falls through, or hashes and logs exactly that. *)
Lemma getMAC_inv (R : Runtime) (dk : bytes) (ctv : value) (w : World) :
  (∃ e, getMAC R (VBuf dk) ctv w = (Throw e, w))
  ∨ getMAC R (VBuf dk) ctv w = (Ok VUndef, w)
  ∨ ∃ m, getMAC R (VBuf dk) ctv w = (Ok (VBuf m), log EvKeccak w).
Proof.
  unfold getMAC. destruct ctv as [| |s|ct|props]; simpl.
  - right. now left.
  - right. now left.
  - run. unfold str2buf.
    destruct (String.eqb s ""); simpl; [left; eauto|].
    destruct (Base58_decode R s) as [b|e]; simpl; [|left; eauto].
    right. right. eauto.
  - run. right. right. eauto.
  - run. left. eauto.
Qed.

(** C1, as the code has it.  Take any password, key pair, IV and cipher
    name, and a non-empty salt, such that [deriveKey] yields a key and
    [encrypt] a non-empty ciphertext.  If Base58 decoding undoes Base58
    encoding on the salt, the IV, the ciphertext and the (non-empty) MAC,
    and the named cipher deciphers that ciphertext back to the private
    key, then [marshal] produces a record and [recover], run in any
    world with the same password and KDF parameters on that record,
    returns exactly the private key bytes. *)
Theorem recover_marshal_roundtrip (R : Runtime) (pw : value)
    (keyObject : KeyObject) (salt0 iv0 : bytes) (algo : string)
    (kdf : KdfParams) (derivedKey ciphertext : bytes) (w0 w1 w2 : World) :
  salt0 ≠ [] →
  ciphertext ≠ [] →
  keccak256 R (mac_input derivedKey ciphertext) ≠ [] →
  Forall (b58_ok R)
    [salt0; iv0; ciphertext; keccak256 R (mac_input derivedKey ciphertext)] →
  deciphers R algo derivedKey iv0 (privateKey keyObject) ciphertext →
  deriveKey R pw (VBuf salt0) kdf w0 = (Ok derivedKey, w1) →
  encrypt R (VBuf (privateKey keyObject)) (VBuf derivedKey) (VBuf iv0)
          (VStr algo) w1 = (Ok ciphertext, w2) →
  ∃ ks, marshal R derivedKey keyObject salt0 iv0 algo w1 = (Ok ks, log EvKeccak w2)
        ∧ ∀ w, ∃ w', recover R pw ks kdf w = (Ok (privateKey keyObject), w').
Proof.
  intros Hsalt Hct Hmac Hcodec (d & Hd & Hdec) Hkey Henc.
  apply Forall_cons in Hcodec as [Bsalt Hcodec].
  apply Forall_cons in Hcodec as [Biv Hcodec].
  apply Forall_cons in Hcodec as [Bct Hcodec].
  apply Forall_cons in Hcodec as [Bmac _].
  eexists. split; [rewrite marshal_eq, Henc; reflexivity|].
  intros w. rewrite recover_eq. unfold decoded_field. simpl.
  destruct (str2buf_encoded_arg R iv0 Biv) as (ivv & -> & Harg & Hid).
  rewrite !str2buf_encoded by assumption.
  rewrite deriveKey_Buffer_salt in Hkey |- *.
  destruct (defined pw); [|discriminate]. injection Hkey as -> _.
  rewrite verifyAndDecrypt_eq, getMAC_Buffers. simpl.
  rewrite bool_decide_eq_true_2 by reflexivity.
  rewrite (decrypt_args R ciphertext derivedKey iv0 ivv algo _ Harg Hid).
  rewrite encrypt_Buffers in Henc.
  destruct (isCipherAvailable R (VStr algo)); [|discriminate].
  rewrite Hd, Hdec. eauto.
Qed.

(** ** The MAC gate *)

Ltac no_such_event :=
  let Ha := fresh "Ha" in
  intros Ha;
  repeat (apply elem_of_cons in Ha as [Ha|Ha]; [discriminate Ha|]);
  now apply elem_of_nil in Ha.

Ltac no_such_decipher :=
  let a := fresh "a" in intros a; no_such_event.

Lemma deriveKey_inv (R : Runtime) (pw saltv : value) (kdf : KdfParams)
    (w w1 : World) (res : result bytes) :
  deriveKey R pw saltv kdf w = (res, w1) →
  (w1 = w ∧ ∃ e, res = Throw e) ∨ w1 = log EvScrypt w.
Proof.
  unfold deriveKey, crypto_scryptSync.
  destruct (negb (defined pw) || negb (truthy saltv)).
  - intros [= <- <-]. left. eauto.
  - run.
    destruct (str2buf R pw (Some "utf8")) as [pwv|e]; simpl;
      [|intros [= <- <-]; left; eauto].
    destruct (str2buf R saltv None) as [sv|e]; simpl;
      [|intros [= <- <-]; left; eauto].
    destruct (crypto_arg pwv) as [pwb|e]; simpl;
      [|intros [= <- <-]; now right].
    destruct (crypto_arg sv) as [sb|e]; simpl;
      [|intros [= <- <-]; now right].
    destruct (scryptSync R pwb sb _ _); intros [= <- <-]; now right.
Qed.

Lemma decrypt_inv (R : Runtime) (ctv keyv ivv algo : value) (w w1 : World)
    (res : result bytes) :
  decrypt R ctv keyv ivv algo w = (res, w1) →
  w1 = w ∨ w1 = log (EvDecipher (js_toString algo)) w.
Proof.
  unfold decrypt, crypto_createDecipheriv, update_final.
  destruct (negb (isCipherAvailable R algo)).
  - intros [= <- <-]. now left.
  - run.
    destruct (str2buf R keyv None) as [kv|e]; simpl; [|intros [= <- <-]; now left].
    destruct (str2buf R ivv None) as [iv1|e]; simpl; [|intros [= <- <-]; now left].
    destruct (crypto_arg kv) as [kb|e]; simpl; [|intros [= <- <-]; now right].
    destruct (crypto_arg iv1) as [ib|e]; simpl; [|intros [= <- <-]; now right].
    destruct (createDecipheriv R _ kb ib) as [d|e]; simpl;
      [|intros [= <- <-]; now right].
    destruct (str2buf R ctv None) as [cv|e]; simpl; [|intros [= <- <-]; now right].
    destruct (crypto_arg cv) as [cb|e]; simpl; [|intros [= <- <-]; now right].
    destruct (d cb); intros [= <- <-]; now right.
Qed.

(** C2, as the code has it.  Whatever the record and the password,
    [recover] ends in one of two ways.  Either it throws before any MAC
    is computed (a field is missing or does not decode, or key derivation
    or the MAC computation fails), having created no decipher.  Or it
    derives the key, computes the MAC of the record's ciphertext under
    that key, and compares it with the stored [mac]: when the stored
    [mac] is a Buffer with other bytes it throws "message authentication
    code mismatch", and when the stored [mac] is not a Buffer (the empty
    string decodes to no Buffer) it throws a [TypeError]; in both cases no
    decipher is created; only when the bytes are equal does it go on to
    [decrypt]. *)
Theorem recover_mac_gate (R : Runtime) (pw ks : value) (kdf : KdfParams)
    (w w' : World) (res : result bytes) :
  recover R pw ks kdf w = (res, w') →
  ∃ evs, calls w' = calls w ++ evs ∧
    (((∃ e, res = Throw e) ∧ (EvKeccak ∉ evs) ∧ no_decipher evs)
     ∨ ∃ saltv ctv macv dk m w1,
         decoded_field R ks "kdfSalt" = Ok saltv
         ∧ decoded_field R ks "cipherText" = Ok ctv
         ∧ decoded_field R ks "mac" = Ok macv
         ∧ deriveKey R pw saltv kdf w = (Ok dk, w1)
         ∧ getMAC R (VBuf dk) ctv w1 = (Ok (VBuf m), log EvKeccak w1)
         ∧ match macv with
           | VBuf stored =>
               if bool_decide (m = stored)
               then ∃ ivv algo,
                      decrypt R ctv (VBuf dk) ivv algo (log EvKeccak w1) = (res, w')
               else res = Throw (JsError "message authentication code mismatch")
                    ∧ w' = log EvKeccak w1 ∧ no_decipher evs
           | _ => (∃ msg, res = Throw (JsTypeError msg))
                  ∧ w' = log EvKeccak w1 ∧ no_decipher evs
           end).
Proof.
  rewrite recover_eq. intros Hrec.
  match goal with
  | |- ?G => assert (Hearly : ∀ e, (Throw e, w) = (res, w') → G)
  end.
  { intros e [= <- <-]. exists []. split; [now rewrite app_nil_r|].
    left. split; [eauto|]. split; [no_such_event|no_such_decipher]. }
  revert Hrec.
  destruct (crypto_field ks "cipherParams") as [cp|e]; [|apply Hearly].
  destruct (get_prop cp "iv") as [iv58|e]; [|apply Hearly].
  destruct (str2buf R iv58 None) as [ivv|e]; [|apply Hearly].
  destruct (decoded_field R ks "kdfSalt") as [saltv|e]; [|apply Hearly].
  destruct (decoded_field R ks "cipherText") as [ctv|e]; [|apply Hearly].
  destruct (decoded_field R ks "mac") as [macv|e]; [|apply Hearly].
  destruct (crypto_field ks "cipher") as [algo|e]; [|apply Hearly].
  clear Hearly.
  destruct (deriveKey R pw saltv kdf w) as [[dk|e] w1] eqn:Hkey.
  2:{ intros [= <- <-]. apply deriveKey_inv in Hkey as [[-> _]| ->].
      - exists []. split; [now rewrite app_nil_r|].
        left. split; [eauto|]. split; [no_such_event|no_such_decipher].
      - exists [EvScrypt]. split; [reflexivity|].
        left. split; [eauto|]. split; [no_such_event|no_such_decipher]. }
  assert (Hw1 : ∃ pre, calls w1 = calls w ++ pre ∧ (EvKeccak ∉ pre) ∧ no_decipher pre).
  { pose proof Hkey as Hinv. apply deriveKey_inv in Hinv as [[-> _]| ->].
    - exists []. split; [now rewrite app_nil_r|].
      split; [no_such_event|no_such_decipher].
    - exists [EvScrypt]. split; [reflexivity|].
      split; [no_such_event|no_such_decipher]. }
  destruct Hw1 as (pre & Hpre & Hk & Hd).
  rewrite verifyAndDecrypt_eq.
  destruct (getMAC_inv R dk ctv w1) as [[e Hm]|[Hm|[m Hm]]]; rewrite Hm.
  - intros [= <- <-]. exists pre. split; [exact Hpre|]. left. eauto.
  - simpl. intros [= <- <-]. exists pre. split; [exact Hpre|]. left. eauto.
  - assert (Hpre' : calls (log EvKeccak w1) = calls w ++ (pre ++ [EvKeccak]))
      by (simpl; now rewrite Hpre, app_assoc).
    assert (Hd' : no_decipher (pre ++ [EvKeccak])).
    { intros a Ha. apply elem_of_app in Ha as [Ha|Ha]; [now apply (Hd a)|].
      revert Ha. no_such_event. }
    destruct macv as [| |s|stored|props]; simpl.
    1-3,5: intros [= <- <-]; exists (pre ++ [EvKeccak]); split; [exact Hpre'|];
           right; exists saltv; eexists _, _, dk, m, w1;
           repeat split; eauto.
    destruct (bool_decide (m = stored)) eqn:Heq.
    + intros Hdec. pose proof Hdec as Hinv. apply decrypt_inv in Hinv as [->| ->].
      * exists (pre ++ [EvKeccak]). split; [exact Hpre'|].
        right. exists saltv, ctv, (VBuf stored), dk, m, w1.
        repeat split; try reflexivity; try assumption. rewrite Heq. eauto.
      * exists (pre ++ [EvKeccak; EvDecipher (js_toString algo)]).
        split; [simpl; now rewrite Hpre, <- !app_assoc|].
        right. exists saltv, ctv, (VBuf stored), dk, m, w1.
        repeat split; try reflexivity; try assumption. rewrite Heq. eauto.
    + intros [= <- <-]. exists (pre ++ [EvKeccak]). split; [exact Hpre'|].
      right. exists saltv, ctv, (VBuf stored), dk, m, w1.
      repeat split; try reflexivity; try assumption. rewrite Heq. now repeat split.
Qed.

(** On a record whose salt, ciphertext and MAC fields are the Base58 text
    of non-empty Buffers, [recover] with a password from which a key is
    derived comes down to the comparison: with equal bytes it decrypts,
    with different bytes (a wrong password, or an altered ciphertext or
    MAC, whenever that changes one side) it throws the mismatch error
    right after hashing. *)
Lemma recover_encoded_record (R : Runtime) (pw publicKeyId algo iv58 kdfName : value)
    (salt0 ciphertext stored derivedKey : bytes) (kdf : KdfParams) (w : World) :
  salt0 ≠ [] → ciphertext ≠ [] → stored ≠ [] →
  Forall (b58_ok R) [salt0; ciphertext; stored] →
  defined pw = true →
  scrypt_of R pw salt0 kdf = Ok derivedKey →
  ∀ ivv, str2buf R iv58 None = Ok ivv →
  recover R pw
    (keystore publicKeyId algo (VStr (Base58_encode R ciphertext)) iv58
              (VStr (Base58_encode R stored)) kdfName
              (VStr (Base58_encode R salt0)))
    kdf w
  = if bool_decide (keccak256 R (mac_input derivedKey ciphertext) = stored)
    then decrypt R (VBuf ciphertext) (VBuf derivedKey) ivv algo
                 (log EvKeccak (log EvScrypt w))
    else (Throw (JsError "message authentication code mismatch"),
          log EvKeccak (log EvScrypt w)).
Proof.
  intros Hsalt Hct Hmac Hcodec Hpw Hkey ivv Hiv.
  apply Forall_cons in Hcodec as [Bsalt Hcodec].
  apply Forall_cons in Hcodec as [Bct Hcodec].
  apply Forall_cons in Hcodec as [Bmac _].
  rewrite recover_eq. unfold decoded_field. simpl.
  rewrite Hiv, !str2buf_encoded by assumption.
  rewrite deriveKey_Buffer_salt, Hpw, Hkey.
  rewrite verifyAndDecrypt_eq, getMAC_Buffers. simpl.
  now destruct (bool_decide (keccak256 R (mac_input derivedKey ciphertext) = stored)).
Qed.

(** ** The persisted record *)

Lemma dump_eq (R : Runtime) (pw : value) (keyObject : KeyObject) (c : Options)
    (w : World) :
  dump R pw keyObject c w
  = match deriveKey R pw (VBuf (salt keyObject))
            (default (scrypt c) (kdfParams c)) w with
    | (Ok dk, w1) =>
        marshal R dk keyObject (salt keyObject) (iv keyObject) (cipher c) w1
    | (Throw e, w1) => (Throw e, w1)
    end.
Proof. reflexivity. Qed.

Lemma exportToFile_Ok (R : Runtime) (_keyPath : option string)
    (km km' : KeyManager) (w w' : World) (path : string) :
  exportToFile R _keyPath (km, w) = (Ok path, (km', w')) →
  fs w' !! path = Some (JSON_stringify R (keyStorage km)).
Proof.
  unfold exportToFile, getKeyStorage. run.
  destruct (generateKeystoreFilename (pk km) w) as [[outfile|e] w1]; simpl;
    [|discriminate].
  destruct (isLocked km); simpl; [discriminate|].
  destruct (truthy (pk km)); simpl; [|discriminate].
  unfold fs_writeFileSync.
  destruct (decide (_ ∈ unwritable w1)); simpl; [discriminate|].
  intros [= <- <- <-]. simpl. apply lookup_insert_eq.
Qed.

Lemma generated_keyStorage (R : Runtime) (params : Params) (km : KeyManager)
    (w w' : World) :
  truthy_path (params_keyPath params) = false →
  new_KeyManager R params w = (Ok km, w') →
  ∃ dk keyObject wa wb,
    marshal R dk keyObject (salt keyObject) (iv keyObject)
            (cipher (constants km)) wa
    = (Ok (keyStorage km), wb).
Proof.
  intros Hkp. rewrite new_KeyManager_eq, Hkp.
  destruct (password_missing params); [discriminate|]. simpl.
  rewrite generateKey_eq. simpl.
  destruct (create R _ w) as [[ko|e] w1]; [|discriminate].
  rewrite dump_eq.
  destruct (deriveKey R _ _ _ w1) as [[dk|e] w2]; [|discriminate].
  destruct (marshal R dk ko _ _ _ w2) as [[ks|e] w3] eqn:Hm; [|discriminate].
  destruct (initKeyStorage R ks _ _) as [[u|e] [km0 w4]] eqn:E; [|discriminate].
  intros [= <- <-].
  apply initKeyStorage_Ok in E as (_ & _ & Hks & Hc & _).
  exists dk, ko, w2, w3. now rewrite Hks, Hc.
Qed.

(** C7, as the code has it.  Whenever encryption succeeds, [marshal]
    returns one object with exactly two properties, [publicKeyId] and
    [crypto]; [crypto] has exactly [cipher], [cipherText], [cipherParams],
    [mac], [kdf] and [kdfSalt], and [cipherParams] has exactly [iv].
    [kdf] is "scrypt", [cipher] the cipher name, and the public key,
    ciphertext, IV, MAC and salt are Base58 text.  A generated instance
    holds a record made this way, and a successful [exportToFile] writes
    the JSON serialization of the instance's record. *)
Theorem marshal_record_layout (R : Runtime) (derivedKey : bytes)
    (keyObject : KeyObject) (salt0 iv0 : bytes) (algo : string) (w : World) :
  marshal R derivedKey keyObject salt0 iv0 algo w
  = match encrypt R (VBuf (privateKey keyObject)) (VBuf derivedKey) (VBuf iv0)
                  (VStr algo) w with
    | (Ok ciphertext, w1) =>
        (Ok (VObj
          [ ("publicKeyId", VStr (Base58_encode R (publicKey keyObject)));
            ("crypto", VObj
              [ ("cipher", VStr algo);
                ("cipherText", VStr (Base58_encode R ciphertext));
                ("cipherParams", VObj [("iv", VStr (Base58_encode R iv0))]);
                ("mac", VStr (Base58_encode R
                         (keccak256 R (mac_input derivedKey ciphertext))));
                ("kdf", VStr "scrypt");
                ("kdfSalt", VStr (Base58_encode R salt0)) ]) ]),
         log EvKeccak w1)
    | (Throw e, w1) => (Throw e, w1)
    end
  ∧ (∀ params km w0 w1,
       truthy_path (params_keyPath params) = false →
       new_KeyManager R params w0 = (Ok km, w1) →
       ∃ dk ko wa wb,
         marshal R dk ko (salt ko) (iv ko) (cipher (constants km)) wa
         = (Ok (keyStorage km), wb))
  ∧ (∀ _keyPath km km' w0 w1 path,
       exportToFile R _keyPath (km, w0) = (Ok path, (km', w1)) →
       fs w1 !! path = Some (JSON_stringify R (keyStorage km))).
Proof.
  split; [apply marshal_eq|]. split.
  - intros params km w0 w1. apply generated_keyStorage.
  - intros kp km km' w0 w1 path. apply exportToFile_Ok.
Qed.

(** ** Generation *)

(** X18. Construction without a key path succeeds, and the instance holds
    the generated private key, whenever the runtime derives a key, encrypts
    the private key, and reads back what it wrote. (With [kdfParams] set
    in the constants, [dump] and [recover] would derive under different
    parameters; the default constants have none.) *)
Lemma generated_holds_private_key (R : Runtime) (params : Params)
    (keyObject : KeyObject) (derivedKey ciphertext : bytes) (w w1 w2 : World) :
  let c := default defaultOptions (params_constants params) in
  let mac := keccak256 R (mac_input derivedKey ciphertext) in
  password_missing params = false →
  truthy_path (params_keyPath params) = false →
  kdfParams c = None →
  create R c w = (Ok keyObject, w1) →
  deriveKey R (given_password params) (VBuf (salt keyObject)) (scrypt c) w1
  = (Ok derivedKey, log EvScrypt w1) →
  encrypt R (VBuf (privateKey keyObject)) (VBuf derivedKey) (VBuf (iv keyObject))
          (VStr (cipher c)) (log EvScrypt w1) = (Ok ciphertext, w2) →
  publicKey keyObject ≠ [] → salt keyObject ≠ [] → ciphertext ≠ [] → mac ≠ [] →
  Forall (b58_ok R)
    [publicKey keyObject; salt keyObject; iv keyObject; ciphertext; mac] →
  deciphers R (cipher c) derivedKey (iv keyObject) (privateKey keyObject)
            ciphertext →
  ∃ km w',
    new_KeyManager R params w = (Ok km, w')
    ∧ pk km = VStr (Base58_encode R (publicKey keyObject))
    ∧ sk km = VBuf (privateKey keyObject)
    ∧ isLocked km = false
    ∧ password km = given_password params.
Proof.
  intros c mac Hguard Hpath Hkdf Hcreate Hkey Henc Hpk Hsalt Hct Hmac Hcodec
         (d & Hd & Hdec).
  apply Forall_cons in Hcodec as [Bpk Hcodec].
  apply Forall_cons in Hcodec as [Bsalt Hcodec].
  apply Forall_cons in Hcodec as [Biv Hcodec].
  apply Forall_cons in Hcodec as [Bct Hcodec].
  apply Forall_cons in Hcodec as [Bmac _].
  rewrite new_KeyManager_eq, Hguard. cbv beta iota zeta. rewrite Hpath. fold c.
  rewrite generateKey_eq. simpl constants. rewrite Hcreate, dump_eq, Hkdf.
  simpl default. rewrite Hkey, marshal_eq, Henc, initKeyStorage_eq.
  unfold keystore at 1. simpl get_prop. cbv beta iota zeta.
  change (constants (initialised c)) with c.
  assert (Ht : truthy (VStr (Base58_encode R (publicKey keyObject))) = true).
  { apply truthy_VStr. now apply Bpk. }
  rewrite Ht.
  destruct (str2buf_encoded_arg R (iv keyObject) Biv) as (ivv & Hiv & Harg & Hid).
  pose proof Hkey as Hkey'. rewrite deriveKey_Buffer_salt in Hkey'.
  destruct (defined (given_password params)) eqn:Hdef; [|discriminate].
  injection Hkey' as Hscrypt.
  rewrite (recover_encoded_record R _ _ _ _ _ (salt keyObject) ciphertext mac
             derivedKey _ _ Hsalt Hct Hmac) with (ivv := ivv);
    [|repeat (apply Forall_cons_2; [assumption|]); apply Forall_nil_2
     |exact Hdef|exact Hscrypt|exact Hiv].
  rewrite bool_decide_eq_true_2 by reflexivity.
  rewrite (decrypt_args R ciphertext derivedKey (iv keyObject) ivv _ _ Harg Hid).
  rewrite encrypt_Buffers in Henc.
  destruct (isCipherAvailable R (VStr (cipher c))); [|discriminate].
  rewrite Hd, Hdec. eexists _, _. split; [reflexivity|]. now repeat split.
Qed.

(** ** The lock discipline *)





(** ** Base58 in the sample runtime is a codec *)

Section Positional.
Context (base : N) (Hbase : (1 < base)%N).

Lemma number_snoc (ds : list N) (d : N) :
  Sample.number base (ds ++ [d]) = (Sample.number base ds * base + d)%N.
Proof. unfold Sample.number. now rewrite fold_left_app. Qed.

Lemma normal_snoc (ds : list N) (d : N) :
  normal_digits base (ds ++ [d]) →
  (d < base)%N ∧ (ds = [] ∧ d ≠ 0%N ∨ ds ≠ [] ∧ normal_digits base ds).
Proof.
  intros [Hall Hhead]. apply Forall_app in Hall as [Hds Hd].
  apply Forall_cons in Hd as [Hd _]. split; [exact Hd|].
  destruct ds as [|x ds].
  - left. split; [reflexivity|]. simpl in Hhead. congruence.
  - right. split; [discriminate|]. split; [exact Hds|exact Hhead].
Qed.

Lemma number_bounds (ds : list N) :
  normal_digits base ds → ds ≠ [] →
  (base ^ N.of_nat (length ds - 1) ≤ Sample.number base ds
   < base ^ N.of_nat (length ds))%N.
Proof.
  induction ds as [|d ds IH] using rev_ind; [congruence|].
  intros Hn _. apply normal_snoc in Hn as [Hd [[-> Hd0]|[Hne Hn]]].
  - simpl. unfold Sample.number. simpl. rewrite N.pow_1_r. lia.
  - specialize (IH Hn Hne). rewrite number_snoc, length_app. simpl.
    replace (length ds + 1 - 1) with (S (length ds - 1))
      by (destruct ds; [congruence|simpl; lia]).
    replace (length ds + 1) with (S (length ds)) by lia.
    rewrite !Nat2N.inj_succ, !N.pow_succ_r'. nia.
Qed.

Lemma number_nonzero (ds : list N) :
  normal_digits base ds → ds ≠ [] → Sample.number base ds ≠ 0%N.
Proof.
  intros Hn Hne. pose proof (number_bounds ds Hn Hne) as [Hlo _].
  assert (0 < base ^ N.of_nat (length ds - 1))%N; [|lia].
  apply N.neq_0_lt_0, N.pow_nonzero. lia.
Qed.

(** The digits of the number of a normal digit sequence are that
    sequence, given fuel for each digit. *)
Lemma digits_of_number (ds : list N) :
  normal_digits base ds → ∀ fuel acc, length ds ≤ fuel →
  Sample.digits_of base fuel (Sample.number base ds) acc = ds ++ acc.
Proof.
  induction ds as [|d ds IH] using rev_ind; intros Hn fuel acc Hfuel.
  - destruct fuel; reflexivity.
  - pose proof (number_nonzero _ Hn) as Hnz.
    rewrite length_app in Hfuel. simpl in Hfuel.
    destruct fuel as [|fuel]; [lia|]. simpl.
    destruct (N.eqb_spec (Sample.number base (ds ++ [d])) 0) as [E|_].
    { destruct Hnz; [now destruct ds|exact E]. }
    apply normal_snoc in Hn as [Hd Hn]. rewrite number_snoc.
    assert (Hdiv : ((Sample.number base ds * base + d) / base
                    = Sample.number base ds)%N)
      by (rewrite N.div_add_l by lia; rewrite N.div_small by exact Hd; lia).
    assert (Hmod : ((Sample.number base ds * base + d) mod base = d)%N)
      by (rewrite N.add_comm, N.Div0.mod_add; now apply N.mod_small).
    rewrite Hdiv, Hmod, <- app_assoc. simpl.
    destruct Hn as [[-> _]|[_ Hn]].
    + destruct fuel; reflexivity.
    + apply IH; [exact Hn|lia].
Qed.

(** With enough fuel, the digits of a number form a normal sequence
    denoting it. *)
Lemma digits_of_normal (fuel : nat) (x : N) :
  (x < base ^ N.of_nat fuel)%N →
  ∃ ds, (∀ acc, Sample.digits_of base fuel x acc = ds ++ acc)
        ∧ normal_digits base ds ∧ Sample.number base ds = x.
Proof.
  revert x. induction fuel as [|fuel IH]; intros x Hx.
  - simpl in Hx. exists []. repeat split; try constructor.
    + discriminate.
    + unfold Sample.number. simpl. lia.
  - destruct (N.eqb_spec x 0) as [->|Hnz].
    + exists []. repeat split; try constructor; discriminate.
    + assert (Hq : (x / base < base ^ N.of_nat fuel)%N).
      { apply N.Div0.div_lt_upper_bound.
        rewrite Nat2N.inj_succ, N.pow_succ_r' in Hx. lia. }
      destruct (IH _ Hq) as (ds & Hds & [Hall Hhead] & Hnum).
      exists (ds ++ [x mod base])%N. split; [|split; [split|]].
      * intros acc. simpl. destruct (N.eqb_spec x 0); [contradiction|].
        now rewrite Hds, <- app_assoc.
      * apply Forall_app. split; [exact Hall|].
        apply Forall_cons. split; [|constructor]. apply N.mod_lt. lia.
      * destruct ds as [|d ds]; [|exact Hhead]. simpl.
        unfold Sample.number in Hnum. simpl in Hnum.
        intros [= E]. rewrite (N.div_mod x base) in Hnz by lia.
        rewrite <- Hnum, E in Hnz. lia.
      * rewrite number_snoc, Hnum. rewrite N.mul_comm.
        symmetry. apply N.div_mod. lia.
Qed.

Lemma number_leading_zeros (z : nat) (ds : list N) :
  Sample.number base (replicate z 0%N ++ ds) = Sample.number base ds.
Proof.
  unfold Sample.number. rewrite fold_left_app.
  replace (fold_left (λ acc d : N, (acc * base + d)%N) (replicate z 0%N) 0%N)
    with 0%N; [reflexivity|].
  induction z as [|z IH]; [reflexivity|]. simpl. exact IH.
Qed.

End Positional.

Lemma byte_of_to_N (x : byte) : Sample.byte_of_N (Byte.to_N x) = x.
Proof.
  unfold Sample.byte_of_N.
  rewrite N.mod_small by apply Byte.to_N_bounded || (pose proof (Byte.to_N_bounded x); lia).
  now rewrite Byte.of_to_N.
Qed.

Lemma is_zero_x00 (x : byte) : Sample.is_zero x = true → x = x00%byte.
Proof.
  unfold Sample.is_zero. intros H. apply N.eqb_eq in H.
  assert (E : Byte.of_N (Byte.to_N x) = Byte.of_N 0) by now rewrite H.
  rewrite Byte.of_to_N in E. simpl in E. congruence.
Qed.

Lemma digit_of_ascii_of_digit (d : N) :
  (d < 58)%N →
  Sample.digit_of_ascii (Sample.ascii_of_digit Sample.alphabet d) = Some d.
Proof.
  intros Hd. rewrite <- (N2Nat.id d).
  assert (Hk : N.to_nat d < 58) by lia. revert Hk.
  generalize (N.to_nat d). intros k Hk.
  do 58 (destruct k as [|k]; [vm_compute; reflexivity|]). lia.
Qed.

Lemma ascii_of_digit_one (d : N) :
  (d < 58)%N → Sample.ascii_of_digit Sample.alphabet d = "1"%char → d = 0%N.
Proof.
  intros Hd E. apply digit_of_ascii_of_digit in Hd. rewrite E in Hd.
  vm_compute in Hd. congruence.
Qed.

Lemma leading_zero_bytes (b : bytes) :
  ∃ b', b = replicate (Sample.leading Sample.is_zero b) x00%byte ++ b'
        ∧ head (map Byte.to_N b') ≠ Some 0%N.
Proof.
  induction b as [|x b (b' & Hb & Hhead)]; simpl.
  - exists []. split; [reflexivity|discriminate].
  - destruct (Sample.is_zero x) eqn:E.
    + exists b'. apply is_zero_x00 in E as ->. simpl. now rewrite <- Hb.
    + exists (x :: b). split; [reflexivity|]. simpl. intros [= H].
      unfold Sample.is_zero in E. rewrite H in E. discriminate.
Qed.

Lemma map_replicate {A B} (f : A → B) (z : nat) (a : A) :
  map f (replicate z a) = replicate z (f a).
Proof. induction z as [|z IH]; simpl; [reflexivity|now rewrite IH]. Qed.

Lemma leading_replicate {A} (test : A → bool) (a : A) (z : nat) (rest : list A) :
  test a = true →
  match rest with [] => True | x :: _ => test x = false end →
  Sample.leading test (replicate z a ++ rest) = z.
Proof.
  intros Ha Hrest. induction z as [|z IH]; simpl.
  - destruct rest as [|x rest]; [reflexivity|]. simpl. now rewrite Hrest.
  - now rewrite Ha, IH.
Qed.

Lemma digits_of_string_encoded (z : nat) (ds : list N) :
  Forall (λ d, (d < 58)%N) ds →
  Sample.digits_of_string
    (replicate z "1"%char ++ map (Sample.ascii_of_digit Sample.alphabet) ds)
  = Ok (replicate z 0%N ++ ds).
Proof.
  intros Hds. induction z as [|z IH]; simpl.
  - induction Hds as [|d ds Hd _ IH]; [reflexivity|]. simpl.
    now rewrite digit_of_ascii_of_digit, IH.
  - change (Sample.digit_of_ascii "1") with (Some 0%N). now rewrite IH.
Qed.

(** Decoding undoes encoding on every byte sequence. *)
Lemma Base58_roundtrip (b : bytes) :
  Sample.Base58_decode (Sample.Base58_encode b) = Ok b.
Proof.
  destruct (leading_zero_bytes b) as (b' & Hb & Hhead).
  set (z := Sample.leading Sample.is_zero b) in *.
  set (x := Sample.number 256 (map Byte.to_N b)).
  assert (Hnormal : normal_digits 256 (map Byte.to_N b')).
  { split; [|exact Hhead]. apply Forall_map, Forall_forall. intros y _. simpl.
    pose proof (Byte.to_N_bounded y). lia. }
  assert (Hx : x = Sample.number 256 (map Byte.to_N b')).
  { unfold x. rewrite Hb at 1. rewrite map_app, map_replicate.
    change (Byte.to_N x00) with 0%N. apply number_leading_zeros. }
  assert (Hlen : length b' ≤ length b)
    by (rewrite Hb, length_app; lia).
  assert (Hbound : (x < 58 ^ N.of_nat (2 * length b))%N).
  { apply N.lt_le_trans with (256 ^ N.of_nat (length b))%N.
    - destruct (decide (b' = [])) as [E|E].
      + rewrite Hx, E. unfold Sample.number. simpl.
        apply N.neq_0_lt_0, N.pow_nonzero. lia.
      + assert (Hne : map Byte.to_N b' ≠ [])
          by (intros H; now apply map_eq_nil in H).
        pose proof (number_bounds 256 ltac:(lia) _ Hnormal Hne) as [_ Hhi].
        rewrite length_map in Hhi. rewrite Hx.
        apply N.lt_le_trans with (1 := Hhi).
        apply N.pow_le_mono_r; lia.
    - rewrite Nat2N.inj_mul, N.pow_mul_r. apply N.pow_le_mono_l.
      vm_compute. discriminate. }
  destruct (digits_of_normal 58 ltac:(lia) _ _ Hbound) as (ds & Hds & Hn58 & Hnum).
  unfold Sample.Base58_encode, Sample.Base58_decode. fold z. fold x.
  rewrite Hds, app_nil_r, String.list_ascii_of_string_of_list_ascii.
  destruct Hn58 as [Hall58 Hhead58].
  rewrite digits_of_string_encoded by exact Hall58.
  rewrite number_leading_zeros by lia. rewrite Hnum.
  rewrite leading_replicate.
  2:{ reflexivity. }
  2:{ destruct ds as [|d ds]; [exact I|].
      apply Forall_cons in Hall58 as [Hd _].
      change (Ascii.eqb "1" (Sample.ascii_of_digit Sample.alphabet d) = false).
      apply Ascii.eqb_neq. intros E. symmetry in E.
      apply ascii_of_digit_one in E; [|exact Hd].
      subst d. now destruct Hhead58. }
  rewrite Hx, (digits_of_number 256 ltac:(lia) _ Hnormal).
  - rewrite app_nil_r, map_map.
    rewrite (map_ext _ id) by (intros y; apply byte_of_to_N).
    rewrite map_id. now rewrite <- Hb.
  - rewrite length_map, length_app, length_replicate, length_map.
    destruct (decide (b' = [])) as [E|E]; [rewrite E; simpl; lia|].
    assert (Hne : map Byte.to_N b' ≠ [])
      by (intros H; now apply map_eq_nil in H).
    pose proof (number_bounds 256 ltac:(lia) _ Hnormal Hne) as [Hlo _].
    rewrite length_map, <- Hx in Hlo.
    assert (Hds_ne : ds ≠ []).
    { intros ->. unfold Sample.number in Hnum. simpl in Hnum.
      assert (0 < 256 ^ N.of_nat (length b' - 1))%N
        by (apply N.neq_0_lt_0, N.pow_nonzero; lia). lia. }
    pose proof (number_bounds 58 ltac:(lia) _ (conj Hall58 Hhead58) Hds_ne) as [_ Hhi].
    rewrite Hnum in Hhi.
    assert (Hpow : (58 ^ N.of_nat (length b' - 1) < 58 ^ N.of_nat (length ds))%N).
    { apply N.le_lt_trans with (256 ^ N.of_nat (length b' - 1))%N; [|lia].
      apply N.pow_le_mono_l. lia. }
    apply N.pow_lt_mono_r_iff in Hpow; lia.
Qed.

Lemma Base58_encode_nonempty (b : bytes) :
  b ≠ [] → Sample.Base58_encode b ≠ "".
Proof.
  intros Hb E.
  pose proof (Base58_roundtrip b) as Hrt. rewrite E in Hrt.
  vm_compute in Hrt. congruence.
Qed.

Lemma b58_ok_sample (b : bytes) : b58_ok Sample.runtime b.
Proof. split; [apply Base58_roundtrip|apply Base58_encode_nonempty]. Qed.

(** ** The module at work in the sample runtime *)

Ltac evaluate :=
  intros;
  repeat match goal with |- _ ∧ _ => split end;
  vm_compute; reflexivity.

Lemma manager0_constructed :
  new_KeyManager Sample.runtime (PString "correct-horse") Sample.world0
  = (Ok Sample.manager0, Sample.world1).
Proof. vm_compute. reflexivity. Defined.

(** The record the sample instance holds, and the outside calls its
    construction made: three draws of entropy, then derivation,
    encryption and MAC for [marshal], then derivation, MAC and
    decryption for [recover]. *)
Lemma manager0_record :
  keyStorage Sample.manager0
  = keystore (VStr "AyGujnudxezLvSzPdKWQbALtvpj3BS2Yv4bY2snvh3qE")
             (VStr "aes-256-ctr")
             (VStr "6TMykvDrw44cHcfApfxKMwVz9jkpGy6mkFFy3YxQSM3t")
             (VStr "9EsyJASgZqZA2EgST4qLgA")
             (VStr "7ZjS8SkYb2AATd5k332sd9Z24yXLBjff3tGGoj1wg5W1")
             (VStr "scrypt")
             (VStr "74bRP2wpYmgMN4s3AdZHtuZ1cwiy3p25ygtY5oqUU8zv")
  ∧ sk Sample.manager0 = VBuf (privateKey Sample.keyObject0)
  ∧ calls Sample.world1
    = [EvRandomBytes 80; EvRandomBytes 80; EvRandomBytes 48;
       EvScrypt; EvCipher "aes-256-ctr"; EvKeccak;
       EvScrypt; EvKeccak; EvDecipher "aes-256-ctr"].
Proof. evaluate. Qed.

Lemma derivedKey0_derived :
  deriveKey Sample.runtime (VStr "correct-horse")
            (VBuf (salt Sample.keyObject0)) (scrypt defaultOptions) Sample.world0
  = (Ok Sample.derivedKey0, log EvScrypt Sample.world0).
Proof. vm_compute. reflexivity. Defined.

Lemma ciphertext0_encrypted :
  encrypt Sample.runtime (VBuf (privateKey Sample.keyObject0))
          (VBuf Sample.derivedKey0) (VBuf (iv Sample.keyObject0))
          (VStr "aes-256-ctr") (log EvScrypt Sample.world0)
  = (Ok Sample.ciphertext0,
     log (EvCipher "aes-256-ctr") (log EvScrypt Sample.world0)).
Proof. vm_compute. reflexivity. Defined.

(** Witness of C6: the sample derived key has 32 bytes. *)
Lemma getMAC_definition_witness :
  ∃ half : bytes,
    length half = 16
    ∧ (∀ i, i < 16 → half !! i = Sample.derivedKey0 !! (16 + i))
    ∧ getMAC Sample.runtime (VBuf Sample.derivedKey0) (VBuf Sample.ciphertext0)
             Sample.world0
      = (Ok (VBuf (keccak256 Sample.runtime (half ++ Sample.ciphertext0))),
         log EvKeccak Sample.world0).
Proof.
  apply (getMAC_definition Sample.runtime Sample.derivedKey0 Sample.ciphertext0
           Sample.world0).
  vm_compute. lia.
Defined.

(** Witness of C4: the sample instance, locked, unlocks with its
    password. *)
Lemma unlockKey_semantics_witness :
  unlockKey "correct-horse" (set_isLocked true Sample.manager0, Sample.world1)
  = (Ok (), (set_isLocked false (set_isLocked true Sample.manager0), Sample.world1))
  ∧ isLocked (set_isLocked false (set_isLocked true Sample.manager0)) = false.
Proof.
  apply (proj1 (unlockKey_semantics (set_isLocked true Sample.manager0)
                  Sample.world1 "correct-horse")).
  - reflexivity.
  - vm_compute. reflexivity.
Defined.


(** After locking and unlocking again, the sample instance signs
    "hello": the signature function returns a 64-byte signature. *)
Lemma sign_after_unlock_example :
  ∃ signature w',
    sign Sample.runtime "hello" (Sample.manager0, Sample.world1)
    = (Ok signature, (Sample.manager0, w'))
    ∧ length signature = 64.
Proof. eexists _, _. split; vm_compute; reflexivity. Qed.

(** Witness of C10: the password "correct-horse". *)
Lemma bare_string_construction_witness :
  new_KeyManager Sample.runtime (PString "correct-horse") Sample.world0
  = new_KeyManager Sample.runtime (PObject (VStr "correct-horse") None None)
                   Sample.world0
  ∧ new_KeyManager Sample.runtime (PString "correct-horse") Sample.world0
    = match generateKey Sample.runtime (VStr "correct-horse")
              (initialised defaultOptions, Sample.world0) with
      | (Ok _, (km, w')) => (Ok km, w')
      | (Throw e, (_, w')) => (Throw e, w')
      end
  ∧ ∀ km w',
      new_KeyManager Sample.runtime (PString "correct-horse") Sample.world0
      = (Ok km, w') →
      isLocked km = false
      ∧ password km = VStr "correct-horse"
      ∧ constants km = defaultOptions.
Proof.
  apply (bare_string_construction Sample.runtime "correct-horse" Sample.world0).
  discriminate.
Defined.

(** C10 fails at the empty string: the object [{password: ""}] is
    rejected by the constructor's password check, while the bare string
    [""] passes it and yields an unlocked instance whose password is the
    empty string. *)
Lemma bare_empty_string_counterexample :
  new_KeyManager Sample.runtime (PObject (VStr "") None None) Sample.world0
  = (Throw (JsError "A password must be provided at initialization"), Sample.world0)
  ∧ ∃ km w',
      new_KeyManager Sample.runtime (PString "") Sample.world0 = (Ok km, w')
      ∧ isLocked km = false
      ∧ password km = VStr "".
Proof.
  split; [reflexivity|].
  destruct (new_KeyManager Sample.runtime (PString "") Sample.world0)
    as [[km|e] w'] eqn:E.
  - exists km, w'. split; [reflexivity|].
    apply new_KeyManager_Ok in E as (Hl & Hp & _). now split.
  - exfalso. vm_compute in E. discriminate.
Qed.

(** Witness of C1: the sample key object under "correct-horse". *)
Lemma recover_marshal_roundtrip_witness :
  ∃ ks,
    marshal Sample.runtime Sample.derivedKey0 Sample.keyObject0
            (salt Sample.keyObject0) (iv Sample.keyObject0) "aes-256-ctr"
            (log EvScrypt Sample.world0)
    = (Ok ks, log EvKeccak
                (log (EvCipher "aes-256-ctr") (log EvScrypt Sample.world0)))
    ∧ ∀ w, ∃ w',
        recover Sample.runtime (VStr "correct-horse") ks (scrypt defaultOptions) w
        = (Ok (privateKey Sample.keyObject0), w').
Proof.
  apply (recover_marshal_roundtrip Sample.runtime (VStr "correct-horse")
           Sample.keyObject0 (salt Sample.keyObject0) (iv Sample.keyObject0)
           "aes-256-ctr" (scrypt defaultOptions)
           Sample.derivedKey0 Sample.ciphertext0
           Sample.world0 (log EvScrypt Sample.world0)
           (log (EvCipher "aes-256-ctr") (log EvScrypt Sample.world0))).
  - vm_compute. discriminate.
  - vm_compute. discriminate.
  - vm_compute. discriminate.
  - repeat (apply Forall_cons_2; [apply b58_ok_sample|]). apply Forall_nil_2.
  - eexists. split; vm_compute; reflexivity.
  - exact derivedKey0_derived.
  - exact ciphertext0_encrypted.
Defined.

(** C1 fails at the empty salt: key derivation accepts an empty Buffer
    and [marshal] produces a record, but the record's [kdfSalt] is then
    the empty string, which [recover] hands to [deriveKey] as it is, and
    [deriveKey] rejects it.  It fails likewise at an empty private key:
    the ciphertext is empty, [cipherText] is the empty string, and the
    MAC computation in [recover] throws. *)
Lemma roundtrip_empty_salt_counterexample :
  (deriveKey Sample.runtime (VStr "correct-horse") (VBuf [])
             (scrypt defaultOptions) Sample.world0
   = (Ok Sample.derivedKey_unsalted, log EvScrypt Sample.world0)
   ∧ marshal Sample.runtime Sample.derivedKey_unsalted Sample.keyObject0 []
             (iv Sample.keyObject0) "aes-256-ctr" Sample.world0
     = (Ok Sample.record_unsalted,
        log EvKeccak (log (EvCipher "aes-256-ctr") Sample.world0))
   ∧ crypto_field Sample.record_unsalted "kdfSalt" = Ok (VStr "")
   ∧ recover Sample.runtime (VStr "correct-horse") Sample.record_unsalted
             (scrypt defaultOptions) Sample.world0
     = (Throw (JsError "Must provide password and salt to derive a key"),
        Sample.world0))
  ∧ (marshal Sample.runtime Sample.derivedKey0 Sample.keyObject_empty
             (salt Sample.keyObject0) (iv Sample.keyObject0) "aes-256-ctr"
             Sample.world0
     = (Ok Sample.record_empty_key,
        log EvKeccak (log (EvCipher "aes-256-ctr") Sample.world0))
     ∧ crypto_field Sample.record_empty_key "cipherText" = Ok (VStr "")
     ∧ recover Sample.runtime (VStr "correct-horse") Sample.record_empty_key
               (scrypt defaultOptions) Sample.world0
       = (Throw (JsTypeError
            "The list argument must be an instance of Buffer or Uint8Array"),
          log EvScrypt Sample.world0)).
Proof. evaluate. Qed.

(** Witness of C2: the sample record under a wrong password. *)
Lemma recover_mac_gate_witness :
  let run := recover Sample.runtime (VStr "wrong-horse")
               (keyStorage Sample.manager0) (scrypt defaultOptions) Sample.world0 in
  ∃ evs, calls (snd run) = calls Sample.world0 ++ evs ∧
    (((∃ e, fst run = Throw e) ∧ (EvKeccak ∉ evs) ∧ no_decipher evs)
     ∨ ∃ saltv ctv macv dk m w1,
         decoded_field Sample.runtime (keyStorage Sample.manager0) "kdfSalt" = Ok saltv
         ∧ decoded_field Sample.runtime (keyStorage Sample.manager0) "cipherText" = Ok ctv
         ∧ decoded_field Sample.runtime (keyStorage Sample.manager0) "mac" = Ok macv
         ∧ deriveKey Sample.runtime (VStr "wrong-horse") saltv
                     (scrypt defaultOptions) Sample.world0 = (Ok dk, w1)
         ∧ getMAC Sample.runtime (VBuf dk) ctv w1 = (Ok (VBuf m), log EvKeccak w1)
         ∧ match macv with
           | VBuf stored =>
               if bool_decide (m = stored)
               then ∃ ivv algo,
                      decrypt Sample.runtime ctv (VBuf dk) ivv algo (log EvKeccak w1)
                      = (fst run, snd run)
               else fst run = Throw (JsError "message authentication code mismatch")
                    ∧ snd run = log EvKeccak w1 ∧ no_decipher evs
           | _ => (∃ msg, fst run = Throw (JsTypeError msg))
                  ∧ snd run = log EvKeccak w1 ∧ no_decipher evs
           end).
Proof.
  intros run.
  apply (recover_mac_gate Sample.runtime (VStr "wrong-horse")
           (keyStorage Sample.manager0) (scrypt defaultOptions)
           Sample.world0 (snd run) (fst run)).
  apply surjective_pairing.
Defined.

(** The sample record is rejected under a wrong password, and after one
    byte of its ciphertext or of its mac is changed, with the message
    "message authentication code mismatch" and without any decipher. *)
Lemma tampering_rejected_example :
  let mismatch := Throw (JsError "message authentication code mismatch") in
  let kdf := scrypt defaultOptions in
  let record ct mac :=
    keystore (VStr (Sample.Base58_encode (publicKey Sample.keyObject0)))
             (VStr "aes-256-ctr") (VStr (Sample.Base58_encode ct))
             (VStr (Sample.Base58_encode (iv Sample.keyObject0)))
             (VStr (Sample.Base58_encode mac)) (VStr "scrypt")
             (VStr (Sample.Base58_encode (salt Sample.keyObject0))) in
  let mac0 := keccak256 Sample.runtime
                (mac_input Sample.derivedKey0 Sample.ciphertext0) in
  let flip (b : bytes) := <[3 := "!"%byte]> b in
  keyStorage Sample.manager0 = record Sample.ciphertext0 mac0
  ∧ recover Sample.runtime (VStr "wrong-horse") (record Sample.ciphertext0 mac0)
            kdf Sample.world0
    = (mismatch, log EvKeccak (log EvScrypt Sample.world0))
  ∧ recover Sample.runtime (VStr "correct-horse")
            (record (flip Sample.ciphertext0) mac0) kdf Sample.world0
    = (mismatch, log EvKeccak (log EvScrypt Sample.world0))
  ∧ recover Sample.runtime (VStr "correct-horse")
            (record Sample.ciphertext0 (flip mac0)) kdf Sample.world0
    = (mismatch, log EvKeccak (log EvScrypt Sample.world0)).
Proof. evaluate. Qed.

(** C2 fails at an empty [mac]: the MAC is recomputed and differs from
    the stored one, yet what is thrown is a [TypeError] from the
    comparison, not "message authentication code mismatch".  Still no
    decipher is created. *)
Lemma empty_mac_counterexample :
  ∃ message,
    recover Sample.runtime (VStr "correct-horse") Sample.record_without_mac
            (scrypt defaultOptions) Sample.world0
    = (Throw (JsTypeError message), log EvKeccak (log EvScrypt Sample.world0))
    ∧ crypto_field Sample.record_without_mac "mac" = Ok (VStr "")
    ∧ fst (recover Sample.runtime (VStr "correct-horse") Sample.record_without_mac
             (scrypt defaultOptions) Sample.world0)
      ≠ Throw (JsError "message authentication code mismatch").
Proof.
  eexists. split; [vm_compute; reflexivity|]. split; [reflexivity|].
  vm_compute. discriminate.
Qed.

(** Witness of C3: importing the file the sample instance exported. *)
Lemma import_all_or_nothing_witness :
  let kdf := scrypt (default defaultOptions None) in
  let w0 := log (EvReadFile Sample.exported_path) Sample.world2 in
  match new_KeyManager Sample.runtime
          (PObject (VStr "correct-horse") (Some Sample.exported_path) None)
          Sample.world2 with
  | (Ok km, w') =>
      ∃ data, fs Sample.world2 !! Sample.exported_path = Some data
        ∧ JSON_parse Sample.runtime data = Ok (keyStorage km)
        ∧ get_prop (keyStorage km) "publicKeyId" = Ok (pk km)
        ∧ isLocked km = false
        ∧ password km = VStr "correct-horse"
        ∧ (if truthy (pk km)
           then ∃ key, sk km = VBuf key
                       ∧ recover Sample.runtime (VStr "correct-horse")
                                 (keyStorage km) kdf w0 = (Ok key, w')
           else sk km = VUndef ∧ w' = w0)
  | (Throw e, w') =>
      ∃ err, e = JsError ("Error importing keyfile - " +:+ exn_toString err)
        ∧ (fs Sample.world2 !! Sample.exported_path = None
           ∨ ∃ data, fs Sample.world2 !! Sample.exported_path = Some data
               ∧ (JSON_parse Sample.runtime data = Throw err
                  ∨ ∃ ks, JSON_parse Sample.runtime data = Ok ks
                      ∧ (get_prop ks "publicKeyId" = Throw err
                         ∨ ∃ id, get_prop ks "publicKeyId" = Ok id
                             ∧ truthy id = true
                             ∧ recover Sample.runtime (VStr "correct-horse") ks kdf w0
                               = (Throw err, w'))))
  end.
Proof.
  apply (import_all_or_nothing Sample.runtime (VStr "correct-horse")
           Sample.exported_path None Sample.world2).
  - reflexivity.
  - vm_compute. discriminate.
Defined.

(** Export followed by import: with the right password the imported
    instance equals the exporting one; with a wrong password the
    constructor throws. *)
Lemma export_import_example :
  exportToFile Sample.runtime None (Sample.manager0, Sample.world1)
  = (Ok Sample.exported_path, (Sample.manager0, Sample.world2))
  ∧ fst (new_KeyManager Sample.runtime
           (PObject (VStr "correct-horse") (Some Sample.exported_path) None)
           Sample.world2)
    = Ok Sample.manager0
  ∧ fst (new_KeyManager Sample.runtime
           (PObject (VStr "wrong-horse") (Some Sample.exported_path) None)
           Sample.world2)
    = Throw (JsError
        "Error importing keyfile - Error: message authentication code mismatch").
Proof. evaluate. Qed.

(** C3 fails at a record whose [publicKeyId] is empty: the constructor
    returns an unlocked instance that holds no private key, having only
    read the file.  The record's MAC does not verify under the password
    ([recover] would throw), but it is never checked. *)
Lemma import_unkeyed_counterexample :
  new_KeyManager Sample.runtime
    (PObject (VStr "correct-horse") (Some "key.json") None) Sample.world_unkeyed
  = (Ok Sample.unkeyed_manager, log (EvReadFile "key.json") Sample.world_unkeyed)
  ∧ sk Sample.unkeyed_manager = VUndef
  ∧ isLocked Sample.unkeyed_manager = false
  ∧ fst (recover Sample.runtime (VStr "correct-horse")
           (keyStorage Sample.unkeyed_manager) (scrypt defaultOptions)
           Sample.world_unkeyed)
    = Throw (JsError "message authentication code mismatch").
Proof.
  split; [vm_compute; reflexivity|]. split; [reflexivity|]. split; [reflexivity|].
  vm_compute. reflexivity.
Qed.

(** Witness of C7: the record the sample instance holds is the one its
    export wrote. *)
Lemma marshal_record_layout_witness :
  fs Sample.world2 !! Sample.exported_path
  = Some (JSON_stringify Sample.runtime (keyStorage Sample.manager0)).
Proof.
  apply (proj2 (proj2 (marshal_record_layout Sample.runtime [] Sample.keyObject0
                         [] [] "" Sample.world0))
           None Sample.manager0 Sample.manager0 Sample.world1 Sample.world2
           Sample.exported_path).
  vm_compute. reflexivity.
Defined.

(** C7 fails on the layout: the sample record, which [marshal] made,
    has the two top-level properties [publicKeyId] and [crypto], not the
    seven fields of the data model, and no property named [cipherIv]
    occurs in it at any depth (the IV is [crypto.cipherParams.iv]). *)
Lemma flat_record_counterexample :
  marshal Sample.runtime Sample.derivedKey0 Sample.keyObject0
          (salt Sample.keyObject0) (iv Sample.keyObject0) "aes-256-ctr"
          (log EvScrypt Sample.world0)
  = (Ok (keyStorage Sample.manager0),
     log EvKeccak (log (EvCipher "aes-256-ctr") (log EvScrypt Sample.world0)))
  ∧ object_keys (keyStorage Sample.manager0) = ["publicKeyId"; "crypto"]
  ∧ ¬ (object_keys (keyStorage Sample.manager0) ≡ₚ KeystoreRecord_fields)
  ∧ all_keys (keyStorage Sample.manager0)
    = ["publicKeyId"; "crypto"; "cipher"; "cipherText"; "cipherParams"; "iv";
       "mac"; "kdf"; "kdfSalt"]
  ∧ "cipherIv" ∉ all_keys (keyStorage Sample.manager0).
Proof.
  split; [vm_compute; reflexivity|]. split; [vm_compute; reflexivity|].
  split; [|split; [vm_compute; reflexivity|]].
  - intros Hperm. apply Permutation_length in Hperm. vm_compute in Hperm.
    discriminate.
  - vm_compute. intros Ha.
    repeat (apply elem_of_cons in Ha as [Ha|Ha]; [discriminate Ha|]).
    now apply elem_of_nil in Ha.
Qed.



(** ** What touches the world *)

Lemma extend_nil (w : World) : extend [] w = w.
Proof. destruct w. unfold extend. simpl. now rewrite app_nil_r. Qed.

Lemma extend_extend (evs evs' : list event) (w : World) :
  extend evs' (extend evs w) = extend (evs ++ evs') w.
Proof. unfold extend. simpl. now rewrite app_assoc. Qed.

Lemma crypto_only_of_result {A} (r : result A) : crypto_only (of_result r).
Proof.
  exists r, []. split; [reflexivity|]. intros w. unfold of_result.
  now rewrite extend_nil.
Qed.

Lemma crypto_only_ret {A} (a : A) : crypto_only (mret a : M A).
Proof. apply (crypto_only_of_result (Ok a)). Qed.

Lemma crypto_only_throw {A} (e : exn) : crypto_only (throw e : M A).
Proof. apply (crypto_only_of_result (Throw e)). Qed.

Lemma crypto_only_emit {A} (e : event) (r : result A) :
  is_crypto e = true → crypto_only (emit e r).
Proof.
  intros He. exists r, [e]. split; [simpl; now rewrite He|]. reflexivity.
Qed.

Lemma crypto_only_bind {A B} (m : M A) (k : A → M B) :
  crypto_only m → (∀ a, crypto_only (k a)) → crypto_only (m ≫= k).
Proof.
  intros (res & evs & Hevs & Hm) Hk. destruct res as [a|e].
  - destruct (Hk a) as (res' & evs' & Hevs' & Hka).
    exists res', (evs ++ evs'). split.
    + rewrite forallb_app, Hevs, Hevs'. reflexivity.
    + intros w. unfold mbind, SE_bind. rewrite Hm, Hka. now rewrite extend_extend.
  - exists (Throw e), evs. split; [exact Hevs|].
    intros w. unfold mbind, SE_bind. now rewrite Hm.
Qed.

Ltac crypto_only_step :=
  first
    [ apply crypto_only_of_result
    | apply crypto_only_ret
    | apply crypto_only_throw
    | apply crypto_only_emit; reflexivity
    | apply crypto_only_bind; [|intros ?] ].

Lemma crypto_only_encrypt (R : Runtime) (pt key iv algo : value) :
  crypto_only (encrypt R pt key iv algo).
Proof.
  unfold encrypt, crypto_createCipheriv, update_final.
  destruct (negb (isCipherAvailable R algo)); repeat crypto_only_step.
Qed.

Lemma crypto_only_decrypt (R : Runtime) (ct key iv algo : value) :
  crypto_only (decrypt R ct key iv algo).
Proof.
  unfold decrypt, crypto_createDecipheriv, update_final.
  destruct (negb (isCipherAvailable R algo)); repeat crypto_only_step.
Qed.

Lemma crypto_only_getMAC (R : Runtime) (dk ct : value) :
  crypto_only (getMAC R dk ct).
Proof.
  unfold getMAC. destruct (defined dk && defined ct); repeat crypto_only_step.
Qed.

Lemma crypto_only_deriveKey (R : Runtime) (pw saltv : value) (kdf : KdfParams) :
  crypto_only (deriveKey R pw saltv kdf).
Proof.
  unfold deriveKey, crypto_scryptSync.
  destruct (negb (defined pw) || negb (truthy saltv)); repeat crypto_only_step.
Qed.

Lemma crypto_only_marshal (R : Runtime) (dk : bytes) (ko : KeyObject)
    (salt0 iv0 : bytes) (algo : string) :
  crypto_only (marshal R dk ko salt0 iv0 algo).
Proof.
  unfold marshal.
  apply crypto_only_bind; [apply crypto_only_encrypt|intros ct].
  apply crypto_only_bind; [apply crypto_only_getMAC|intros mac].
  apply crypto_only_bind; [|intros mac58; apply crypto_only_ret].
  unfold Base58_encode_value. destruct mac; crypto_only_step.
Qed.

Lemma crypto_only_dump (R : Runtime) (pw : value) (ko : KeyObject) (c : Options) :
  crypto_only (dump R pw ko c).
Proof.
  unfold dump.
  apply crypto_only_bind; [apply crypto_only_deriveKey|intros dk].
  apply crypto_only_marshal.
Qed.

Lemma crypto_only_verifyAndDecrypt (R : Runtime) (dk : bytes)
    (ivv ctv macv algo : value) :
  crypto_only (verifyAndDecrypt R dk ivv ctv macv algo).
Proof.
  unfold verifyAndDecrypt.
  apply crypto_only_bind; [apply crypto_only_getMAC|intros m].
  apply crypto_only_bind; [apply crypto_only_of_result|intros same].
  destruct (negb same); [apply crypto_only_throw|apply crypto_only_decrypt].
Qed.

Lemma crypto_only_recover (R : Runtime) (pw ks : value) (kdf : KdfParams) :
  crypto_only (recover R pw ks kdf).
Proof.
  unfold recover.
  do 11 (apply crypto_only_bind; [apply crypto_only_of_result|intros ?]).
  apply crypto_only_bind; [apply crypto_only_deriveKey|intros dk].
  apply crypto_only_verifyAndDecrypt.
Qed.

(** The result of a [crypto_only] computation is the same in every
    world. *)
Lemma crypto_only_result {A} (m : M A) (w w' : World) :
  crypto_only m → fst (m w) = fst (m w').
Proof. intros (res & evs & _ & Hm). now rewrite !Hm. Qed.

Lemma crypto_only_world {A} (m : M A) (w : World) :
  crypto_only m →
  ∃ evs, forallb is_crypto evs = true ∧ snd (m w) = extend evs w.
Proof. intros (res & evs & Hevs & Hm). exists evs. now rewrite Hm. Qed.

(** X1. Apart from [create] and [generateKeystoreFilename], the generic
    key methods are functions of their arguments: [encrypt], [decrypt],
    [getMAC], [deriveKey], [marshal], [dump] and [recover] give the same
    result and make the same outside calls in every world, call nothing
    but the crypto provider (they draw no entropy and touch no file) and
    leave the file system, the clock and the entropy source as they
    were. *)
Theorem key_methods_call_crypto_only (R : Runtime) (a b c d : value)
    (kdf : KdfParams) (derivedKey salt0 iv0 : bytes) (keyObject : KeyObject)
    (algo : string) (options : Options) :
  crypto_only (encrypt R a b c d)
  ∧ crypto_only (decrypt R a b c d)
  ∧ crypto_only (getMAC R a b)
  ∧ crypto_only (deriveKey R a b kdf)
  ∧ crypto_only (marshal R derivedKey keyObject salt0 iv0 algo)
  ∧ crypto_only (dump R a keyObject options)
  ∧ crypto_only (recover R a b kdf).
Proof.
  split; [apply crypto_only_encrypt|]. split; [apply crypto_only_decrypt|].
  split; [apply crypto_only_getMAC|]. split; [apply crypto_only_deriveKey|].
  split; [apply crypto_only_marshal|]. split; [apply crypto_only_dump|].
  apply crypto_only_recover.
Qed.

(** ** What a constructed instance holds *)

Lemma initialised_invariant (R : Runtime) (ks pw : value) (c : Options)
    (km : KeyManager) (w w' : World) (u : ()) :
  initKeyStorage R ks pw (initialised c, w) = (Ok u, (km, w')) →
  get_prop (keyStorage km) "publicKeyId" = Ok (pk km)
  ∧ isLocked km = false
  ∧ password km = pw
  ∧ keyStorage km = ks
  ∧ constants km = c
  ∧ if truthy (pk km)
    then ∃ key, sk km = VBuf key
                ∧ recover R pw ks (scrypt c) w = (Ok key, w')
    else sk km = VUndef.
Proof.
  intros H. apply initKeyStorage_Ok in H as (Hl & Hp & Hks & Hc & Hid & Hsk).
  rewrite Hks. repeat split; try assumption.
  destruct (truthy (pk km)); [exact Hsk|]. now destruct Hsk as [-> _].
Qed.

Lemma constructed_invariant (R : Runtime) (params : Params) (km : KeyManager)
    (w w' : World) :
  new_KeyManager R params w = (Ok km, w') →
  get_prop (keyStorage km) "publicKeyId" = Ok (pk km)
  ∧ isLocked km = false
  ∧ if truthy (pk km)
    then ∃ key w1 w2,
           sk km = VBuf key
           ∧ recover R (password km) (keyStorage km) (scrypt (constants km)) w1
             = (Ok key, w2)
    else sk km = VUndef.
Proof.
  rewrite new_KeyManager_eq.
  destruct (password_missing params); [discriminate|]. simpl.
  assert (Hinit : ∀ ks pw c w0 u km0 w1,
    initKeyStorage R ks pw (initialised c, w0) = (Ok u, (km0, w1)) →
    get_prop (keyStorage km0) "publicKeyId" = Ok (pk km0)
    ∧ isLocked km0 = false
    ∧ if truthy (pk km0)
      then ∃ key wa wb,
             sk km0 = VBuf key
             ∧ recover R (password km0) (keyStorage km0) (scrypt (constants km0)) wa
               = (Ok key, wb)
      else sk km0 = VUndef).
  { intros ks pw c w0 u km0 w1 H.
    apply initialised_invariant in H as (Hid & Hl & Hp & Hks & Hc & Hsk).
    split; [exact Hid|]. split; [exact Hl|].
    destruct (truthy (pk km0)); [|exact Hsk].
    destruct Hsk as (key & Hkey & Hrec). exists key, w0, w1.
    now rewrite Hp, Hks, Hc. }
  destruct (truthy_path (params_keyPath params)).
  - rewrite importFromFile_eq.
    destruct (fs w !! _) as [data|]; [|discriminate].
    destruct (JSON_parse R data) as [ks|e]; [|discriminate].
    destruct (initKeyStorage R ks _ _) as [[u|e] [km0 w1]] eqn:E; [|discriminate].
    intros [= <- <-]. now apply Hinit in E.
  - rewrite generateKey_eq. simpl.
    destruct (create R _ w) as [[ko|e] w1]; [|discriminate].
    destruct (dump R _ ko _ w1) as [[ks|e] w2]; [|discriminate].
    destruct (initKeyStorage R ks _ _) as [[u|e] [km0 w3]] eqn:E; [|discriminate].
    intros [= <- <-]. now apply Hinit in E.
Qed.

(** X2. Every instance the constructor returns is consistent: its public
    key is the record's [publicKeyId], and when that is truthy the
    private key it holds is what [recover] returns, in any world, from
    the record it holds under the password it holds and the scrypt
    parameters of its constants.  Otherwise it holds no private key. *)
Theorem constructed_record_opens (R : Runtime) (params : Params)
    (km : KeyManager) (w w' : World) :
  new_KeyManager R params w = (Ok km, w') →
  get_prop (keyStorage km) "publicKeyId" = Ok (pk km)
  ∧ if truthy (pk km)
    then ∃ key, sk km = VBuf key
           ∧ ∀ w2, fst (recover R (password km) (keyStorage km)
                          (scrypt (constants km)) w2) = Ok key
    else sk km = VUndef.
Proof.
  intros H. apply constructed_invariant in H as (Hid & _ & Hsk).
  split; [exact Hid|].
  destruct (truthy (pk km)); [|exact Hsk].
  destruct Hsk as (key & w1 & w2 & Hkey & Hrec). exists key. split; [exact Hkey|].
  intros w3.
  rewrite (crypto_only_result _ w3 w1) by apply crypto_only_recover.
  now rewrite Hrec.
Qed.

(** ** What construction does to the world *)

Lemma initKeyStorage_world (R : Runtime) (ks pw : value) (km : KeyManager)
    (w : World) :
  ∃ evs, forallb is_crypto evs = true
         ∧ snd (snd (initKeyStorage R ks pw (km, w))) = extend evs w.
Proof.
  rewrite initKeyStorage_eq.
  assert (Hnil : ∃ evs, forallb is_crypto evs = true ∧ w = extend evs w)
    by (exists []; now rewrite extend_nil).
  destruct (get_prop ks "publicKeyId") as [id|e]; [|exact Hnil].
  simpl. destruct (truthy id); [|exact Hnil].
  destruct (crypto_only_world (recover R pw ks (scrypt (constants km))) w
              (crypto_only_recover R _ _ _)) as (evs & Hevs & Hw).
  exists evs. split; [exact Hevs|].
  destruct (recover R pw ks (scrypt (constants km)) w) as [[key|e] w1]; exact Hw.
Qed.

Lemma forallb_impl {A} (f g : A → bool) (l : list A) :
  (∀ x, f x = true → g x = true) → forallb f l = true → forallb g l = true.
Proof.
  intros Hfg. induction l as [|x l IH]; [reflexivity|]. simpl.
  intros H. apply andb_prop in H as [Hx Hl]. now rewrite (Hfg x Hx), IH.
Qed.

(** The world [new KeyManager] leaves, with [create] as it is embedded
    (every draw of entropy returns). *)
Lemma new_KeyManager_world (R : Runtime) (params : Params) (w : World) :
  let w' := snd (new_KeyManager R params w) in
  fs w' = fs w ∧ unwritable w' = unwritable w ∧ now w' = now w
  ∧ ∃ evs, calls w' = calls w ++ evs
      ∧ if truthy_path (params_keyPath params)
        then seed w' = seed w
             ∧ forallb (λ e, is_crypto e
                  || bool_decide (e = EvReadFile (default "" (params_keyPath params))))
                 evs = true
        else seed w' = (if password_missing params then 0 else 3) + seed w
             ∧ forallb (λ e, is_crypto e
                  || match e with EvRandomBytes _ => true | _ => false end)
                 evs = true.
Proof.
  intros w'. subst w'. rewrite new_KeyManager_eq.
  destruct (password_missing params).
  { simpl. repeat split. exists []. rewrite app_nil_r. split; [reflexivity|].
    destruct (truthy_path _); now split. }
  cbv zeta.
  set (c := default defaultOptions (params_constants params)).
  destruct (truthy_path (params_keyPath params)).
  - set (path := default "" (params_keyPath params)).
    rewrite importFromFile_eq.
    assert (Hread : ∀ wr : World, wr = log (EvReadFile path) w →
      fs wr = fs w ∧ unwritable wr = unwritable w ∧ now wr = now w
      ∧ ∃ evs, calls wr = calls w ++ evs
          ∧ seed wr = seed w
          ∧ forallb (λ e, is_crypto e || bool_decide (e = EvReadFile path)) evs = true).
    { intros wr ->. repeat split. exists [EvReadFile path].
      split; [reflexivity|]. split; [reflexivity|]. simpl.
      rewrite bool_decide_eq_true_2 by reflexivity. reflexivity. }
    destruct (fs w !! path) as [data|]; [|now apply Hread].
    destruct (JSON_parse R data) as [ks|e]; [|now apply Hread].
    destruct (initKeyStorage_world R ks (params_password params) (initialised c)
                (log (EvReadFile path) w)) as (evs & Hevs & Hw).
    destruct (initKeyStorage R ks _ _) as [[u|e] [km w1]]; simpl in Hw; subst w1;
      simpl; (repeat split; exists (EvReadFile path :: evs);
        split; [now rewrite <- app_assoc|]; split; [reflexivity|]; simpl;
        rewrite bool_decide_eq_true_2 by reflexivity; simpl;
        eapply forallb_impl; [|exact Hevs]; intros x ->; reflexivity).
  - rewrite generateKey_eq. change (constants (initialised c)) with c.
    destruct (create_eq R c w) as (ko & ->).
    set (w1 := after_randomBytes _ (after_randomBytes _ (after_randomBytes _ w))).
    destruct (crypto_only_world (dump R (given_password params) ko c) w1
                (crypto_only_dump R _ _ _)) as (evs1 & Hevs1 & Hw2).
    destruct (dump R (given_password params) ko c w1) as [[ks|e] w2];
      simpl in Hw2; subst w2.
    + destruct (initKeyStorage_world R ks (given_password params) (initialised c)
                  (extend evs1 w1)) as (evs2 & Hevs2 & Hw3).
      destruct (initKeyStorage R ks _ _) as [[u|e] [km w3]]; simpl in Hw3; subst w3;
        simpl; (repeat split; eexists; split;
          [rewrite <- !app_assoc; reflexivity|]; split; [reflexivity|]; simpl;
          rewrite forallb_app; apply andb_true_intro; split;
            (eapply forallb_impl; [|eassumption]; intros x ->; reflexivity)).
    + simpl. repeat split. eexists. split; [rewrite <- !app_assoc; reflexivity|].
      split; [reflexivity|]. simpl.
      eapply forallb_impl; [|exact Hevs1]. intros x ->. reflexivity.
Qed.

(** X3. Whatever its argument and however it ends, [new KeyManager] leaves
    the file system and the clock as they were and writes no file.  With
    a key path it draws no entropy: it reads that one file and calls the
    crypto provider.  Without one it reads no file: it only draws entropy
    and calls the crypto provider; it draws nothing when the password is
    missing; and where the constants ask for sizes that
    [crypto.randomBytes] accepts (its largest draw is of
    [keyBytes + ivBytes + keyBytes] bytes) and [create] returns, exactly
    three draws have been made, all of them by [create]. *)
Theorem construction_effects (R : Runtime) (params : Params) (w : World) :
  let w' := snd (new_KeyManager R params w) in
  let c := default defaultOptions (params_constants params) in
  fs w' = fs w ∧ unwritable w' = unwritable w ∧ now w' = now w
  ∧ ∃ evs, calls w' = calls w ++ evs
      ∧ if truthy_path (params_keyPath params)
        then seed w' = seed w
             ∧ forallb (λ e, is_crypto e
                  || bool_decide (e = EvReadFile (default "" (params_keyPath params))))
                 evs = true
        else forallb (λ e, is_crypto e
                  || match e with EvRandomBytes _ => true | _ => false end)
                 evs = true
             ∧ (password_missing params = true → seed w' = seed w)
             ∧ (∀ keyObject w1,
                  password_missing params = false →
                  drawable (keyBytes c + ivBytes c + keyBytes c) →
                  create R c w = (Ok keyObject, w1) →
                  seed w1 = 3 + seed w ∧ seed w' = seed w1).
Proof.
  intros w' c.
  destruct (new_KeyManager_world R params w) as (Hfs & Hun & Hnow & evs & Hcalls & H).
  fold w' in Hfs, Hun, Hnow, Hcalls, H.
  split; [exact Hfs|]. split; [exact Hun|]. split; [exact Hnow|].
  exists evs. split; [exact Hcalls|].
  destruct (truthy_path (params_keyPath params)); [exact H|].
  destruct H as [Hseed Hevs]. split; [exact Hevs|]. split.
  - intros Hm. now rewrite Hm in Hseed.
  - intros keyObject w1 Hm _ Hcreate. rewrite Hm in Hseed.
    destruct (create_eq R c w) as (ko & Hko). rewrite Hko in Hcreate.
    injection Hcreate as _ <-. now split.
Qed.

(** ** Sequences of method calls *)

Lemma sign_frame (R : Runtime) (message : string) (km : KeyManager) (w : World) :
  fst (snd (sign R message (km, w))) = km.
Proof.
  unfold sign. run. destruct (isLocked km); simpl; [reflexivity|].
  destruct (str2buf R (sk km) None) as [key|e]; simpl; [|reflexivity].
  destruct (str2buf R (VStr message) (Some "utf8")) as [msg|e]; simpl; [|reflexivity].
  reflexivity.
Qed.

Lemma invoke_same_key (R : Runtime) (c : call) (km : KeyManager) (w : World) :
  let km' := fst (snd (invoke R c (km, w))) in
  pk km' = pk km ∧ sk km' = sk km ∧ password km' = password km
  ∧ keyStorage km' = keyStorage km ∧ constants km' = constants km.
Proof.
  unfold invoke. destruct c as [| |attempt|message|kp].
  - unfold getKeyStorage. run. destruct (isLocked km); simpl; [now repeat split|].
    destruct (truthy (pk km)); now repeat split.
  - unfold lockKey. run. now repeat split.
  - unfold mbind, SE_bind. rewrite unlockKey_eq.
    destruct (isLocked km); [|now repeat split].
    destruct (differs_from attempt (password km)); now repeat split.
  - pose proof (sign_frame R message km w) as H. unfold mbind, SE_bind.
    destruct (sign R message (km, w)) as [[sig|e] [km' w']]; simpl in H |- *;
      subst km'; now repeat split.
  - pose proof (exportToFile_frame R kp km w) as H. unfold mbind, SE_bind.
    destruct (exportToFile R kp (km, w)) as [[path|e] [km' w']]; simpl in H |- *;
      subst km'; now repeat split.
Qed.

(** X4. Whatever public methods are called on an instance, in whatever
    order and however each call ends, the public key, the private key,
    the password, the keystore record and the constants the instance
    holds stay what they were; only the lock flag can change. *)
Theorem methods_preserve_key_material (R : Runtime) (cs : list call)
    (km : KeyManager) (w : World) :
  let km' := fst (snd (run_calls R cs (km, w))) in
  pk km' = pk km ∧ sk km' = sk km ∧ password km' = password km
  ∧ keyStorage km' = keyStorage km ∧ constants km' = constants km
  ∧ length (fst (run_calls R cs (km, w))) = length cs.
Proof.
  revert km w. induction cs as [|c cs IH]; intros km w; [now repeat split|].
  simpl.
  pose proof (invoke_same_key R c km w) as (H1 & H2 & H3 & H4 & H5).
  destruct (invoke R c (km, w)) as [res [km1 w1]]. simpl in H1, H2, H3, H4, H5.
  specialize (IH km1 w1).
  destruct (run_calls R cs (km1, w1)) as [outcomes [km2 w2]].
  simpl in IH |- *. destruct IH as (I1 & I2 & I3 & I4 & I5 & I6).
  repeat split; congruence.
Qed.

Lemma locked_set (km : KeyManager) :
  isLocked km = true → set_isLocked true km = km.
Proof. destruct km; simpl; now intros ->. Qed.

(** One call on a locked instance, other than an unlock with the stored
    password. *)
Lemma invoke_locked (R : Runtime) (c : call) (km : KeyManager) (w : World) :
  isLocked km = true →
  (∀ attempt, c = UnlockKey attempt → password km ≠ VStr attempt) →
  snd (invoke R c (km, w)) = (km, w)
  ∧ match c with
    | LockKey => fst (invoke R c (km, w)) = Ok VUndef
    | _ => ∃ e, fst (invoke R c (km, w)) = Throw e
    end.
Proof.
  intros Hl Hpw. unfold invoke. destruct c as [| |attempt|message|kp].
  - unfold getKeyStorage. run. rewrite Hl. simpl. eauto.
  - unfold lockKey. run. now rewrite locked_set.
  - unfold mbind, SE_bind. rewrite unlockKey_eq, Hl.
    assert (Hd : differs_from attempt (password km) = true)
      by (apply differs_from_true; now apply Hpw).
    rewrite Hd. simpl. eauto.
  - unfold mbind, SE_bind. rewrite sign_locked by exact Hl. simpl. eauto.
  - unfold exportToFile, getKeyStorage. run.
    destruct (generateKeystoreFilename (pk km) w) as [[outfile|e] w1] eqn:E; simpl.
    + rewrite Hl. simpl. split; [|eauto].
      unfold generateKeystoreFilename in E.
      destruct (negb (is_string (pk km))); now inversion E.
    + split; [|eauto]. unfold generateKeystoreFilename in E.
      destruct (negb (is_string (pk km))); now inversion E.
Qed.

(** X5. A locked instance is inert.  As long as no call is an [unlockKey]
    with the very string the instance holds as its password, every
    [getKeyStorage], [sign], [exportToFile] and [unlockKey] in a sequence
    of calls throws, [lockKey] returns, and at the end the instance and
    the world are exactly what they were: nothing was signed, no entropy
    drawn, no file written. *)
Theorem locked_instance_is_inert (R : Runtime) (cs : list call)
    (km : KeyManager) (w : World) :
  isLocked km = true →
  (∀ attempt, UnlockKey attempt ∈ cs → password km ≠ VStr attempt) →
  snd (run_calls R cs (km, w)) = (km, w)
  ∧ Forall2 (λ c res, match c with
                      | LockKey => res = Ok VUndef
                      | _ => ∃ e, res = Throw e
                      end)
            cs (fst (run_calls R cs (km, w))).
Proof.
  intros Hl. induction cs as [|c cs IH]; intros Hpw; [split; [reflexivity|constructor]|].
  simpl.
  destruct (invoke_locked R c km w Hl) as [Hs Hr].
  { intros attempt ->. apply Hpw. now left. }
  destruct (invoke R c (km, w)) as [res s1]. simpl in Hs, Hr. subst s1.
  destruct IH as [IHs IHr].
  { intros attempt Hin. apply Hpw. now right. }
  destruct (run_calls R cs (km, w)) as [outcomes s2]. simpl in IHs, IHr |- *.
  split; [exact IHs|]. constructor; [|exact IHr].
  destruct c; exact Hr.
Qed.

(** ** Export, then import *)

(** X6. A file written by [exportToFile] opens again.  Take an instance the
    constructor returned, in any later world, with a truthy password.  If
    [exportToFile] returns a (non-empty) path and [JSON.parse] reads back
    what [JSON.stringify] made of the record, then [new KeyManager] with
    the instance's password, that path and the instance's constants
    returns an instance equal to the exporting one in every field. *)
Theorem export_import_roundtrip (R : Runtime) (params : Params)
    (km km' : KeyManager) (w0 w1 w2 w3 : World) (_keyPath : option string)
    (path : string) :
  new_KeyManager R params w0 = (Ok km, w1) →
  exportToFile R _keyPath (km, w2) = (Ok path, (km', w3)) →
  JSON_parse R (JSON_stringify R (keyStorage km)) = Ok (keyStorage km) →
  truthy (password km) = true →
  path ≠ "" →
  ∃ w4,
    new_KeyManager R (PObject (password km) (Some path) (Some (constants km))) w3
    = (Ok km, w4).
Proof.
  intros Hnew Hexp Hjson Hpw Hpath.
  pose proof (exportToFile_Ok R _ _ _ _ _ _ Hexp) as Hfile.
  apply constructed_invariant in Hnew as (Hid & Hl & Hsk).
  assert (Hpk : truthy (pk km) = true).
  { revert Hexp. unfold exportToFile, getKeyStorage. run.
    destruct (generateKeystoreFilename (pk km) w2) as [[outfile|e] wa]; simpl;
      [|discriminate].
    destruct (isLocked km); simpl; [discriminate|].
    destruct (truthy (pk km)); [reflexivity|discriminate]. }
  rewrite Hpk in Hsk. destruct Hsk as (key & wa & wb & Hkey & Hrec).
  rewrite new_KeyManager_eq. unfold password_missing. simpl.
  rewrite Hpw. simpl.
  destruct (String.eqb_spec path ""); [contradiction|]. simpl.
  rewrite importFromFile_eq, Hfile, Hjson, initKeyStorage_eq, Hid, Hpk. simpl.
  pose proof (crypto_only_result
                (recover R (password km) (keyStorage km) (scrypt (constants km)))
                (log (EvReadFile path) w3) wa (crypto_only_recover R _ _ _)) as Hsame.
  rewrite Hrec in Hsame.
  destruct (recover R (password km) (keyStorage km) (scrypt (constants km))
              (log (EvReadFile path) w3)) as [res w4].
  simpl in Hsame. subst res. exists w4. f_equal.
  destruct km as [pk0 sk0 l0 pw0 ks0 c0]. simpl in *. now subst.
Qed.

(** ** File names *)

Lemma chars_app (s t : string) : chars (s +:+ t) = chars s ++ chars t.
Proof.
  unfold chars. induction s as [|c s IH]; [reflexivity|].
  simpl. now rewrite <- IH.
Qed.

Lemma replace_char_chars (from to : Ascii.ascii) (s : string) :
  chars (replace_char from to s)
  = map (λ c, if Ascii.eqb c from then to else c) (chars s).
Proof.
  unfold chars. induction s as [|c s IH]; [reflexivity|]. simpl. now rewrite IH.
Qed.

(** X7. For every string id and every reading of the clock,
    [generateKeystoreFilename] returns a name with no colon in it: the
    clock reading, a hyphen, the id and ".json", character by character,
    with each colon replaced by a hyphen (so the name is as long as its
    parts together, and colons in the id are replaced too).  For anything
    but a string it throws.  The world is left as it was. *)
Theorem keystore_filename_has_no_colon (v : value) (w : World) :
  match v with
  | VStr publicKeyId =>
      ∃ name,
        generateKeystoreFilename v w = (Ok name, w)
        ∧ (":"%char ∉ chars name)
        ∧ chars name
          = map (λ c, if Ascii.eqb c ":" then "-"%char else c)
                (chars (now w) ++ "-"%char :: chars publicKeyId ++ chars ".json")
  | _ =>
      generateKeystoreFilename v w
      = (Throw (JsError "PublicKey must be given as a string for the filename"), w)
  end.
Proof.
  destruct v as [| |id|b|props]; try reflexivity.
  rewrite generateKeystoreFilename_string. eexists. split; [reflexivity|].
  rewrite replace_char_chars, !chars_app. split; [|reflexivity].
  intros Hin. apply (list_elem_of_fmap_1 _ _ _) in Hin as (c & Hc & _).
  destruct (Ascii.eqb_spec c ":"); [discriminate|congruence].
Qed.

(** ** Text and Buffer arguments *)

(** X8. [str2buf] settles in one step: what it returns is a Buffer, the
    empty string or a non-string, never a non-empty string, and a second
    [str2buf], under any encoding, returns it unchanged. *)
Theorem str2buf_idempotent (R : Runtime) (v v' : value) (enc : option string) :
  str2buf R v enc = Ok v' →
  (∀ s, v' = VStr s → s = "")
  ∧ ∀ enc', str2buf R v' enc' = Ok v'.
Proof.
  unfold str2buf. destruct v as [| |s|b|props];
    try (intros [= <-]; split; [discriminate|reflexivity]).
  destruct (String.eqb_spec s "") as [->|Hs].
  - intros [= <-]. split; [now intros s [= <-]|reflexivity].
  - destruct enc as [e|].
    + intros [= <-]. split; [discriminate|reflexivity].
    + destruct (Base58_decode R s) as [b|e]; [|discriminate].
      intros [= <-]. split; [discriminate|reflexivity].
Qed.

Lemma carries_str2buf (R : Runtime) (v : value) (b : bytes) :
  carries R v b →
  ∃ v', str2buf R v None = Ok v' ∧ crypto_arg v' = Ok b.
Proof.
  intros [->|[-> Hok]].
  - exists (VBuf b). now split.
  - destruct (str2buf_encoded_arg R b Hok) as (v' & Hv & Harg & _). eauto.
Qed.

Lemma encrypt_carried (R : Runtime) (ptv keyv ivv : value) (pt key iv : bytes)
    (algo : value) (w : World) :
  carries R ptv pt → carries R keyv key → carries R ivv iv →
  encrypt R ptv keyv ivv algo w
  = if isCipherAvailable R algo then
      match createCipheriv R (js_toString algo) key iv with
      | Ok c => (c pt, log (EvCipher (js_toString algo)) w)
      | Throw e => (Throw e, log (EvCipher (js_toString algo)) w)
      end
    else (Throw (JsError (js_toString algo +:+ " is not available")), w).
Proof.
  intros Hpt Hkey Hiv.
  apply carries_str2buf in Hpt as (pt' & Hpt & Apt).
  apply carries_str2buf in Hkey as (key' & Hkey & Akey).
  apply carries_str2buf in Hiv as (iv' & Hiv & Aiv).
  unfold encrypt. destruct (isCipherAvailable R algo); simpl; [|reflexivity].
  unfold crypto_createCipheriv, update_final. run.
  rewrite Hkey, Hiv. simpl. rewrite Akey, Aiv. simpl.
  destruct (createCipheriv R (js_toString algo) key iv) as [c|e]; [|reflexivity].
  simpl. rewrite Hpt. simpl. rewrite Apt. simpl. now destruct (c pt).
Qed.

Lemma decrypt_carried (R : Runtime) (ctv keyv ivv : value) (ct key iv : bytes)
    (algo : value) (w : World) :
  carries R ctv ct → carries R keyv key → carries R ivv iv →
  decrypt R ctv keyv ivv algo w
  = if isCipherAvailable R algo then
      match createDecipheriv R (js_toString algo) key iv with
      | Ok d => (d ct, log (EvDecipher (js_toString algo)) w)
      | Throw e => (Throw e, log (EvDecipher (js_toString algo)) w)
      end
    else (Throw (JsError (js_toString algo +:+ " is not available")), w).
Proof.
  intros Hct Hkey Hiv.
  apply carries_str2buf in Hct as (ct' & Hct & Act).
  apply carries_str2buf in Hkey as (key' & Hkey & Akey).
  apply carries_str2buf in Hiv as (iv' & Hiv & Aiv).
  unfold decrypt. destruct (isCipherAvailable R algo); simpl; [|reflexivity].
  unfold crypto_createDecipheriv, update_final. run.
  rewrite Hkey, Hiv. simpl. rewrite Akey, Aiv. simpl.
  destruct (createDecipheriv R (js_toString algo) key iv) as [d|e]; [|reflexivity].
  simpl. rewrite Hct. simpl. rewrite Act. simpl. now destruct (d ct).
Qed.

(** X9. [encrypt] and [decrypt] take each of their data, key and IV
    arguments either as a Buffer or as its Base58 text (where the codec
    reads the text back), in any combination, with the same result and
    the same outside calls: an empty Buffer and its text included.  With
    a cipher the provider lists, the provider's cipher (decipher) gets the
    name, key bytes and IV bytes in that order and is applied to the data
    bytes; with any other [algo], a non-string included, both throw
    "... is not available" and call nothing. *)
Theorem cipher_arguments_text_or_Buffer (R : Runtime) (datav keyv ivv : value)
    (data key iv : bytes) (algo : value) (w : World) :
  carries R datav data → carries R keyv key → carries R ivv iv →
  encrypt R datav keyv ivv algo w
  = (if isCipherAvailable R algo then
       match createCipheriv R (js_toString algo) key iv with
       | Ok c => (c data, log (EvCipher (js_toString algo)) w)
       | Throw e => (Throw e, log (EvCipher (js_toString algo)) w)
       end
     else (Throw (JsError (js_toString algo +:+ " is not available")), w))
  ∧ decrypt R datav keyv ivv algo w
    = (if isCipherAvailable R algo then
         match createDecipheriv R (js_toString algo) key iv with
         | Ok d => (d data, log (EvDecipher (js_toString algo)) w)
         | Throw e => (Throw e, log (EvDecipher (js_toString algo)) w)
         end
       else (Throw (JsError (js_toString algo +:+ " is not available")), w)).
Proof.
  intros Hd Hk Hi. split; [now apply encrypt_carried|now apply decrypt_carried].
Qed.

(** ** Key derivation *)

Lemma truthy_carries (R : Runtime) (v : value) (b : bytes) :
  carries R v b → truthy v = true → str2buf R v None = Ok (VBuf b).
Proof.
  intros [->|[-> [Hdec _]]] Ht; [reflexivity|].
  unfold str2buf. simpl in Ht. destruct (String.eqb (Base58_encode R b) "");
    [discriminate|]. now rewrite Hdec.
Qed.

Lemma deriveKey_guard (R : Runtime) (pw saltv : value) (kdf : KdfParams) (w : World) :
  defined pw && truthy saltv = false →
  deriveKey R pw saltv kdf w
  = (Throw (JsError "Must provide password and salt to derive a key"), w).
Proof.
  intros Hg. unfold deriveKey. rewrite <- negb_andb, Hg. reflexivity.
Qed.

Lemma deriveKey_carried (R : Runtime) (pw saltv : value) (salt0 : bytes)
    (kdf : KdfParams) (w : World) :
  carries R saltv salt0 →
  deriveKey R pw saltv kdf w
  = if defined pw && truthy saltv
    then (scrypt_of R pw salt0 kdf, log EvScrypt w)
    else (Throw (JsError "Must provide password and salt to derive a key"), w).
Proof.
  intros Hsalt. destruct (defined pw && truthy saltv) eqn:Hg;
    [|now apply deriveKey_guard].
  unfold deriveKey. rewrite <- negb_andb, Hg. simpl.
  apply andb_prop in Hg as [Hdef Ht].
  rewrite (truthy_carries R saltv salt0 Hsalt Ht).
  unfold scrypt_of, crypto_scryptSync, str2buf.
  destruct pw as [| |s|b|props]; try discriminate; run.
  - destruct (String.eqb s ""); simpl; now destruct (scryptSync R _ _ _ _).
  - now destruct (scryptSync R _ _ _ _).
  - reflexivity.
Qed.

Lemma log_changes (e : event) (w : World) : log e w ≠ w.
Proof.
  intros H. apply (f_equal calls) in H. simpl in H.
  apply (f_equal length) in H. rewrite length_app in H. simpl in H. lia.
Qed.

(** X10. [deriveKey] reads the password through its bytes and the salt as
    a Buffer or as Base58 text.  Whatever the two arguments are, when the
    password is [undefined] or [null] or the salt is falsy ([undefined],
    [null] or the empty string) it throws "Must provide password and
    salt to derive a key" and calls nothing.  For a salt given as a
    Buffer or as the Base58 text of one, that is the only case in which
    it ends so: the empty string is a password like any other, and an
    empty Buffer is accepted as salt.  Otherwise it calls scrypt once with
    the password's bytes, the salt's bytes, [dkLen], [n], [r], [p] and the
    memory bound [2 * 128 * n * r] (for [n] and [r] whose product the code
    computes exactly); so a string password and the Buffer of its UTF-8
    bytes derive the same key. *)
Theorem deriveKey_reads_bytes (R : Runtime) (pw saltv : value) (salt0 : bytes)
    (kdf : KdfParams) (w : World) :
  carries R saltv salt0 →
  maxmem_exact kdf →
  deriveKey R pw saltv kdf w
  = (if defined pw && truthy saltv
     then (scrypt_of R pw salt0 kdf, log EvScrypt w)
     else (Throw (JsError "Must provide password and salt to derive a key"), w))
  ∧ (∀ s, deriveKey R (VStr s) saltv kdf w
          = deriveKey R (VBuf (Buffer_from_utf8 s)) saltv kdf w)
  ∧ (∀ pw' saltv' w', defined pw' && truthy saltv' = false →
       deriveKey R pw' saltv' kdf w'
       = (Throw (JsError "Must provide password and salt to derive a key"), w'))
  ∧ (deriveKey R pw saltv kdf w
     = (Throw (JsError "Must provide password and salt to derive a key"), w)
     ↔ defined pw && truthy saltv = false).
Proof.
  intros Hsalt _. split; [now apply deriveKey_carried|].
  split; [intros s; now rewrite !(deriveKey_carried R _ saltv salt0)|].
  split; [intros pw' saltv' w'; apply deriveKey_guard|].
  split; [|apply deriveKey_guard].
  rewrite (deriveKey_carried R pw saltv salt0) by exact Hsalt.
  destruct (defined pw && truthy saltv); [|reflexivity].
  intros [= _ H]. now destruct (log_changes EvScrypt w).
Qed.

(** ** Short derived keys *)

Lemma Buffer_slice_short (b : bytes) : length b ≤ 16 → Buffer_slice 16 32 b = [].
Proof.
  intros H. unfold Buffer_slice. rewrite drop_ge by exact H. reflexivity.
Qed.

(** X11. With a derived key of at most 16 bytes ([dkLen <= 16] in the
    constants) the MAC says nothing about the password: [getMAC] hashes
    bytes 16 to 31 of the key, of which there are none, followed by the
    ciphertext.  A record made by [marshal] under such a key therefore
    passes the MAC check in [recover] under every password from which a
    key of at most 16 bytes is derived, and [recover] returns whatever the
    decipher makes of the ciphertext under that key. *)
Theorem short_key_opens_under_any_password (R : Runtime) (keyObject : KeyObject)
    (salt0 iv0 : bytes) (algo : string) (kdf : KdfParams)
    (derivedKey ciphertext : bytes) (w1 w2 : World) :
  length derivedKey ≤ 16 →
  encrypt R (VBuf (privateKey keyObject)) (VBuf derivedKey) (VBuf iv0)
          (VStr algo) w1 = (Ok ciphertext, w2) →
  salt0 ≠ [] → ciphertext ≠ [] → keccak256 R ciphertext ≠ [] →
  Forall (b58_ok R) [salt0; iv0; ciphertext; keccak256 R ciphertext] →
  ∃ ks,
    marshal R derivedKey keyObject salt0 iv0 algo w1 = (Ok ks, log EvKeccak w2)
    ∧ crypto_field ks "mac" = Ok (VStr (Base58_encode R (keccak256 R ciphertext)))
    ∧ ∀ pw' derivedKey' w,
        defined pw' = true →
        scrypt_of R pw' salt0 kdf = Ok derivedKey' →
        length derivedKey' ≤ 16 →
        recover R pw' ks kdf w
        = match createDecipheriv R algo derivedKey' iv0 with
          | Ok d => (d ciphertext, extend [EvScrypt; EvKeccak; EvDecipher algo] w)
          | Throw e => (Throw e, extend [EvScrypt; EvKeccak; EvDecipher algo] w)
          end.
Proof.
  intros Hlen Henc Hsalt Hct Hmac Hcodec.
  apply Forall_cons in Hcodec as [Bsalt Hcodec].
  apply Forall_cons in Hcodec as [Biv Hcodec].
  apply Forall_cons in Hcodec as [Bct Hcodec].
  apply Forall_cons in Hcodec as [Bmac _].
  assert (Hin : mac_input derivedKey ciphertext = ciphertext)
    by (unfold mac_input; now rewrite Buffer_slice_short).
  eexists. split; [rewrite marshal_eq, Henc; reflexivity|].
  rewrite Hin. split; [reflexivity|].
  intros pw' dk' w Hdef Hkey Hlen'.
  rewrite recover_eq. unfold decoded_field. simpl.
  destruct (str2buf_encoded_arg R iv0 Biv) as (ivv & -> & Harg & Hid).
  rewrite !str2buf_encoded by assumption.
  rewrite deriveKey_Buffer_salt, Hdef, Hkey.
  rewrite verifyAndDecrypt_eq, getMAC_Buffers. simpl.
  unfold mac_input. rewrite Buffer_slice_short by exact Hlen'. simpl.
  rewrite bool_decide_eq_true_2 by reflexivity.
  rewrite (decrypt_args R ciphertext dk' iv0 ivv algo _ Harg Hid).
  rewrite encrypt_Buffers in Henc.
  destruct (isCipherAvailable R (VStr algo)); [|discriminate].
  unfold extend, log. simpl. rewrite <- !app_assoc. simpl.
  now destruct (createDecipheriv R algo dk' iv0).
Qed.

(** ** Key-derivation parameters in the constants *)

(** X12. [dump] derives the key under [constants.kdfParams] when that is
    set, but the constructor's [recover] always derives it under
    [constants.scrypt].  So with [kdfParams] set, whenever the two
    parameter sets give keys whose MACs of the ciphertext differ, key
    generation cannot succeed: [new KeyManager] throws "message
    authentication code mismatch" on the record it has just made. *)
Theorem kdfParams_break_generation (R : Runtime) (params : Params)
    (k : KdfParams) (keyObject : KeyObject)
    (derivedKey derivedKey' ciphertext : bytes) (w w1 w2 : World) :
  let c := default defaultOptions (params_constants params) in
  let pw := given_password params in
  let mac := keccak256 R (mac_input derivedKey ciphertext) in
  password_missing params = false →
  truthy_path (params_keyPath params) = false →
  kdfParams c = Some k →
  create R c w = (Ok keyObject, w1) →
  defined pw = true →
  scrypt_of R pw (salt keyObject) k = Ok derivedKey →
  encrypt R (VBuf (privateKey keyObject)) (VBuf derivedKey) (VBuf (iv keyObject))
          (VStr (cipher c)) (log EvScrypt w1) = (Ok ciphertext, w2) →
  scrypt_of R pw (salt keyObject) (scrypt c) = Ok derivedKey' →
  keccak256 R (mac_input derivedKey' ciphertext) ≠ mac →
  publicKey keyObject ≠ [] → salt keyObject ≠ [] → ciphertext ≠ [] → mac ≠ [] →
  Forall (b58_ok R)
    [publicKey keyObject; salt keyObject; iv keyObject; ciphertext; mac] →
  new_KeyManager R params w
  = (Throw (JsError "message authentication code mismatch"),
     extend [EvKeccak; EvScrypt; EvKeccak] w2).
Proof.
  intros c pw mac Hguard Hpath Hkdf Hcreate Hdef Hkey Henc Hkey' Hdiff
         Hpk Hsalt Hct Hmac Hcodec.
  apply Forall_cons in Hcodec as [Bpk Hcodec].
  apply Forall_cons in Hcodec as [Bsalt Hcodec].
  apply Forall_cons in Hcodec as [Biv Hcodec].
  apply Forall_cons in Hcodec as [Bct Hcodec].
  apply Forall_cons in Hcodec as [Bmac _].
  rewrite new_KeyManager_eq, Hguard. cbv beta iota zeta. rewrite Hpath. fold c.
  rewrite generateKey_eq. simpl constants. rewrite Hcreate, dump_eq, Hkdf.
  simpl default. fold pw. rewrite deriveKey_Buffer_salt, Hdef, Hkey.
  rewrite marshal_eq, Henc, initKeyStorage_eq.
  unfold keystore at 1. simpl get_prop. cbv beta iota zeta.
  change (constants (initialised c)) with c.
  assert (Ht : truthy (VStr (Base58_encode R (publicKey keyObject))) = true).
  { apply truthy_VStr. now apply Bpk. }
  rewrite Ht.
  destruct (str2buf_encoded_arg R (iv keyObject) Biv) as (ivv & Hiv & Harg & Hid).
  rewrite (recover_encoded_record R _ _ _ _ _ (salt keyObject) ciphertext mac
             derivedKey' _ _ Hsalt Hct Hmac) with (ivv := ivv);
    [|repeat (apply Forall_cons_2; [assumption|]); apply Forall_nil_2
     |exact Hdef|exact Hkey'|exact Hiv].
  rewrite bool_decide_eq_false_2 by exact Hdiff.
  unfold extend, log. simpl. rewrite <- !app_assoc. reflexivity.
Qed.

(** ** The callback forms *)

Lemma deriveKey_cb_eq (R : Runtime) (pw saltv : value) (kdf : KdfParams)
    (cb : bytes → M value) (w : World) :
  deriveKey_cb R pw saltv kdf cb w
  = match deriveKey R pw saltv kdf w with
    | (Ok derivedKey, w1) =>
        match cb derivedKey w1 with
        | (Ok _, w2) => (Ok VUndef, w2)
        | (Throw e, w2) => (Throw e, w2)
        end
    | (Throw e, w1) => (Throw e, w1)
    end.
Proof.
  unfold deriveKey_cb, deriveKey.
  destruct (negb (defined pw) || negb (truthy saltv)); [reflexivity|].
  run.
  destruct (str2buf R pw (Some "utf8")) as [pwv|e]; simpl; [|reflexivity].
  destruct (str2buf R saltv None) as [sv|e]; simpl; [|reflexivity].
  destruct (crypto_scryptSync R pwv sv _ _ w) as [[dk|e] w1]; simpl; [|reflexivity].
  now destruct (cb dk w1) as [[v|e] w2].
Qed.

(** X13. The callback forms of [deriveKey] and [recover] are synchronous.
    They do what the plain forms do and then, still inside the call, hand
    the result to the callback once; they return [undefined].  When the
    plain form throws, the callback form throws the same error from the
    same world and the callback is never called: errors are not delivered
    to the callback.  What the callback throws comes out of the call. *)
Theorem callback_forms_are_synchronous (R : Runtime) (pw v : value)
    (kdf : KdfParams) (cb : bytes → M value) (w : World) :
  deriveKey_cb R pw v kdf cb w
  = match deriveKey R pw v kdf w with
    | (Ok derivedKey, w1) =>
        match cb derivedKey w1 with
        | (Ok _, w2) => (Ok VUndef, w2)
        | (Throw e, w2) => (Throw e, w2)
        end
    | (Throw e, w1) => (Throw e, w1)
    end
  ∧ recover_cb R pw v kdf cb w
    = match recover R pw v kdf w with
      | (Ok key, w1) =>
          match cb key w1 with
          | (Ok _, w2) => (Ok VUndef, w2)
          | (Throw e, w2) => (Throw e, w2)
          end
      | (Throw e, w1) => (Throw e, w1)
      end.
Proof.
  split; [apply deriveKey_cb_eq|].
  rename v into ks.
  unfold recover_cb, recover. run.
  destruct (get_prop ks "crypto") as [crypto|e]; simpl; [|reflexivity].
  destruct (get_prop crypto "cipherParams") as [cp|e]; simpl; [|reflexivity].
  destruct (get_prop cp "iv") as [iv58|e]; simpl; [|reflexivity].
  destruct (str2buf R iv58 None) as [ivv|e]; simpl; [|reflexivity].
  destruct (get_prop crypto "kdfSalt") as [s58|e]; simpl; [|reflexivity].
  destruct (str2buf R s58 None) as [saltv|e]; simpl; [|reflexivity].
  destruct (get_prop crypto "cipherText") as [c58|e]; simpl; [|reflexivity].
  destruct (str2buf R c58 None) as [ctv|e]; simpl; [|reflexivity].
  destruct (get_prop crypto "mac") as [m58|e]; simpl; [|reflexivity].
  destruct (str2buf R m58 None) as [macv|e]; simpl; [|reflexivity].
  destruct (get_prop crypto "cipher") as [algo|e]; simpl; [|reflexivity].
  rewrite deriveKey_cb_eq.
  destruct (deriveKey R pw saltv kdf w) as [[dk|e] w1]; [|reflexivity].
  destruct (verifyAndDecrypt R dk ivv ctv macv algo w1) as [[key|e] w2];
    [|reflexivity].
  now destruct (cb key w2) as [[x|e] w3].
Qed.

(** ** Verifying signatures *)

(** X14. A signature made by [sign] verifies through the static [verify]
    under the instance's public key.  Take an unlocked instance that
    holds a private key and, as [pk], the Base58 text of a non-empty
    public key, and a verification function that accepts what the
    signature function produces under this key pair.  [sign] and
    [verify] hand the message to the library in the same form (its UTF-8
    bytes; the empty message as the empty string), so for every message
    that [sign] signs, [verify] returns [true], given the signature as a
    Buffer or as its Base58 text, and touches nothing. *)
Theorem sign_then_verify (R : Runtime)
    (curve25519_verify : value → value → value → result bool)
    (km : KeyManager) (public private : bytes) :
  pk km = VStr (Base58_encode R public) →
  sk km = VBuf private →
  public ≠ [] → b58_ok R public →
  (∀ msg nonce signature,
     curve25519_sign R (VBuf private) msg nonce = Ok signature →
     curve25519_verify (VBuf public) msg (VBuf signature) = Ok true) →
  ∀ message signature w s',
    sign R message (km, w) = (Ok signature, s') →
    ∀ signaturev w2,
      carries R signaturev signature → signature ≠ [] →
      verify R curve25519_verify (pk km) message signaturev w2 = (Ok true, w2).
Proof.
  intros Hpk Hsk Hne Hok Hlib message signature w s' Hsign sv w2 Hsv Hsig.
  assert (Hlocked : isLocked km = false).
  { destruct (isLocked km) eqn:Hl; [|reflexivity].
    rewrite sign_locked in Hsign by exact Hl. discriminate. }
  rewrite sign_unlocked in Hsign by (try exact Hlocked; right; eauto).
  injection Hsign as Hsign _. rewrite Hsk in Hsign. apply Hlib in Hsign.
  unfold verify. run.
  rewrite Hpk, str2buf_encoded by assumption. simpl.
  rewrite str2buf_message. simpl.
  assert (Hs : str2buf R sv None = Ok (VBuf signature)).
  { destruct Hsv as [->|[-> Hb]]; [reflexivity|now apply str2buf_encoded]. }
  rewrite Hs. simpl. now rewrite Hsign.
Qed.

(** X15. With a callback, the static [verify] never verifies anything: the
    call reads the undeclared variable [sug], so after converting its
    arguments it throws (a [ReferenceError], or before that what
    [Base58.decode] throws at a malformed key or signature), calling
    neither the verification function nor the callback, and leaving the
    world as it was. *)
Theorem verify_callback_throws (R : Runtime) (publicKey : value)
    (message : string) (signature : value) (cb : bool → M value) (w : World) :
  verify_cb R publicKey message signature cb w
  = (match str2buf R publicKey None with
     | Throw e => Throw e
     | Ok _ =>
         match str2buf R signature None with
         | Throw e => Throw e
         | Ok _ => Throw (JsThrown "ReferenceError: sug is not defined")
         end
     end, w)
  ∧ ∃ e, verify_cb R publicKey message signature cb w = (Throw e, w).
Proof.
  unfold verify_cb. run. rewrite str2buf_message.
  destruct (str2buf R publicKey None) as [pkv|e]; simpl; [|eauto].
  destruct (str2buf R signature None) as [sigv|e]; simpl; eauto.
Qed.

(** ** [Brambl] *)

Section BramblResults.
Context (R : Runtime).
Context (isValidNetwork : string → M bool).
Context (getValidNetworksList : M string).
Context (getUrlByNetwork : string → M string).

Lemma invalid_prefix_throws {A} (w : World) :
  ∃ e w', invalid_prefix getValidNetworksList (A := A) w = (Throw e, w').
Proof.
  unfold invalid_prefix. run.
  destruct (getValidNetworksList w) as [[networks|e] w1]; eauto.
Qed.

(** X16. [new Brambl] returns an instance only to a caller who hands it a
    [KeyManager] instance on which a [networkPrefix] property has been
    set to the network prefix.  Its last check compares the prefix, a
    string, with [this.keyManager.networkPrefix], which the class
    [KeyManager] never sets.  So whenever the constructor has to build the
    key manager itself (from a bare password, from a configuration
    object, or with none given), it throws, whatever the address
    utilities do; with such an instance, a [Requests] instance of the
    same prefix and a prefix the utilities accept, it returns. *)
Theorem Brambl_constructor_needs_prefixed_key_manager (params : BramblParams)
    (w : World) :
  let new_Brambl :=
    new_Brambl R isValidNetwork getValidNetworksList getUrlByNetwork in
  (∀ brambl w',
     new_Brambl params w = (Ok brambl, w') →
     given_instance params
     = Some (keyManager brambl, VStr (networkPrefix brambl))
     ∧ req_networkPrefix (requests brambl) = networkPrefix brambl)
  ∧ (given_instance params = None →
     ∃ e w', new_Brambl params w = (Throw e, w'))
  ∧ (∀ np pw km r w1,
       let prefix := or_default np "local" in
       isValidNetwork prefix w = (Ok true, w1) →
       req_networkPrefix r = prefix →
       new_Brambl
         (BObject np pw (Some (KMInstance km (VStr prefix))) (Some (RInstance r))) w
       = (Ok (mkBrambl prefix r km), w1)).
Proof.
  intros new_Brambl'. subst new_Brambl'.
  (* the last check, for what [this.keyManager.networkPrefix] reads *)
  assert (Hlast : ∀ (prefix : string) (requests : Requests)
                    (keyManager : KeyManager * value) (w3 : World) brambl w',
    (if negb (String.eqb prefix (req_networkPrefix requests))
        || differs_from prefix (snd keyManager)
     then throw (JsError
            "Incompatible network prefixes set for Requests and KeyManager Instances.")
     else mret (mkBrambl prefix requests (fst keyManager))) w3 = (Ok brambl, w') →
    snd keyManager = VStr prefix ∧ req_networkPrefix requests = prefix
    ∧ brambl = mkBrambl prefix requests (fst keyManager)).
  { intros prefix requests keyManager w3 brambl w'.
    destruct (String.eqb_spec prefix (req_networkPrefix requests)) as [Hr|Hr];
      [|discriminate].
    simpl. destruct (differs_from prefix (snd keyManager)) eqn:Hd; [discriminate|].
    apply differs_from_false in Hd. unfold mret, SE_ret. intros [= <-].
    now repeat split. }
  assert (Hreturns : ∀ brambl w',
    new_Brambl R isValidNetwork getValidNetworksList getUrlByNetwork params w
    = (Ok brambl, w') →
    given_instance params
    = Some (keyManager brambl, VStr (networkPrefix brambl))
    ∧ req_networkPrefix (requests brambl) = networkPrefix brambl).
  { intros brambl w'. unfold new_Brambl. cbv zeta.
    unfold mbind at 1, SE_bind at 1.
    match goal with
    | |- match ?m w with _ => _ end = _ → _ =>
        destruct (m w) as [[valid|e] wa]; [|discriminate]
    end.
    destruct valid; simpl;
      [|unfold invalid_prefix; run;
        destruct (getValidNetworksList wa) as [[x|e] wb]; discriminate].
    unfold mbind at 1, SE_bind at 1.
    match goal with
    | |- match ?m wa with _ => _ end = _ → _ =>
        destruct (m wa) as [[requests|e] wb]; [|discriminate]
    end.
    unfold mbind at 1, SE_bind at 1.
    destruct params as [s|np pw [[km v|kpw kp kc]|] rq]; simpl given_instance.
    + (* a bare string *)
      cbn [assign_password]. destruct (negb (truthy (VStr s))); [discriminate|].
      unfold mbind at 1, SE_bind at 1.
      destruct (new_KeyManager R _ wb) as [[km|e] wc]; [|discriminate].
      unfold mret at 1, SE_ret at 1. cbn beta iota.
      intros H. apply Hlast in H as (H & _). discriminate H.
    + (* an instance *)
      assert (Hkv : ∀ k, (match pw with
                          | VStr pw0 => if truthy (VStr pw0)
                                        then assign_password (VStr pw0) (KMInstance km v)
                                        else KMInstance km v
                          | _ => KMInstance km v
                          end) = k → k = KMInstance km v).
      { intros k <-. destruct pw as [| |pw0| |]; try reflexivity.
        now destruct (truthy (VStr pw0)). }
      match goal with
      | |- match (match ?kv with KMInstance _ _ => _ | KMConfig _ _ _ => _ end) wb
           with _ => _ end = _ → _ =>
          rewrite (Hkv kv eq_refl)
      end.
      unfold mret at 1, SE_ret at 1. cbn beta iota.
      intros H. apply Hlast in H as (Hv & Hr & ->). simpl in Hv |- *.
      subst v. now split.
    + (* a configuration object *)
      match goal with
      | |- match (match ?kv with KMInstance _ _ => _ | KMConfig _ _ _ => _ end) wb
           with _ => _ end = _ → _ =>
          destruct kv as [km v|kpw' kp' kc'] eqn:Hkv
      end.
      { exfalso. destruct pw as [| |pw0| |]; try discriminate Hkv.
        destruct (negb (String.eqb pw0 "")); discriminate Hkv. }
      destruct (negb (truthy kpw')); [discriminate|].
      unfold mbind at 1, SE_bind at 1.
      destruct (new_KeyManager R _ wb) as [[km|e] wc]; [|discriminate].
      unfold mret at 1, SE_ret at 1. cbn beta iota.
      intros H. apply Hlast in H as (H & _). discriminate H.
    + (* no key manager given *)
      match goal with
      | |- match (match ?kv with KMInstance _ _ => _ | KMConfig _ _ _ => _ end) wb
           with _ => _ end = _ → _ =>
          destruct kv as [km v|kpw' kp' kc'] eqn:Hkv
      end.
      { exfalso. destruct pw as [| |pw0| |]; try discriminate Hkv.
        destruct (negb (String.eqb pw0 "")); discriminate Hkv. }
      destruct (negb (truthy kpw')); [discriminate|].
      unfold mbind at 1, SE_bind at 1.
      destruct (new_KeyManager R _ wb) as [[km|e] wc]; [|discriminate].
      unfold mret at 1, SE_ret at 1. cbn beta iota.
      intros H. apply Hlast in H as (H & _). discriminate H. }
  split; [exact Hreturns|split].
  - intros Hnone.
    destruct (new_Brambl R isValidNetwork getValidNetworksList getUrlByNetwork
                params w) as [[brambl|e] w'] eqn:Hrun; [|eauto].
    destruct (Hreturns brambl w' eq_refl) as (Hsome & _).
    rewrite Hnone in Hsome. discriminate.
  - intros np pw km r w1 prefix Hvalid Hr.
    unfold new_Brambl. cbv zeta. fold prefix.
    unfold mbind at 1, SE_bind at 1. rewrite Hvalid. cbn beta iota.
    change (negb true) with false. cbn iota.
    assert (Hkv : (match pw with
                   | VStr pw0 => if truthy (VStr pw0)
                                 then assign_password (VStr pw0)
                                        (KMInstance km (VStr prefix))
                                 else KMInstance km (VStr prefix)
                   | _ => KMInstance km (VStr prefix)
                   end) = KMInstance km (VStr prefix)).
    { destruct pw as [| |pw0| |]; try reflexivity. now destruct (truthy (VStr pw0)). }
    rewrite Hkv. run. rewrite Hr, String.eqb_refl. simpl. reflexivity.
Qed.

(** ** Signing a transaction *)

Lemma assoc_set_prop (k k' : string) (v : value) (props : list (string * value)) :
  assoc k (set_prop k' v props)
  = if String.eqb k k' then Some v else assoc k props.
Proof.
  induction props as [|[k0 v0] props IH]; simpl.
  - reflexivity.
  - destruct (String.eqb_spec k' k0) as [->|Hne]; simpl.
    + now destruct (String.eqb k k0).
    + destruct (String.eqb_spec k k0) as [->|Hne'].
      * destruct (String.eqb_spec k0 k'); [congruence|reflexivity].
      * exact IH.
Qed.

(** In the object made of a list of entries, every name that occurs has
    the value of one of its entries. *)
Lemma fromEntries_covers (entries : list (string * value)) :
  ∀ (o : list (string * value)) (k : string) (v : value),
    (k, v) ∈ entries →
    ∃ v', (k, v') ∈ entries
          ∧ assoc k (fold_left (λ o kv, set_prop (fst kv) (snd kv) o) entries o)
            = Some v'.
Proof.
  induction entries as [|[k0 v0] entries IH]; intros o k v Hin.
  - now apply elem_of_nil in Hin.
  - simpl.
    destruct (decide (k ∈ entries.*1)) as [Hlater|Hnot].
    + apply list_elem_of_fmap in Hlater as ([k1 v1] & Hk & Hlater).
      simpl in Hk. subst k1.
      destruct (IH (set_prop k0 v0 o) k v1 Hlater) as (v' & Hin' & Hv').
      exists v'. split; [now right|exact Hv'].
    + assert (Hno : ∀ v1, (k, v1) ∉ entries).
      { intros v1 Hv1. apply Hnot. apply list_elem_of_fmap. now exists (k, v1). }
      apply elem_of_cons in Hin as [[= -> ->]|Hin]; [|now destruct (Hno v)].
      exists v0. split; [now left|].
      assert (Hkeep : ∀ es o', (∀ v1, (k0, v1) ∉ es) →
        assoc k0 (fold_left (λ o kv, set_prop (fst kv) (snd kv) o) es o')
        = assoc k0 o').
      { clear. induction es as [|[k1 v1] es IH]; intros o' Hno; [reflexivity|].
        simpl. rewrite IH.
        - rewrite assoc_set_prop.
          destruct (String.eqb_spec k0 k1) as [->|_]; [|reflexivity].
          exfalso. apply (Hno v1). now left.
        - intros v2 Hin. apply (Hno v2). now right. }
      rewrite Hkeep by exact Hno.
      rewrite assoc_set_prop. now rewrite String.eqb_refl.
Qed.

Lemma sign_Ok (message : string) (km : KeyManager) (w : World)
    (signature : bytes) (s : KeyManager * World) :
  sign R message (km, w) = (Ok signature, s) →
  isLocked km = false ∧ s = (km, after_randomBytes 64 w).
Proof.
  unfold sign. run. destruct (isLocked km); simpl; [discriminate|].
  destruct (str2buf R (sk km) None) as [key|e]; simpl; [|discriminate].
  destruct (str2buf R (VStr message) (Some "utf8")) as [msg|e]; simpl; [|discriminate].
  unfold crypto_randomBytes. simpl.
  match goal with
  | |- context [curve25519_sign R ?a ?b ?c] => destruct (curve25519_sign R a b c)
  end; [|discriminate].
  intros [= <- <-]. now split.
Qed.

(** What [sign_each] leaves when it completes, and what it throws. *)
Lemma sign_each_inv (keys : list KeyManager) (message : string) (w : World) :
  match sign_each R keys message w with
  | (Ok entries, w') =>
      seed w' = length keys + seed w
      ∧ Forall2 (λ key entry,
           isLocked key = false
           ∧ ∃ w1 signature,
               sign R message (key, w1)
               = (Ok signature, (key, after_randomBytes 64 w1))
               ∧ entry = (js_toString (pk key), VStr (Base58_encode R signature)))
          keys entries
  | (Throw e, w') =>
      ∃ key w1 s1, key ∈ keys ∧ sign R message (key, w1) = (Throw e, s1)
  end.
Proof.
  revert w. induction keys as [|key keys IH]; intros w; simpl.
  - split; [reflexivity|constructor].
  - unfold mbind at 1, SE_bind at 1. unfold on_instance.
    destruct (sign R message (key, w)) as [[signature|e] s] eqn:Hsign.
    + apply sign_Ok in Hsign as Hs. destruct Hs as [Hl ->]. simpl.
      unfold mbind at 1, SE_bind at 1.
      specialize (IH (after_randomBytes 64 w)).
      destruct (sign_each R keys message (after_randomBytes 64 w))
        as [[entries|e] w'].
      * simpl. destruct IH as [Hseed Hall]. split; [simpl in Hseed; lia|].
        constructor; [|exact Hall]. split; [exact Hl|]. eauto.
      * destruct IH as (key' & w1 & s1 & Hin & Hthrow).
        exists key', w1, s1. split; [now right|exact Hthrow].
    + destruct s as [km' w']. simpl.
      exists key, w, (km', w'). split; [now left|exact Hsign].
Qed.

Lemma sign_each_Ok (keys : list KeyManager) (message : string) (w : World) :
  Forall (λ key, isLocked key = false
                 ∧ key_or_undefined (sk key)
                 ∧ ∀ seed, is_Ok (curve25519_sign R (sk key) (message_arg message)
                                    (randomBytes R seed 64))) keys →
  ∃ entries w', sign_each R keys message w = (Ok entries, w').
Proof.
  intros Hall. revert w. induction Hall as [|key keys (Hl & Hsk & Hsig) _ IH];
    intros w; simpl; [eauto|].
  unfold mbind at 1, SE_bind at 1. unfold on_instance.
  rewrite sign_unlocked by assumption.
  specialize (Hsig (seed w)).
  destruct (curve25519_sign R (sk key) (message_arg message) _) as [signature|e];
    [|destruct Hsig].
  simpl. unfold mbind at 1, SE_bind at 1.
  destruct (IH (after_randomBytes 64 w)) as (entries & w' & ->). simpl. eauto.
Qed.

(** X17. [addSigToTx] signs with every key manager or returns nothing.  When
    it returns, every key manager it was given is unlocked and has drawn
    its 64 bytes of entropy once; the result has the properties of
    [rawTx], except that [signatures] is an object which holds, under
    each key manager's [pk], the Base58 text of a signature that a key
    manager with that [pk] made of [messageToSign].  Otherwise it rejects
    with what the [sign] of one of the key managers threw (a locked one,
    say), and there is no partly signed transaction.  It does return when
    every key manager is unlocked and holds a key with which the
    signature function signs the message under 64 bytes drawn from the
    entropy source. *)
Theorem addSigToTx_all_or_nothing (prototypeTx : PrototypeTx)
    (userKeys : KeyManager + list KeyManager) (w : World) :
  let keys := match userKeys with inl key => [key] | inr keys => keys end in
  let message := messageToSign prototypeTx in
  match addSigToTx R prototypeTx userKeys w with
  | (Ok tx, w') =>
      Forall (λ key, isLocked key = false) keys
      ∧ seed w' = length keys + seed w
      ∧ ∃ props signatures,
          tx = VObj props
          ∧ assoc "signatures" props = Some (VObj signatures)
          ∧ (∀ k, k ≠ "signatures" → assoc k props = assoc k (rawTx prototypeTx))
          ∧ Forall (λ key,
               ∃ signer w1 s1 signature,
                 signer ∈ keys
                 ∧ js_toString (pk signer) = js_toString (pk key)
                 ∧ sign R message (signer, w1) = (Ok signature, s1)
                 ∧ assoc (js_toString (pk key)) signatures
                   = Some (VStr (Base58_encode R signature)))
              keys
  | (Throw e, w') =>
      ∃ key w1 s1, key ∈ keys ∧ sign R message (key, w1) = (Throw e, s1)
  end
  ∧ (Forall (λ key, isLocked key = false
                    ∧ key_or_undefined (sk key)
                    ∧ ∀ seed, is_Ok (curve25519_sign R (sk key)
                                       (message_arg message)
                                       (randomBytes R seed 64))) keys →
     is_Ok (fst (addSigToTx R prototypeTx userKeys w))).
Proof.
  intros keys message. unfold addSigToTx, genSig. fold keys. fold message.
  unfold mbind, SE_bind. split.
  2:{ intros Hall.
      destruct (sign_each_Ok keys message w Hall) as (entries & w' & ->).
      exact I. }
  pose proof (sign_each_inv keys message w) as Hinv.
  destruct (sign_each R keys message w) as [[entries|e] w']; [|exact Hinv].
  destruct Hinv as [Hseed Hall]. simpl.
  split. { apply Forall_forall. intros key Hin.
           apply list_elem_of_lookup in Hin as [i Hi].
           destruct (Forall2_lookup_l _ _ _ _ _ Hall Hi) as (entry & _ & Hl & _).
           exact Hl. }
  split; [exact Hseed|].
  eexists _, _. split; [reflexivity|].
  split. { rewrite assoc_set_prop. reflexivity. }
  split. { intros k Hk. rewrite assoc_set_prop.
           destruct (String.eqb_spec k "signatures"); [contradiction|reflexivity]. }
  apply Forall_forall. intros key Hin.
  apply list_elem_of_lookup in Hin as [i Hi].
  destruct (Forall2_lookup_l _ _ _ _ _ Hall Hi)
    as (entry & Hentry & _ & w1 & signature & Hsign & ->).
  destruct (fromEntries_covers entries [] _ _ (list_elem_of_lookup_2 _ _ _ Hentry))
    as (v' & Hin' & Hv').
  apply list_elem_of_lookup in Hin' as [j Hj].
  destruct (Forall2_lookup_r _ _ _ _ _ Hall Hj)
    as (signer & Hsigner & _ & w2 & signature' & Hsign' & Heq).
  injection Heq as Hname ->.
  exists signer, w2, (signer, after_randomBytes 64 w2), signature'.
  split; [now apply list_elem_of_lookup_2 in Hsigner|].
  split; [now symmetry|]. split; [exact Hsign'|exact Hv'].
Qed.

End BramblResults.

(** ** The further results at work in the sample runtime *)

Lemma sample_codec (l : list bytes) : Forall (b58_ok Sample.runtime) l.
Proof. apply Forall_forall. intros b _. apply b58_ok_sample. Qed.

(** Witness of X2: the sample instance. *)
Lemma constructed_record_opens_witness :
  get_prop (keyStorage Sample.manager0) "publicKeyId" = Ok (pk Sample.manager0)
  ∧ if truthy (pk Sample.manager0)
    then ∃ key, sk Sample.manager0 = VBuf key
           ∧ ∀ w2, fst (recover Sample.runtime (password Sample.manager0)
                          (keyStorage Sample.manager0)
                          (scrypt (constants Sample.manager0)) w2) = Ok key
    else sk Sample.manager0 = VUndef.
Proof.
  apply (constructed_record_opens Sample.runtime (PString "correct-horse")
           Sample.manager0 Sample.world0 Sample.world1).
  exact manager0_constructed.
Defined.

(** Witness of X5: seven calls on the locked sample instance, two of them
    unlock attempts with other passwords. *)
Lemma locked_instance_is_inert_witness :
  snd (run_calls Sample.runtime Cases.calls0 (Cases.locked0, Sample.world1))
  = (Cases.locked0, Sample.world1)
  ∧ Forall2 (λ c res, match c with
                      | LockKey => res = Ok VUndef
                      | _ => ∃ e, res = Throw e
                      end)
            Cases.calls0
            (fst (run_calls Sample.runtime Cases.calls0 (Cases.locked0, Sample.world1))).
Proof.
  apply (locked_instance_is_inert Sample.runtime Cases.calls0 Cases.locked0
           Sample.world1).
  - reflexivity.
  - intros attempt Hin. unfold Cases.calls0 in Hin.
    repeat (apply elem_of_cons in Hin as [Hin|Hin];
            [try discriminate Hin; injection Hin as ->; discriminate|]).
    now apply elem_of_nil in Hin.
Defined.

Lemma manager0_exported :
  exportToFile Sample.runtime None (Sample.manager0, Sample.world1)
  = (Ok Sample.exported_path, (Sample.manager0, Sample.world2)).
Proof. vm_compute. reflexivity. Defined.

(** Witness of X6: the sample instance exports, and the file is imported. *)
Lemma export_import_roundtrip_witness :
  ∃ w4,
    new_KeyManager Sample.runtime
      (PObject (password Sample.manager0) (Some Sample.exported_path)
               (Some (constants Sample.manager0)))
      Sample.world2
    = (Ok Sample.manager0, w4).
Proof.
  apply (export_import_roundtrip Sample.runtime (PString "correct-horse")
           Sample.manager0 Sample.manager0 Sample.world0 Sample.world1
           Sample.world1 Sample.world2 None Sample.exported_path).
  - exact manager0_constructed.
  - exact manager0_exported.
  - vm_compute. reflexivity.
  - reflexivity.
  - discriminate.
Defined.

(** Witness of X8: a password read as UTF-8. *)
Lemma str2buf_idempotent_witness :
  (∀ s, VBuf (Buffer_from_utf8 "correct-horse") = VStr s → s = "")
  ∧ ∀ enc', str2buf Sample.runtime (VBuf (Buffer_from_utf8 "correct-horse")) enc'
            = Ok (VBuf (Buffer_from_utf8 "correct-horse")).
Proof.
  apply (str2buf_idempotent Sample.runtime (VStr "correct-horse")
           (VBuf (Buffer_from_utf8 "correct-horse")) (Some "utf8")).
  reflexivity.
Defined.

(** Witness of X9: the sample private key and IV as text, the key as a
    Buffer. *)
Lemma cipher_arguments_text_or_Buffer_witness :
  let R := Sample.runtime in
  let datav := VStr (Base58_encode R (privateKey Sample.keyObject0)) in
  let ivv := VStr (Base58_encode R (iv Sample.keyObject0)) in
  let algo := VStr "aes-256-ctr" in
  encrypt R datav (VBuf Sample.derivedKey0) ivv algo Sample.world0
  = (if isCipherAvailable R algo then
       match createCipheriv R (js_toString algo) Sample.derivedKey0
               (iv Sample.keyObject0) with
       | Ok c => (c (privateKey Sample.keyObject0),
                  log (EvCipher (js_toString algo)) Sample.world0)
       | Throw e => (Throw e, log (EvCipher (js_toString algo)) Sample.world0)
       end
     else (Throw (JsError (js_toString algo +:+ " is not available")), Sample.world0))
  ∧ decrypt R datav (VBuf Sample.derivedKey0) ivv algo Sample.world0
    = (if isCipherAvailable R algo then
         match createDecipheriv R (js_toString algo) Sample.derivedKey0
                 (iv Sample.keyObject0) with
         | Ok d => (d (privateKey Sample.keyObject0),
                    log (EvDecipher (js_toString algo)) Sample.world0)
         | Throw e => (Throw e, log (EvDecipher (js_toString algo)) Sample.world0)
         end
       else (Throw (JsError (js_toString algo +:+ " is not available")), Sample.world0)).
Proof.
  intros R datav ivv algo.
  apply (cipher_arguments_text_or_Buffer R datav (VBuf Sample.derivedKey0) ivv
           (privateKey Sample.keyObject0) Sample.derivedKey0 (iv Sample.keyObject0)
           algo Sample.world0).
  - right. split; [reflexivity|apply b58_ok_sample].
  - left. reflexivity.
  - right. split; [reflexivity|apply b58_ok_sample].
Defined.

(** Witness of X10: the sample salt as text, under the default scrypt
    parameters. *)
Lemma deriveKey_reads_bytes_witness :
  let R := Sample.runtime in
  let saltv := VStr (Base58_encode R (salt Sample.keyObject0)) in
  let guard := JsError "Must provide password and salt to derive a key" in
  deriveKey R (VStr "correct-horse") saltv (scrypt defaultOptions) Sample.world0
  = (if defined (VStr "correct-horse") && truthy saltv
     then (scrypt_of R (VStr "correct-horse") (salt Sample.keyObject0)
             (scrypt defaultOptions),
           log EvScrypt Sample.world0)
     else (Throw guard, Sample.world0))
  ∧ (∀ s, deriveKey R (VStr s) saltv (scrypt defaultOptions) Sample.world0
          = deriveKey R (VBuf (Buffer_from_utf8 s)) saltv (scrypt defaultOptions)
                      Sample.world0)
  ∧ (∀ pw' saltv' w', defined pw' && truthy saltv' = false →
       deriveKey R pw' saltv' (scrypt defaultOptions) w' = (Throw guard, w'))
  ∧ (deriveKey R (VStr "correct-horse") saltv (scrypt defaultOptions) Sample.world0
     = (Throw guard, Sample.world0)
     ↔ defined (VStr "correct-horse") && truthy saltv = false).
Proof.
  intros R saltv guard.
  apply (deriveKey_reads_bytes R (VStr "correct-horse") saltv
           (salt Sample.keyObject0) (scrypt defaultOptions) Sample.world0).
  - right. split; [reflexivity|apply b58_ok_sample].
  - split; [|split]; vm_compute; discriminate.
Defined.

(** Witness of X11: the sample key under a 16-byte derived key and
    [aes-128-ctr]. *)
Lemma short_key_opens_under_any_password_witness :
  ∃ ks,
    marshal Sample.runtime Cases.derivedKey16 Sample.keyObject0
            (salt Sample.keyObject0) (iv Sample.keyObject0) "aes-128-ctr"
            Sample.world0
    = (Ok ks, log EvKeccak (log (EvCipher "aes-128-ctr") Sample.world0))
    ∧ crypto_field ks "mac"
      = Ok (VStr (Base58_encode Sample.runtime
                    (keccak256 Sample.runtime Cases.ciphertext16)))
    ∧ ∀ pw' derivedKey' w,
        defined pw' = true →
        scrypt_of Sample.runtime pw' (salt Sample.keyObject0) Cases.kdf16
        = Ok derivedKey' →
        length derivedKey' ≤ 16 →
        recover Sample.runtime pw' ks Cases.kdf16 w
        = match createDecipheriv Sample.runtime "aes-128-ctr" derivedKey'
                  (iv Sample.keyObject0) with
          | Ok d => (d Cases.ciphertext16,
                     extend [EvScrypt; EvKeccak; EvDecipher "aes-128-ctr"] w)
          | Throw e => (Throw e,
                        extend [EvScrypt; EvKeccak; EvDecipher "aes-128-ctr"] w)
          end.
Proof.
  apply (short_key_opens_under_any_password Sample.runtime Sample.keyObject0
           (salt Sample.keyObject0) (iv Sample.keyObject0) "aes-128-ctr"
           Cases.kdf16 Cases.derivedKey16 Cases.ciphertext16 Sample.world0
           (log (EvCipher "aes-128-ctr") Sample.world0)).
  - vm_compute. lia.
  - vm_compute. reflexivity.
  - vm_compute. discriminate.
  - vm_compute. discriminate.
  - vm_compute. discriminate.
  - apply sample_codec.
Defined.

(** The record of the sample key made under the 16-byte key derived from
    "correct-horse" opens under "wrong-horse": [recover] returns 32
    bytes, which are not the private key. *)
Lemma short_key_wrong_password_example :
  fst (marshal Sample.runtime Cases.derivedKey16 Sample.keyObject0
         (salt Sample.keyObject0) (iv Sample.keyObject0) "aes-128-ctr" Sample.world0)
  = Ok Cases.record16
  ∧ recover Sample.runtime (VStr "wrong-horse") Cases.record16 Cases.kdf16
            Sample.world0
    = (Ok Cases.wrongly_recovered16,
       extend [EvScrypt; EvKeccak; EvDecipher "aes-128-ctr"] Sample.world0)
  ∧ length Cases.wrongly_recovered16 = 32
  ∧ Cases.wrongly_recovered16 ≠ privateKey Sample.keyObject0
  ∧ recover Sample.runtime (VStr "correct-horse") Cases.record16 Cases.kdf16
            Sample.world0
    = (Ok (privateKey Sample.keyObject0),
       extend [EvScrypt; EvKeccak; EvDecipher "aes-128-ctr"] Sample.world0).
Proof.
  split; [vm_compute; reflexivity|]. split; [vm_compute; reflexivity|].
  split; [vm_compute; reflexivity|]. split; [vm_compute; discriminate|].
  vm_compute. reflexivity.
Qed.

Lemma keyObject0_created :
  create Sample.runtime defaultOptions Sample.world0
  = (Ok Sample.keyObject0, Cases.world_created).
Proof. vm_compute. reflexivity. Defined.

(** Witness of X12: the default constants with [kdfParams] set to lighter
    parameters. *)
Lemma kdfParams_break_generation_witness :
  new_KeyManager Sample.runtime
    (PObject (VStr "correct-horse") None (Some Cases.options_kdfParams))
    Sample.world0
  = (Throw (JsError "message authentication code mismatch"),
     extend [EvKeccak; EvScrypt; EvKeccak]
       (log (EvCipher "aes-256-ctr") (log EvScrypt Cases.world_created))).
Proof.
  apply (kdfParams_break_generation Sample.runtime
           (PObject (VStr "correct-horse") None (Some Cases.options_kdfParams))
           Cases.kdf_light Sample.keyObject0
           Cases.derivedKey_light Sample.derivedKey0 Cases.ciphertext_light
           Sample.world0 Cases.world_created
           (log (EvCipher "aes-256-ctr") (log EvScrypt Cases.world_created))).
  - reflexivity.
  - reflexivity.
  - reflexivity.
  - exact keyObject0_created.
  - reflexivity.
  - vm_compute. reflexivity.
  - vm_compute. reflexivity.
  - vm_compute. reflexivity.
  - vm_compute. discriminate.
  - vm_compute. discriminate.
  - vm_compute. discriminate.
  - vm_compute. discriminate.
  - vm_compute. discriminate.
  - apply sample_codec.
Defined.

(** Witness of X18: [new KeyManager("correct-horse")] in the sample world. *)
Lemma generated_holds_private_key_witness :
  ∃ km w',
    new_KeyManager Sample.runtime (PString "correct-horse") Sample.world0
    = (Ok km, w')
    ∧ pk km = VStr (Base58_encode Sample.runtime (publicKey Sample.keyObject0))
    ∧ sk km = VBuf (privateKey Sample.keyObject0)
    ∧ isLocked km = false
    ∧ password km = given_password (PString "correct-horse").
Proof.
  apply (generated_holds_private_key Sample.runtime (PString "correct-horse")
           Sample.keyObject0 Sample.derivedKey0 Sample.ciphertext0
           Sample.world0 Cases.world_created
           (log (EvCipher "aes-256-ctr") (log EvScrypt Cases.world_created))).
  - reflexivity.
  - reflexivity.
  - reflexivity.
  - exact keyObject0_created.
  - vm_compute. reflexivity.
  - vm_compute. reflexivity.
  - vm_compute. discriminate.
  - vm_compute. discriminate.
  - vm_compute. discriminate.
  - vm_compute. discriminate.
  - apply sample_codec.
  - eexists. split; vm_compute; reflexivity.
Defined.




(** Witness of X3: generating a key for the password "correct-horse" in
    the sample world draws entropy three times and touches no file. *)
Lemma construction_effects_witness :
  let w' := snd (new_KeyManager Sample.runtime (PString "correct-horse")
                   Sample.world0) in
  fs w' = fs Sample.world0
  ∧ seed w' = 3 + seed Sample.world0.
Proof.
  intros w'.
  destruct (construction_effects Sample.runtime (PString "correct-horse")
              Sample.world0) as (Hfs & _ & _ & evs & _ & Hrest).
  split; [exact Hfs|].
  change (truthy_path (params_keyPath (PString "correct-horse"))) with false
    in Hrest.
  cbn iota in Hrest. destruct Hrest as (_ & _ & Hdraws).
  assert (Hsizes : drawable (keyBytes defaultOptions + ivBytes defaultOptions
                              + keyBytes defaultOptions))
    by (vm_compute; discriminate).
  destruct (Hdraws Sample.keyObject0 Cases.world_created eq_refl Hsizes
              keyObject0_created) as (Hthree & Hsame).
  fold w' in Hsame. rewrite Hsame. exact Hthree.
Defined.

Lemma length_mix (tag : N) (len : nat) (b : bytes) :
  length (Sample.mix tag len b) = len.
Proof. unfold Sample.mix. now rewrite length_map, length_seq. Qed.

Lemma signature0_signed :
  sign Sample.runtime "hello" (Sample.manager0, Sample.world1)
  = (Ok Cases.signature0, (Sample.manager0, after_randomBytes 64 Sample.world1)).
Proof. vm_compute. reflexivity. Defined.

(** Witness of X14: the sample instance signs "hello", and the signature
    verifies under its public key. *)
Lemma sign_then_verify_witness :
  verify Sample.runtime Cases.curve25519_verify (pk Sample.manager0) "hello"
         (VBuf Cases.signature0) Sample.world0
  = (Ok true, Sample.world0).
Proof.
  apply (sign_then_verify Sample.runtime Cases.curve25519_verify Sample.manager0
           (publicKey Sample.keyObject0) (privateKey Sample.keyObject0))
    with (message := "hello") (signature := Cases.signature0) (w := Sample.world1)
         (s' := (Sample.manager0, after_randomBytes 64 Sample.world1)).
  - vm_compute. reflexivity.
  - vm_compute. reflexivity.
  - vm_compute. discriminate.
  - apply b58_ok_sample.
  - intros msg nonce signature Hsig.
    change (Sample.curve25519_sign (VBuf (privateKey Sample.keyObject0)) msg nonce
            = Ok signature) in Hsig.
    unfold Sample.curve25519_sign in Hsig.
    destruct msg as [| | |m|]; try discriminate Hsig.
    repeat match type of Hsig with
           | (if ?c then _ else _) = _ => destruct c; [discriminate Hsig|]
           end.
    injection Hsig as <-. unfold Cases.curve25519_verify.
    rewrite length_mix. reflexivity.
  - exact signature0_signed.
  - left. reflexivity.
  - vm_compute. discriminate.
Defined.

(** Witness of X17: the sample instance signs the sample transaction. *)
Lemma addSigToTx_all_or_nothing_witness :
  is_Ok (fst (addSigToTx Sample.runtime Cases.prototypeTx0 (inl Sample.manager0)
                Sample.world1)).
Proof.
  apply (proj2 (addSigToTx_all_or_nothing Sample.runtime Cases.prototypeTx0
                  (inl Sample.manager0) Sample.world1)).
  apply Forall_cons_2; [|apply Forall_nil_2].
  split; [reflexivity|]. split; [right; eexists; reflexivity|].
  intros seed.
  change (is_Ok (Sample.curve25519_sign (VBuf (privateKey Sample.keyObject0))
                   (VBuf (Buffer_from_utf8 "hello")) (Sample.randomBytes seed 64))).
  unfold Sample.curve25519_sign.
  replace (length (Sample.randomBytes seed 64)) with 64
    by (unfold Sample.randomBytes; now rewrite length_map, length_seq).
  exact I.
Defined.

(** The sample instance signs the sample transaction: the result has
    the two properties of [rawTx] and [signatures], which holds one
    signature under the instance's public key. *)
Lemma addSigToTx_example :
  fst (addSigToTx Sample.runtime Cases.prototypeTx0 (inl Sample.manager0)
         Sample.world1)
  = Ok (VObj [ ("txType", VStr "PolyTransfer"); ("fee", VStr "0");
               ("signatures",
                VObj [("AyGujnudxezLvSzPdKWQbALtvpj3BS2Yv4bY2snvh3qE",
                       VStr (Base58_encode Sample.runtime Cases.signature0))]) ])
  ∧ ∃ e, fst (addSigToTx Sample.runtime Cases.prototypeTx0
                (inr [Sample.manager0; Cases.locked0]) Sample.world1)
         = Throw e.
Proof.
  split; [vm_compute; reflexivity|]. eexists. vm_compute. reflexivity.
Qed.

(** Witness of X16: given the sample instance with the property
    [networkPrefix] set to "local" and a [Requests] instance of that
    prefix, the constructor returns; given the bare password
    "correct-horse", it throws. *)
Lemma Brambl_constructor_needs_prefixed_key_manager_witness :
  new_Brambl Sample.runtime Cases.isValidNetwork Cases.getValidNetworksList
    Cases.getUrlByNetwork
    (BObject None VUndef (Some (KMInstance Sample.manager0 (VStr "local")))
       (Some (RInstance Cases.requests0)))
    Sample.world1
  = (Ok (mkBrambl "local" Cases.requests0 Sample.manager0), Sample.world1)
  ∧ ∃ e w',
      new_Brambl Sample.runtime Cases.isValidNetwork Cases.getValidNetworksList
        Cases.getUrlByNetwork (BString "correct-horse") Sample.world0
      = (Throw e, w').
Proof.
  split.
  - apply (proj2 (proj2 (Brambl_constructor_needs_prefixed_key_manager
                           Sample.runtime Cases.isValidNetwork
                           Cases.getValidNetworksList Cases.getUrlByNetwork
                           (BString "correct-horse") Sample.world1))
             None VUndef Sample.manager0 Cases.requests0 Sample.world1);
      reflexivity.
  - apply (proj1 (proj2 (Brambl_constructor_needs_prefixed_key_manager
                           Sample.runtime Cases.isValidNetwork
                           Cases.getValidNetworksList Cases.getUrlByNetwork
                           (BString "correct-horse") Sample.world0))).
    reflexivity.
Defined.
